(** * Air Instruments: gesture trigger engine and audio synthesis engine

    A shallow embedding of [src/services/audioEngine.ts], of the physics
    part of [src/App.tsx] and of the presets of [src/types.ts].  JavaScript
    numbers are IEEE-754 binary64 values
    and are modelled by the primitive floats of the Standard Library, so the
    arithmetic and the comparisons below are the ones the program performs,
    bit for bit.  The gain a voice renders between its scheduled events is
    read off the automation curves of the Web Audio specification, over the
    real numbers (module [Rendering]). *)

From Stdlib Require Import Floats ZArith QArith Qabs Lia Sorted.
From Stdlib Require Reals Qreals Lra.
From stdpp Require Import gmap strings list.

Set Warnings "-inexact-float".

(** ** JavaScript runtime values *)

Module JS.

Local Open Scope float_scope.

(** The relational operators [a > b] and [a >= b] on numbers. Every
    comparison with a NaN operand is false. *)
Definition gt (a b : float) : bool := b <? a.
Definition ge (a b : float) : bool := b <=? a.

(** An integer-valued number (a loop counter, an array index). *)
Definition of_nat (n : nat) : float := of_uint63 (Uint63.of_Z (Z.of_nat n)).

(** The exact rational value of a finite number. *)
Definition exact (f : float) : Q :=
  match Prim2SF f with
  | S754_finite sign m e =>
      ((if sign then -1 else 1) * Z.pos m # 1) * Qpower (2 # 1) e
  | _ => 0%Q
  end.

(** The values that reading a property of an object literal whose own
    properties are numbers can produce: [undefined], one of the numbers, or
    a member inherited from [Object.prototype]. *)
Inductive value : Type :=
| VUndefined
| VNumber (f : float)
| VInherited (name : string).

(** The properties every object literal inherits from [Object.prototype]
    (ECMAScript 20.1.3 and annex B.2.2): eleven functions and the
    [__proto__] accessor, whose getter yields [Object.prototype] itself. *)
Definition Object_prototype_keys : list string :=
  [ "constructor"; "hasOwnProperty"; "isPrototypeOf"; "propertyIsEnumerable";
    "toLocaleString"; "toString"; "valueOf"; "__proto__";
    "__defineGetter__"; "__defineSetter__"; "__lookupGetter__";
    "__lookupSetter__" ]%string.

(** [obj[key]] for an object literal [obj] with the own properties [own]:
    own properties first, then the prototype chain. *)
Definition get (own : gmap string float) (key : string) : value :=
  match own !! key with
  | Some f => VNumber f
  | None =>
      if bool_decide (key ∈ Object_prototype_keys) then VInherited key
      else VUndefined
  end.

(** ToBoolean: [undefined], [0], [-0] and [NaN] are falsy, objects and
    functions are truthy. *)
Definition truthy (v : value) : bool :=
  match v with
  | VUndefined => false
  | VNumber f => negb (is_zero f || is_nan f)
  | VInherited _ => true
  end.

(** [a || b]. *)
Definition or (a b : value) : value := if truthy a then a else b.

(** ToNumber: [undefined] gives NaN; a function or a plain object is first
    converted to a string (the source text of the function,
    ["[object Object]"]), which is not a numeric literal, so it gives NaN
    as well. *)
Definition ToNumber (v : value) : float :=
  match v with
  | VNumber f => f
  | VUndefined | VInherited _ => nan
  end.

Inductive error : Type := TypeError | RangeError | InvalidStateError.

(** The completion of a call: a normal return or a thrown exception. *)
Inductive outcome (A : Type) : Type :=
| Ok (a : A)
| Throw (e : error).
Arguments Ok {A} a.
Arguments Throw {A} e.

Definition and_then {A B} (o : outcome A) (k : A -> outcome B) : outcome B :=
  match o with Ok a => k a | Throw e => Throw e end.

(** Mutable state with exceptions: what was written before a throw stays
    written. *)
Definition M (St A : Type) : Type := St -> outcome A * St.

Definition ret {St A} (a : A) : M St A := fun s => (Ok a, s).
Definition bind {St A B} (m : M St A) (k : A -> M St B) : M St B :=
  fun s => match m s with
           | (Ok a, s') => k a s'
           | (Throw e, s') => (Throw e, s')
           end.
Definition read {St} : M St St := fun s => (Ok s, s).
Definition modify {St} (f : St -> St) : M St unit := fun s => (Ok tt, f s).
Definition lift {St A} (o : outcome A) : M St A := fun s => (o, s).

(** [xs.forEach(f)] and counted [for] loops: the calls run in order and the
    first exception ends the iteration. *)
Fixpoint forEach {St A} (f : A -> nat -> M St unit) (xs : list A) (i : nat)
  : M St unit :=
  match xs with
  | [] => ret tt
  | x :: rest => bind (f x i) (fun _ => forEach f rest (S i))
  end.

End JS.

Declare Scope js_scope.
Delimit Scope js_scope with js.

Notation "x <- c1 ;; c2" := (JS.bind c1 (fun x => c2))
  (at level 100, c1 at next level, right associativity) : js_scope.
Notation "c1 ;;; c2" := (JS.bind c1 (fun _ => c2))
  (at level 100, right associativity) : js_scope.

(** ** The audio synthesis engine, [src/services/audioEngine.ts] *)

Module AudioEngine.

Import JS.
Local Open Scope float_scope.

Inductive Waveform : Type := SINE | SQUARE | SAWTOOTH | TRIANGLE.

Record SynthConfig : Type := {
  waveform : Waveform;
  attack : float;
  decay : float;
  sustain : float;
  release : float;
  gain : float;
  filterFreq : float;
  delayMix : float;
  detune : option float
}.

(** The entries of the [noteMap] literal of [noteToFreq], in source
    order. *)
Definition noteTable : list (string * float) := [
  ("C0", 16.35); ("C#0", 17.32); ("Db0", 17.32); ("D0", 18.35); ("D#0", 19.45); ("Eb0", 19.45); ("E0", 20.60); ("F0", 21.83); ("F#0", 23.12); ("Gb0", 23.12); ("G0", 24.50); ("G#0", 25.96); ("Ab0", 25.96); ("A0", 27.50); ("A#0", 29.14); ("Bb0", 29.14); ("B0", 30.87);
  ("C1", 32.70); ("C#1", 34.65); ("Db1", 34.65); ("D1", 36.71); ("D#1", 38.89); ("Eb1", 38.89); ("E1", 41.20); ("F1", 43.65); ("F#1", 46.25); ("Gb1", 46.25); ("G1", 49.00); ("G#1", 51.91); ("Ab1", 51.91); ("A1", 55.00); ("A#1", 58.27); ("Bb1", 58.27); ("B1", 61.74);
  ("C2", 65.41); ("C#2", 69.30); ("Db2", 69.30); ("D2", 73.42); ("D#2", 77.78); ("Eb2", 77.78); ("E2", 82.41); ("F2", 87.31); ("F#2", 92.50); ("Gb2", 92.50); ("G2", 98.00); ("G#2", 103.83); ("Ab2", 103.83); ("A2", 110.00); ("A#2", 116.54); ("Bb2", 116.54); ("B2", 123.47);
  ("C3", 130.81); ("C#3", 138.59); ("Db3", 138.59); ("D3", 146.83); ("D#3", 155.56); ("Eb3", 155.56); ("E3", 164.81); ("F3", 174.61); ("F#3", 185.00); ("Gb3", 185.00); ("G3", 196.00); ("G#3", 207.65); ("Ab3", 207.65); ("A3", 220.00); ("A#3", 233.08); ("Bb3", 233.08); ("B3", 246.94);
  ("C4", 261.63); ("C#4", 277.18); ("Db4", 277.18); ("D4", 293.66); ("D#4", 311.13); ("Eb4", 311.13); ("E4", 329.63); ("F4", 349.23); ("F#4", 369.99); ("Gb4", 369.99); ("G4", 392.00); ("G#4", 415.30); ("Ab4", 415.30); ("A4", 440.00); ("A#4", 466.16); ("Bb4", 466.16); ("B4", 493.88);
  ("C5", 523.25); ("C#5", 554.37); ("Db5", 554.37); ("D5", 587.33); ("D#5", 622.25); ("Eb5", 622.25); ("E5", 659.26); ("F5", 698.46); ("F#5", 739.99); ("Gb5", 739.99); ("G5", 783.99); ("G#5", 830.61); ("Ab5", 830.61); ("A5", 880.00); ("A#5", 932.33); ("Bb5", 932.33); ("B5", 987.77);
  ("C6", 1046.50); ("C#6", 1108.73); ("Db6", 1108.73); ("D6", 1174.66); ("D#6", 1244.51); ("Eb6", 1244.51); ("E6", 1318.51); ("F6", 1396.91); ("F#6", 1479.98); ("Gb6", 1479.98); ("G6", 1567.98); ("G#6", 1661.22); ("Ab6", 1661.22); ("A6", 1760.00); ("A#6", 1864.66); ("Bb6", 1864.66); ("B6", 1975.53)
]%string.

Definition noteMap : gmap string float := list_to_map noteTable.

(** [return noteMap[note] || 440;] *)
Definition noteToFreq (note : string) : value :=
  JS.or (get noteMap note) (VNumber 440).

Arguments noteToFreq : simpl never.

(** *** The Web Audio interface the engine programs against

    An [AudioParam] is modelled by its current value and by the automation
    calls accepted so far, in call order, with the arguments of each call.
    The numeric arguments below are the arguments after ToNumber. *)

Inductive AutomationEvent : Type :=
| SetValueAtTime (value startTime : float)
| LinearRampToValueAtTime (value endTime : float)
| ExponentialRampToValueAtTime (value endTime : float)
| SetTargetAtTime (target startTime timeConstant : float).

Record AudioParam : Type := {
  value : float;
  events : list AutomationEvent
}.

Definition schedule (p : AudioParam) (ev : AutomationEvent) : AudioParam :=
  {| value := value p; events := events p ++ [ev] |}.

(** Web IDL argument conversion.  A [double] argument must be finite, a
    [float] argument must be finite and must not round to an infinite
    single-precision value; anything else is a TypeError. *)
Definition float32_overflow : float := 0x1.ffffffp127.

Definition is_double (x : float) : bool := is_finite x.
Definition is_float (x : float) : bool :=
  is_finite x && (abs x <? float32_overflow).

Definition to_double (x : float) : outcome float :=
  if is_double x then Ok x else Throw TypeError.
Definition to_float (x : float) : outcome float :=
  if is_float x then Ok x else Throw TypeError.

(** A time argument must not be negative: RangeError. *)
Definition check_time (t : float) : outcome unit :=
  if t <? 0 then Throw RangeError else Ok tt.

Definition setValueAtTime (p : AudioParam) (v startTime : float)
  : outcome AudioParam :=
  and_then (to_float v) (fun v =>
  and_then (to_double startTime) (fun t =>
  and_then (check_time t) (fun _ =>
  Ok (schedule p (SetValueAtTime v t))))).

Definition linearRampToValueAtTime (p : AudioParam) (v endTime : float)
  : outcome AudioParam :=
  and_then (to_float v) (fun v =>
  and_then (to_double endTime) (fun t =>
  and_then (check_time t) (fun _ =>
  Ok (schedule p (LinearRampToValueAtTime v t))))).

(** The target of an exponential ramp must not be zero: RangeError. *)
Definition exponentialRampToValueAtTime (p : AudioParam) (v endTime : float)
  : outcome AudioParam :=
  and_then (to_float v) (fun v =>
  and_then (to_double endTime) (fun t =>
  if is_zero v then Throw RangeError else
  and_then (check_time t) (fun _ =>
  Ok (schedule p (ExponentialRampToValueAtTime v t))))).

Definition setTargetAtTime (p : AudioParam) (target startTime timeConstant : float)
  : outcome AudioParam :=
  and_then (to_float target) (fun v =>
  and_then (to_double startTime) (fun t =>
  and_then (to_float timeConstant) (fun tc =>
  and_then (check_time t) (fun _ =>
  and_then (check_time tc) (fun _ =>
  Ok (schedule p (SetTargetAtTime v t tc))))))).

(** [param.value = v] *)
Definition set_value (p : AudioParam) (v : float) : outcome AudioParam :=
  and_then (to_float v) (fun v => Ok {| value := v; events := events p |}).

(** A fresh parameter with its default value. *)
Definition param (default : float) : AudioParam :=
  {| value := default; events := [] |}.

Inductive ContextState : Type := Suspended | Running | Closed.

Record AudioContext : Type := {
  currentTime : float;
  state : ContextState
}.

Record DynamicsCompressorNode : Type := {
  threshold : AudioParam;
  knee : AudioParam;
  ratio : AudioParam;
  compressor_attack : AudioParam;
  compressor_release : AudioParam
}.

(** One voice: the oscillator, the filter and the gain node that one call
    of [playNote] creates and wires into the master gain. *)
Record Voice : Type := {
  osc_type : Waveform;
  osc_frequency : AudioParam;
  osc_detune : AudioParam;
  filter_frequency : AudioParam;
  filter_Q : AudioParam;
  voice_gain : AudioParam;
  osc_start : option float;
  osc_stop : option float
}.

Inductive Node : Type :=
| MasterGain | Compressor | Delay | DelayGain | Feedback | Destination.

(** The fields of the class, then the parts of the graph that the class
    keeps no field for: the feedback gain of the delay loop, the
    connections of the persistent nodes, the voices connected to the master
    gain, and the resume requests made to the context. *)
Record Engine : Type := {
  ctx : option AudioContext;
  masterGain : option AudioParam;
  compressor : option DynamicsCompressorNode;
  delayNode : option AudioParam;
  delayGain : option AudioParam;
  config : SynthConfig;
  feedback : option AudioParam;
  connections : list (Node * Node);
  voices : list Voice;
  resumeRequests : nat
}.

(** [constructor(initialConfig)] *)
Definition new (initialConfig : SynthConfig) : Engine :=
  {| ctx := None; masterGain := None; compressor := None; delayNode := None;
     delayGain := None; config := initialConfig; feedback := None;
     connections := []; voices := []; resumeRequests := 0 |}.

(** Field assignments. *)
Definition set_ctx (c : option AudioContext) (e : Engine) : Engine :=
  {| ctx := c; masterGain := masterGain e; compressor := compressor e;
     delayNode := delayNode e; delayGain := delayGain e; config := config e;
     feedback := feedback e; connections := connections e;
     voices := voices e; resumeRequests := resumeRequests e |}.
Definition set_masterGain (g : option AudioParam) (e : Engine) : Engine :=
  {| ctx := ctx e; masterGain := g; compressor := compressor e;
     delayNode := delayNode e; delayGain := delayGain e; config := config e;
     feedback := feedback e; connections := connections e;
     voices := voices e; resumeRequests := resumeRequests e |}.
Definition set_compressor (c : option DynamicsCompressorNode) (e : Engine)
  : Engine :=
  {| ctx := ctx e; masterGain := masterGain e; compressor := c;
     delayNode := delayNode e; delayGain := delayGain e; config := config e;
     feedback := feedback e; connections := connections e;
     voices := voices e; resumeRequests := resumeRequests e |}.
Definition set_delayNode (d : option AudioParam) (e : Engine) : Engine :=
  {| ctx := ctx e; masterGain := masterGain e; compressor := compressor e;
     delayNode := d; delayGain := delayGain e; config := config e;
     feedback := feedback e; connections := connections e;
     voices := voices e; resumeRequests := resumeRequests e |}.
Definition set_delayGain (g : option AudioParam) (e : Engine) : Engine :=
  {| ctx := ctx e; masterGain := masterGain e; compressor := compressor e;
     delayNode := delayNode e; delayGain := g; config := config e;
     feedback := feedback e; connections := connections e;
     voices := voices e; resumeRequests := resumeRequests e |}.
Definition set_config (c : SynthConfig) (e : Engine) : Engine :=
  {| ctx := ctx e; masterGain := masterGain e; compressor := compressor e;
     delayNode := delayNode e; delayGain := delayGain e; config := c;
     feedback := feedback e; connections := connections e;
     voices := voices e; resumeRequests := resumeRequests e |}.
Definition set_feedback (g : option AudioParam) (e : Engine) : Engine :=
  {| ctx := ctx e; masterGain := masterGain e; compressor := compressor e;
     delayNode := delayNode e; delayGain := delayGain e; config := config e;
     feedback := g; connections := connections e;
     voices := voices e; resumeRequests := resumeRequests e |}.
Definition connect (a b : Node) (e : Engine) : Engine :=
  {| ctx := ctx e; masterGain := masterGain e; compressor := compressor e;
     delayNode := delayNode e; delayGain := delayGain e; config := config e;
     feedback := feedback e; connections := connections e ++ [(a, b)];
     voices := voices e; resumeRequests := resumeRequests e |}.
Definition set_voices (vs : list Voice) (e : Engine) : Engine :=
  {| ctx := ctx e; masterGain := masterGain e; compressor := compressor e;
     delayNode := delayNode e; delayGain := delayGain e; config := config e;
     feedback := feedback e; connections := connections e;
     voices := vs; resumeRequests := resumeRequests e |}.
Definition request_resume (e : Engine) : Engine :=
  {| ctx := ctx e; masterGain := masterGain e; compressor := compressor e;
     delayNode := delayNode e; delayGain := delayGain e; config := config e;
     feedback := feedback e; connections := connections e;
     voices := voices e; resumeRequests := S (resumeRequests e) |}.

Local Open Scope js_scope.

(** [createDynamicsCompressor()] followed by the five assignments of
    [init]. *)
Definition init_compressor : outcome DynamicsCompressorNode :=
  and_then (set_value (param (-24)) (-20)) (fun th =>
  and_then (set_value (param 30) 30) (fun kn =>
  and_then (set_value (param 12) 12) (fun ra =>
  and_then (set_value (param 0.003) 0.002) (fun at_ =>
  and_then (set_value (param 0.25) 0.25) (fun re =>
  Ok {| threshold := th; knee := kn; ratio := ra;
        compressor_attack := at_; compressor_release := re |}))))).

Definition running (c : AudioContext) : AudioContext :=
  {| currentTime := currentTime c; state := Running |}.

(** [init()].  [constructed] is the completion of
    [new AudioContextClass({ latencyHint: 'interactive' })]: the fresh
    context, or the exception of a constructor that is missing or that
    refuses; nothing has been assigned when it throws.  [resume] is the
    settlement of [ctx.resume()], awaited when the fresh context is
    suspended. *)
Definition init (constructed : outcome AudioContext) (resume : outcome unit)
  : M Engine unit :=
  e <- read ;;
  match ctx e with
  | Some _ => ret tt
  | None =>
      fresh <- lift constructed ;;
      modify (set_ctx (Some fresh)) ;;;
      modify (set_masterGain (Some (param 1))) ;;;
      mg <- lift (set_value (param 1) 0.6) ;;
      modify (set_masterGain (Some mg)) ;;;
      comp <- lift init_compressor ;;
      modify (set_compressor (Some comp)) ;;;
      modify (set_delayNode (Some (param 0))) ;;;
      dt <- lift (set_value (param 0) 0.3) ;;
      modify (set_delayNode (Some dt)) ;;;
      modify (set_delayGain (Some (param 1))) ;;;
      dg <- lift (set_value (param 1) (delayMix (config e))) ;;
      modify (set_delayGain (Some dg)) ;;;
      modify (set_feedback (Some (param 1))) ;;;
      fb <- lift (set_value (param 1) 0.4) ;;
      modify (set_feedback (Some fb)) ;;;
      modify (connect MasterGain Compressor) ;;;
      modify (connect MasterGain Delay) ;;;
      modify (connect Delay Feedback) ;;;
      modify (connect Feedback Delay) ;;;
      modify (connect Delay DelayGain) ;;;
      modify (connect DelayGain Compressor) ;;;
      modify (connect Compressor Destination) ;;;
      match state fresh with
      | Suspended =>
          lift resume ;;;
          modify (set_ctx (Some (running fresh)))
      | _ => ret tt
      end
  end.

(** [updateConfig(newConfig)] *)
Definition updateConfig (newConfig : SynthConfig) : M Engine unit :=
  modify (set_config newConfig) ;;;
  e <- read ;;
  match delayGain e, ctx e with
  | Some dg, Some c =>
      dg' <- lift (setTargetAtTime dg (delayMix newConfig) (currentTime c) 0.1) ;;
      modify (set_delayGain (Some dg'))
  | _, _ => ret tt
  end.

Definition started (t : float) (v : Voice) : Voice :=
  {| osc_type := osc_type v; osc_frequency := osc_frequency v;
     osc_detune := osc_detune v; filter_frequency := filter_frequency v;
     filter_Q := filter_Q v; voice_gain := voice_gain v;
     osc_start := Some t; osc_stop := osc_stop v |}.
Definition stopped (t : float) (v : Voice) : Voice :=
  {| osc_type := osc_type v; osc_frequency := osc_frequency v;
     osc_detune := osc_detune v; filter_frequency := filter_frequency v;
     filter_Q := filter_Q v; voice_gain := voice_gain v;
     osc_start := osc_start v; osc_stop := Some t |}.

(** [osc.start(when)] and [osc.stop(when)]: [when] is a [double] and must
    not be negative. *)
Definition start (v : Voice) (when : float) : outcome Voice :=
  and_then (to_double when) (fun t =>
  and_then (check_time t) (fun _ =>
  match osc_start v with
  | Some _ => Throw InvalidStateError
  | None => Ok (started t v)
  end)).
Definition stop (v : Voice) (when : float) : outcome Voice :=
  and_then (to_double when) (fun t =>
  and_then (check_time t) (fun _ =>
  match osc_start v with
  | None => Throw InvalidStateError
  | Some _ => Ok (stopped t v)
  end)).

(** The voice most recently connected is the last of [voices]. *)
Definition replace_last (v : Voice) (e : Engine) : Engine :=
  set_voices (removelast (voices e) ++ [v]) e.

(** [if (this.config.detune)]: an absent field, 0 and NaN are falsy. *)
Definition detune_set (cfg : SynthConfig) : option float :=
  match detune cfg with
  | Some d => if truthy (VNumber d) then Some d else None
  | None => None
  end.

(** [playNote(note)] *)
Definition playNote (note : string) : M Engine unit :=
  e <- read ;;
  match ctx e, masterGain e with
  | Some c, Some _ =>
      match state c with
      | Suspended => modify request_resume
      | _ => ret tt
      end ;;;
      let freq := noteToFreq note in
      let t := currentTime c in
      let cfg := config e in
      (* fresh nodes carry the default values of their parameters *)
      frequency <- lift (setValueAtTime (param 440) (ToNumber freq) t) ;;
      dtn <- lift (match detune_set cfg with
                   | Some d => setValueAtTime (param 0) d t
                   | None => Ok (param 0)
                   end) ;;
      cutoff <- lift (setValueAtTime (param 350) (filterFreq cfg) t) ;;
      q <- lift (set_value (param 1) 5) ;;
      g0 <- lift (setValueAtTime (param 1) 0 t) ;;
      g1 <- lift (if attack cfg <? 0.005
                  then setValueAtTime g0 (gain cfg) t
                  else linearRampToValueAtTime g0 (gain cfg) (t + attack cfg)) ;;
      g2 <- lift (exponentialRampToValueAtTime g1
                    (gain cfg * sustain cfg + 0.001)
                    (t + attack cfg + decay cfg)) ;;
      g3 <- lift (exponentialRampToValueAtTime g2 0.0001
                    (t + attack cfg + decay cfg + release cfg)) ;;
      let v := {| osc_type := waveform cfg; osc_frequency := frequency;
                  osc_detune := dtn; filter_frequency := cutoff;
                  filter_Q := q; voice_gain := g3;
                  osc_start := None; osc_stop := None |} in
      modify (fun e => set_voices (voices e ++ [v]) e) ;;;
      v1 <- lift (start v t) ;;
      modify (replace_last v1) ;;;
      let stopTime := t + attack cfg + decay cfg + release cfg + 0.1 in
      v2 <- lift (stop v1 stopTime) ;;
      modify (replace_last v2)
  | _, _ => ret tt
  end.

(** [osc.onended]: the voice is disconnected from the graph. *)
Definition onended (i : nat) (e : Engine) : Engine :=
  set_voices (delete i (voices e)) e.

End AudioEngine.

(** ** Instruments, [src/types.ts] *)

Module Types.

Import AudioEngine.
Local Open Scope float_scope.
Local Open Scope string_scope.

Record InstrumentState : Type := {
  id : string;
  name : string;
  notes : list string;
  config : SynthConfig;
  description : string;
  color : string
}.

Definition SCALE_PENTATONIC_C : list string :=
  [ "C4"; "D4"; "E4"; "G4"; "A4"; "C5"; "D5"; "E5"; "G5"; "A5"; "C6"; "D6" ].

Definition DEFAULT_NOTES : list string := SCALE_PENTATONIC_C.

Definition DEFAULT_CONFIG : SynthConfig :=
  {| waveform := SINE; attack := 0.005; decay := 0.1; sustain := 0.3;
     release := 1.5; gain := 0.3; filterFreq := 2000; delayMix := 0.3;
     detune := None |}.

(** [INSTRUMENT_PRESETS[0]] *)
Definition harp : InstrumentState :=
  {| id := "harp"; name := "Ethereal Harp"; notes := SCALE_PENTATONIC_C;
     color := "cyan";
     description := "Pure sine waves with a touch of delay.";
     config := {| waveform := SINE; attack := 0.005; decay := 0.1;
                  sustain := 0.3; release := 1.5; gain := 0.3;
                  filterFreq := 2000; delayMix := 0.3; detune := None |} |}.

End Types.

(** ** The gesture trigger engine, [src/App.tsx] *)

Module App.

Import JS.
Local Open Scope float_scope.
Local Open Scope js_scope.

Definition NUM_STRINGS : nat := 12.

(** One landmark of a hand, [{x, y}]. *)
Record Landmark : Type := { lx : float; ly : float }.

(** A hand is the array of its landmarks; [landmarks[i]] is
    [landmarks !! i], and [None] stands for [undefined]. *)
Definition Hand : Type := list Landmark.

(** The entries of [lastFingerData], [{x, time}]. *)
Record FingerData : Type := { last_x : float; time : float }.

(** The mutable refs of the physics step.  [triggerStringCalls] records the
    calls [triggerString(s, now)] in call order.  In this module the call
    is recorded and taken to return, which gives the decisions of the
    trigger engine; the body of the call is [triggerString] below, and the
    module [Wired] runs that body where the loop calls it, exceptions
    included.  [WiredFacts.processPhysics_agrees] relates the two. *)
Record Physics : Type := {
  lastFingerData : gmap nat FingerData;
  stringDebounce : list float;
  triggerStringCalls : list (nat * float)
}.

(** [new Map()], [new Array(NUM_STRINGS).fill(0)]. *)
Definition initial : Physics :=
  {| lastFingerData := ∅; stringDebounce := replicate NUM_STRINGS 0;
     triggerStringCalls := [] |}.

Definition set_lastFingerData (fingerId : nat) (d : FingerData) (st : Physics)
  : Physics :=
  {| lastFingerData := <[fingerId := d]> (lastFingerData st);
     stringDebounce := stringDebounce st;
     triggerStringCalls := triggerStringCalls st |}.

(** [stringDebounceRef.current[s] = now].  The program writes only where it
    has just read a number, so the index is within the array. *)
Definition set_stringDebounce (s : nat) (now : float) (st : Physics) : Physics :=
  {| lastFingerData := lastFingerData st;
     stringDebounce := <[s := now]> (stringDebounce st);
     triggerStringCalls := triggerStringCalls st |}.

Definition call_triggerString (s : nat) (now : float) (st : Physics) : Physics :=
  {| lastFingerData := lastFingerData st;
     stringDebounce := stringDebounce st;
     triggerStringCalls := triggerStringCalls st ++ [(s, now)] |}.

(** [stringDebounceRef.current[s]] as an operand of a subtraction:
    [undefined] converts to NaN. *)
Definition debounce_at (st : Physics) (s : nat) : float :=
  default nan (stringDebounce st !! s).

(** [landmarks[i].x] and [landmarks[i].y] read a property of
    [landmarks[i]]: a TypeError when it is [undefined]. *)
Definition landmark (landmarks : Hand) (i : nat) : outcome Landmark :=
  match landmarks !! i with
  | Some p => Ok p
  | None => Throw TypeError
  end.

Definition stringSpacing : float := 1.0 / (of_nat NUM_STRINGS + 1).
Definition velocityThreshold : float := 0.00015.
Definition debounceTime : float := 40.

(** [const stringX = stringSpacing * (s + 1);] *)
Definition stringX (s : nat) : float := stringSpacing * (of_nat s + 1).

Definition crossedLeftToRight (lastX x stringX : float) : bool :=
  (lastX <? stringX) && ge x stringX.
Definition crossedRightToLeft (lastX x stringX : float) : bool :=
  gt lastX stringX && (x <=? stringX).

(** The body of [for (let s = 0; s < NUM_STRINGS; s++)], with the call of
    [triggerString] recorded and taken to return. *)
Definition stringStep (lastData : FingerData) (x y now : float)
    (st : Physics) (s : nat) : Physics :=
  let lastX := last_x lastData in
  if crossedLeftToRight lastX x (stringX s)
     || crossedRightToLeft lastX x (stringX s) then
    if gt y 0.1 && (y <? 0.9) then
      if gt (now - debounce_at st s) debounceTime then
        set_stringDebounce s now (call_triggerString s now st)
      else st
    else st
  else st.

Definition velocity (lastData : FingerData) (x now : float) : float :=
  let dx := x - last_x lastData in
  let dt := now - time lastData in
  if gt dt 0 then abs dx / dt else 0.

(** The block [if (lastData) { ... }]. *)
Definition pluck (lastData : FingerData) (x y now : float) (st : Physics)
  : Physics :=
  if gt (velocity lastData x now) velocityThreshold then
    fold_left (stringStep lastData x y now) (seq 0 NUM_STRINGS) st
  else st.

(** Tip and PIP landmark of the index, middle, ring and little finger. *)
Definition fingers : list (nat * nat) := [ (8, 6); (12, 10); (16, 14); (20, 18) ]%nat.

Definition fingerId (handIndex tip : nat) : nat := (handIndex * 100 + tip)%nat.

Section WithHypot.

(** [Math.hypot], which ECMAScript leaves implementation-approximated. *)
Variable hypot : float -> float -> float.

Definition isFingerOpen (landmarks : Hand) (tipIdx pipIdx wristIdx : nat)
  : outcome bool :=
  match landmarks !! wristIdx, landmarks !! pipIdx, landmarks !! tipIdx with
  | Some wrist, Some pip, Some tip =>
      let distWristToPip := hypot (lx pip - lx wrist) (ly pip - ly wrist) in
      let distWristToTip := hypot (lx tip - lx wrist) (ly tip - ly wrist) in
      Ok (gt distWristToTip (distWristToPip * 0.9))
  | _, _, _ => Throw TypeError
  end.

(** The callback of [fingers.forEach]: the update of one finger of one
    hand. *)
Definition fingerUpdate (landmarks : Hand) (handIndex : nat) (now : float)
    (finger : nat * nat) : M Physics unit :=
  let '(tip, pip) := finger in
  open <- lift (isFingerOpen landmarks tip pip 0) ;;
  if negb open then
    p <- lift (landmark landmarks tip) ;;
    let rawX := lx p in
    let x := 1.0 - rawX in
    modify (set_lastFingerData (fingerId handIndex tip)
              {| last_x := x; time := now |})
  else
    p <- lift (landmark landmarks tip) ;;
    let rawX := lx p in
    let x := 1.0 - rawX in
    let y := ly p in
    st <- read ;;
    match lastFingerData st !! fingerId handIndex tip with
    | Some lastData => modify (pluck lastData x y now)
    | None => ret tt
    end ;;;
    modify (set_lastFingerData (fingerId handIndex tip)
              {| last_x := x; time := now |}).

(** The callback of [landmarksArray.forEach]: the four finger updates of
    one hand. *)
Definition handUpdate (now : float) (landmarks : Hand) (handIndex : nat)
  : M Physics unit :=
  forEach (fun finger _ => fingerUpdate landmarks handIndex now finger)
    fingers 0.

(** [processPhysics(landmarksArray, now)]; [audioEngine] tells whether
    the engine object exists. *)
Definition processPhysics (audioEngine : bool) (landmarksArray : list Hand)
    (now : float) : M Physics unit :=
  if negb audioEngine then ret tt
  else forEach (handUpdate now) landmarksArray 0.

(** What can interrupt the drawing of one hand in [drawFrame]: [drawPoint]
    reads the coordinates of the landmarks 0 to 20. *)
Definition drawHand (landmarks : Hand) : outcome unit :=
  if forallb (fun i => bool_decide (is_Some (landmarks !! i))) (seq 0 21)
  then Ok tt else Throw TypeError.

(** One delivered video frame: [live] is false when the video or the
    landmarker is missing or the video is paused or ended, [result] is
    what detection left in [result] ([None] for [null], also after a
    caught detection error), [presentationTime] is
    [metadata?.presentationTime]. *)
Record Frame : Type := {
  live : bool;
  frame_now : float;
  presentationTime : option float;
  result : option (list Hand)
}.

End WithHypot.

(** *** [triggerString] *)

Record Player : Type := {
  audioEngine : option AudioEngine.Engine;
  instrument : Types.InstrumentState;
  activeStrings : list float
}.

(** [instrument.notes[index % instrument.notes.length]], as the property
    key it is used for: [undefined] (an empty note list) reads the key
    ["undefined"]. *)
Definition note_of (instrument : Types.InstrumentState) (index : nat) : string :=
  default "undefined"%string
    (Types.notes instrument
       !! (index mod length (Types.notes instrument))%nat).

(** [triggerString(index, now)]; [clock] is the value of
    [performance.now()]. *)
Definition triggerString (clock : float) (index : nat) : M Player unit :=
  p <- read ;;
  match audioEngine p with
  | None => ret tt
  | Some e =>
      let '(o, e') := AudioEngine.playNote (note_of (instrument p) index) e in
      modify (fun p => {| audioEngine := Some e'; instrument := instrument p;
                          activeStrings := activeStrings p |}) ;;;
      lift o ;;;
      modify (fun p => {| audioEngine := audioEngine p;
                          instrument := instrument p;
                          activeStrings := <[index := clock]> (activeStrings p) |})
  end.

(** The recorded calls of [triggerString], run in order. *)
Definition dispatch (clock : float) (calls : list (nat * float)) : M Player unit :=
  forEach (fun call _ => triggerString clock (fst call)) calls 0.

End App.

(** ** Concrete engines, hands and frames used to exercise the model *)

Module Examples.

Import JS.
Local Open Scope float_scope.

(** An engine built by [init] from the default configuration, on a running
    context whose clock reads [t]. *)
Definition engine_at (t : float) : AudioEngine.Engine :=
  snd (AudioEngine.init
         (Ok {| AudioEngine.currentTime := t;
                AudioEngine.state := AudioEngine.Running |})
         (Ok tt) (AudioEngine.new Types.DEFAULT_CONFIG)).

(** [INSTRUMENT_PRESETS[2].config], the preset with the 1 ms attack. *)
Definition arcade_config : AudioEngine.SynthConfig :=
  {| AudioEngine.waveform := AudioEngine.SQUARE; AudioEngine.attack := 0.001;
     AudioEngine.decay := 0.1; AudioEngine.sustain := 0.1;
     AudioEngine.release := 0.1; AudioEngine.gain := 0.15;
     AudioEngine.filterFreq := 8000; AudioEngine.delayMix := 0.0;
     AudioEngine.detune := None |}.

Definition arcade_engine : AudioEngine.Engine :=
  AudioEngine.set_config arcade_config (engine_at 2).

(** A [Math.hypot] computed as the rounded square root of the rounded sum
    of squares. *)
Definition hypot (a b : float) : float := sqrt (a * a + b * b).

(** A hand of 21 landmarks whose index finger is stretched out, with its
    tip at [(rawX, y)], and whose other fingers are folded onto the
    wrist. *)
Definition hand (rawX y : float) : App.Hand :=
  <[8%nat := {| App.lx := rawX; App.ly := y |}]>
    (<[6%nat := {| App.lx := rawX; App.ly := y + 0.2 |}]>
       (replicate 21 {| App.lx := rawX; App.ly := y + 0.4 |})).


Definition frame (now : float) (hands : list App.Hand) : App.Frame :=
  {| App.live := true; App.frame_now := now; App.presentationTime := None;
     App.result := Some hands |}.

(** The physics state in which the finger [fingerId] was last seen at [x] at
    the time [t], and nothing else has happened. *)
Definition seen (fingerId : nat) (x t : float) : App.Physics :=
  App.set_lastFingerData fingerId {| App.last_x := x; App.time := t |}
    App.initial.

End Examples.

(** ** What the trigger engine decides *)

Module Triggers.

Import JS App.
Local Open Scope float_scope.

(** The three nested conditions of the loop body for the string [s], read
    in the state [st]. *)
Definition fires (lastData : FingerData) (x y now : float) (st : Physics)
    (s : nat) : bool :=
  (crossedLeftToRight (last_x lastData) x (stringX s)
   || crossedRightToLeft (last_x lastData) x (stringX s))
  && (gt y 0.1 && (y <? 0.9))
  && gt (now - debounce_at st s) debounceTime.

(** The strings for which the loop calls [triggerString], in loop order. *)
Definition fired (lastData : FingerData) (x y now : float) (st : Physics)
  : list nat :=
  List.filter (fires lastData x y now st) (seq 0 NUM_STRINGS).

(** The entry [fingerUpdate] stores for a finger whose tip is [p]. *)
Definition tracked (p : Landmark) (now : float) : FingerData :=
  {| last_x := 1.0 - lx p; time := now |}.

(** The string position as the specification words it, [s / (N + 1)]. *)
Definition claimed_stringX (s : nat) : float :=
  of_nat s / (of_nat NUM_STRINGS + 1).

(** A string position within [2^-53] of [(s + 1) / 13] and strictly between
    0 and 1, as one computation. *)
Definition position_check (s : nat) : bool :=
  Qle_bool (Qabs (exact (stringX s) - (Z.of_nat s + 1 # 13))) (1 # 2 ^ 53)
  && (0 <? stringX s) && (stringX s <? 1).

End Triggers.

(** ** What the audio engine schedules *)

Module Scheduled.

Import AudioEngine.
Local Open Scope float_scope.

(** The automation calls [playNote] makes on the gain of a voice, for the
    configuration [cfg] at the context time [t]. *)
Definition envelope (cfg : SynthConfig) (t : float) : list AutomationEvent :=
  [ SetValueAtTime 0 t;
    if attack cfg <? 0.005
    then SetValueAtTime (gain cfg) t
    else LinearRampToValueAtTime (gain cfg) (t + attack cfg);
    ExponentialRampToValueAtTime (gain cfg * sustain cfg + 0.001)
      (t + attack cfg + decay cfg);
    ExponentialRampToValueAtTime 0.0001
      (t + attack cfg + decay cfg + release cfg) ].

(** The voice a completed call of [playNote] leaves in the graph. *)
Definition voice (cfg : SynthConfig) (freq t : float) : Voice :=
  {| osc_type := waveform cfg;
     osc_frequency := schedule (param 440) (SetValueAtTime freq t);
     osc_detune := match detune_set cfg with
                   | Some d => schedule (param 0) (SetValueAtTime d t)
                   | None => param 0
                   end;
     filter_frequency := schedule (param 350) (SetValueAtTime (filterFreq cfg) t);
     filter_Q := {| value := 5; events := [] |};
     voice_gain := {| value := 1; events := envelope cfg t |};
     osc_start := Some t;
     osc_stop := Some (t + attack cfg + decay cfg + release cfg + 0.1) |}.

(** The checks of the interface: a time must be a finite, non-negative
    [double]; a value scheduled at a time must be a [float]; the target of
    an exponential ramp must also differ from zero. *)
Definition is_time (t : float) : bool := is_double t && negb (t <? 0).
Definition call_ok (v t : float) : bool := is_float v && is_time t.
Definition ramp_ok (v t : float) : bool :=
  is_float v && is_double t && negb (is_zero v) && negb (t <? 0).

(** The checks on the calls of [playNote], in call order, for the resolved
    frequency [freq]: [playNote] returns normally when all of them pass and
    throws at the first that fails. *)
Definition accepted (cfg : SynthConfig) (freq t : float) : bool :=
  call_ok freq t
  && match detune_set cfg with Some d => call_ok d t | None => true end
  && call_ok (filterFreq cfg) t
  && call_ok 0 t
  && (if attack cfg <? 0.005 then call_ok (gain cfg) t
      else call_ok (gain cfg) (t + attack cfg))
  && ramp_ok (gain cfg * sustain cfg + 0.001) (t + attack cfg + decay cfg)
  && ramp_ok 0.0001 (t + attack cfg + decay cfg + release cfg)
  && is_time t
  && is_time (t + attack cfg + decay cfg + release cfg + 0.1).

(** The engine as [playNote] leaves it after its resume request. *)
Definition resumed (c : AudioContext) (e : Engine) : Engine :=
  match state c with Suspended => request_resume e | _ => e end.

(** The engine a completed call of [playNote] leaves. *)
Definition played (note : string) (c : AudioContext) (e : Engine) : Engine :=
  set_voices
    (voices e ++ [voice (config e) (JS.ToNumber (noteToFreq note)) (currentTime c)])
    (resumed c e).

End Scheduled.

(** ** The other presets of [src/types.ts] *)

Module Presets.

Import AudioEngine Types.
Local Open Scope float_scope.
Local Open Scope string_scope.

Definition SCALE_MINOR : list string :=
  [ "C4"; "Eb4"; "F4"; "G4"; "Bb4"; "C5"; "Eb5"; "F5"; "G5"; "Bb5"; "C6"; "Eb6" ].

Definition SCALE_CHROMATIC : list string :=
  [ "C4"; "Db4"; "D4"; "Eb4"; "E4"; "F4"; "Gb4"; "G4"; "Ab4"; "A4"; "Bb4"; "B4" ].

(** [INSTRUMENT_PRESETS[1]] *)
Definition bass : InstrumentState :=
  {| id := "bass"; name := "Cyber Bass";
     notes := [ "C2"; "D2"; "E2"; "G2"; "A2"; "C3"; "D3"; "E3"; "G3"; "A3"; "C4"; "D4" ];
     color := "rose";
     description := "Deep, aggressive sawtooth bass.";
     config := {| waveform := SAWTOOTH; attack := 0.01; decay := 0.2; sustain := 0.8;
                  release := 0.4; gain := 0.25; filterFreq := 400;
                  delayMix := 0.0; detune := Some 10 |} |}.

(** [INSTRUMENT_PRESETS[2]] *)
Definition arcade : InstrumentState :=
  {| id := "8bit"; name := "8-Bit Arcade";
     notes := Types.SCALE_PENTATONIC_C;
     color := "yellow";
     description := "Retro square waves.";
     config := {| waveform := SQUARE; attack := 0.001; decay := 0.1; sustain := 0.1;
                  release := 0.1; gain := 0.15; filterFreq := 8000;
                  delayMix := 0.0; detune := None |} |}.

(** [INSTRUMENT_PRESETS[3]] *)
Definition koto : InstrumentState :=
  {| id := "koto"; name := "Japanese Koto";
     notes := [ "C4"; "Db4"; "F4"; "G4"; "Bb4"; "C5"; "Db5"; "F5"; "G5"; "Bb5"; "C6"; "Db6" ];
     color := "orange";
     description := "Plucked string instrument sound.";
     config := {| waveform := TRIANGLE; attack := 0.0; decay := 0.2; sustain := 0.0;
                  release := 0.4; gain := 0.4; filterFreq := 3000;
                  delayMix := 0.1; detune := None |} |}.

(** [INSTRUMENT_PRESETS[4]] *)
Definition pad : InstrumentState :=
  {| id := "pad"; name := "Space Pad";
     notes := SCALE_MINOR;
     color := "purple";
     description := "Slow attack, heavy reverb/delay.";
     config := {| waveform := TRIANGLE; attack := 0.8; decay := 0.5; sustain := 0.8;
                  release := 2.0; gain := 0.3; filterFreq := 800;
                  delayMix := 0.6; detune := Some 5 |} |}.

(** [INSTRUMENT_PRESETS[5]] *)
Definition lead : InstrumentState :=
  {| id := "lead"; name := "Trance Lead";
     notes := SCALE_MINOR;
     color := "blue";
     description := "Bright super-saw anthem sound.";
     config := {| waveform := SAWTOOTH; attack := 0.01; decay := 0.3; sustain := 0.6;
                  release := 0.5; gain := 0.15; filterFreq := 5000;
                  delayMix := 0.4; detune := Some 15 |} |}.

(** [INSTRUMENT_PRESETS[6]] *)
Definition marimba : InstrumentState :=
  {| id := "marimba"; name := "Glass Marimba";
     notes := Types.SCALE_PENTATONIC_C;
     color := "emerald";
     description := "Woody, percussive sine tone.";
     config := {| waveform := SINE; attack := 0.001; decay := 0.05; sustain := 0.0;
                  release := 0.1; gain := 0.5; filterFreq := 3000;
                  delayMix := 0.0; detune := None |} |}.

(** [INSTRUMENT_PRESETS[7]] *)
Definition scifi : InstrumentState :=
  {| id := "scifi"; name := "Sci-Fi Zap";
     notes := SCALE_CHROMATIC;
     color := "lime";
     description := "High resonance filter zaps.";
     config := {| waveform := SAWTOOTH; attack := 0.001; decay := 0.1; sustain := 0.0;
                  release := 0.2; gain := 0.2; filterFreq := 1500;
                  delayMix := 0.2; detune := Some 50 |} |}.

(** [INSTRUMENT_PRESETS[8]] *)
Definition organ : InstrumentState :=
  {| id := "organ"; name := "Church Organ";
     notes := SCALE_MINOR;
     color := "amber";
     description := "Full, sustained tone.";
     config := {| waveform := TRIANGLE; attack := 0.1; decay := 0.1; sustain := 1.0;
                  release := 0.8; gain := 0.3; filterFreq := 1200;
                  delayMix := 0.3; detune := Some 4 |} |}.

(** [INSTRUMENT_PRESETS[9]] *)
Definition glitch : InstrumentState :=
  {| id := "glitch"; name := "Noise Glitch";
     notes := SCALE_CHROMATIC;
     color := "fuchsia";
     description := "Detuned, aggressive texture.";
     config := {| waveform := SQUARE; attack := 0.01; decay := 0.1; sustain := 0.4;
                  release := 0.1; gain := 0.1; filterFreq := 8000;
                  delayMix := 0.1; detune := Some 100 |} |}.

Definition INSTRUMENT_PRESETS : list InstrumentState :=
  [ harp; bass; arcade; koto; pad; lead; marimba; scifi; organ; glitch ].

End Presets.

(** ** What [init] builds *)

Module Graph.

Import AudioEngine.
Local Open Scope float_scope.

(** The connections [init] makes, in call order. *)
Definition wiring : list (Node * Node) :=
  [ (MasterGain, Compressor); (MasterGain, Delay); (Delay, Feedback);
    (Feedback, Delay); (Delay, DelayGain); (DelayGain, Compressor);
    (Compressor, Destination) ].

(** A parameter assigned through [.value], with no automation. *)
Definition fixed (v : float) : AudioParam := {| value := v; events := [] |}.

Definition limiter : DynamicsCompressorNode :=
  {| threshold := fixed (-20); knee := fixed 30; ratio := fixed 12;
     compressor_attack := fixed 0.002; compressor_release := fixed 0.25 |}.

(** The engine after the last [connect] of [init], on the context [c]. *)
Definition built (c : AudioContext) (e : Engine) : Engine :=
  {| ctx := Some c; masterGain := Some (fixed 0.6); compressor := Some limiter;
     delayNode := Some (fixed 0.3);
     delayGain := Some (fixed (delayMix (config e)));
     config := config e; feedback := Some (fixed 0.4);
     connections := connections e ++ wiring;
     voices := voices e; resumeRequests := resumeRequests e |}.

(** The engine [init] leaves when the assignment of [delayGain.gain.value]
    throws: the nodes made so far are kept, nothing is connected. *)
Definition interrupted (c : AudioContext) (e : Engine) : Engine :=
  {| ctx := Some c; masterGain := Some (fixed 0.6); compressor := Some limiter;
     delayNode := Some (fixed 0.3); delayGain := Some (param 1);
     config := config e; feedback := feedback e;
     connections := connections e;
     voices := voices e; resumeRequests := resumeRequests e |}.

(** The outcome of [init] on an engine that has no context yet, once the
    constructor has returned the context [fresh]. *)
Definition first_init (fresh : AudioContext) (resume : JS.outcome unit)
    (e : Engine) : JS.outcome unit * Engine :=
  if is_float (delayMix (config e)) then
    match state fresh with
    | Suspended =>
        match resume with
        | JS.Ok _ => (JS.Ok tt, built (running fresh) e)
        | JS.Throw err => (JS.Throw err, built fresh e)
        end
    | _ => (JS.Ok tt, built fresh e)
    end
  else (JS.Throw JS.TypeError, interrupted fresh e).

(** The resume requests one call of [playNote] makes. *)
Definition resume_requests (e : Engine) : nat :=
  match ctx e, masterGain e with
  | Some c, Some _ => match state c with Suspended => 1 | _ => 0 end
  | _, _ => 0
  end.

(** The checks of [Scheduled.accepted] on the values of a configuration
    and on the times derived from the context time [t]. *)
Definition values_ok (cfg : SynthConfig) (freq : float) : bool :=
  is_float freq
  && match detune_set cfg with Some d => is_float d | None => true end
  && is_float (filterFreq cfg)
  && is_float (gain cfg)
  && is_float (gain cfg * sustain cfg + 0.001)
  && negb (is_zero (gain cfg * sustain cfg + 0.001)).

Definition times_ok (cfg : SynthConfig) (t : float) : bool :=
  Scheduled.is_time t
  && Scheduled.is_time (t + attack cfg)
  && Scheduled.is_time (t + attack cfg + decay cfg)
  && Scheduled.is_time (t + attack cfg + decay cfg + release cfg)
  && Scheduled.is_time (t + attack cfg + decay cfg + release cfg + 0.1).

(** A series of calls of [playNote], each on the engine the call before
    left, whether it returned or threw. *)
Definition play_all (notes : list string) (e : Engine) : Engine :=
  fold_left (fun e note => snd (playNote note e)) notes e.

(** Sharps and flats of the note table, and its octaves. *)
Definition enharmonic : list (string * string) :=
  [ ("C#", "Db"); ("D#", "Eb"); ("F#", "Gb"); ("G#", "Ab"); ("A#", "Bb") ]%string.
Definition octaves : list string := [ "0"; "1"; "2"; "3"; "4"; "5"; "6" ]%string.

(** The table is in ascending pitch order. *)
Fixpoint ascending (l : list float) : bool :=
  match l with
  | a :: (b :: _) as rest => (a <=? b) && ascending rest
  | _ => true
  end.

End Graph.

(** ** Further configurations and contexts used to exercise the model *)

Module Cases.

Import AudioEngine.
Local Open Scope float_scope.

(** The default configuration with a [delayMix] that is not a number, as a
    configuration parsed from JSON that lacks the field gives. *)
Definition no_delayMix : SynthConfig :=
  {| waveform := SINE; attack := 0.005; decay := 0.1; sustain := 0.3;
     release := 1.5; gain := 0.3; filterFreq := 2000; delayMix := nan;
     detune := None |}.

Definition context (t : float) (s : ContextState) : AudioContext :=
  {| currentTime := t; state := s |}.

(** An instrument whose note list holds a name that is no note. *)
Definition odd_notes : Types.InstrumentState :=
  {| Types.id := "gen-0"; Types.name := "Generated";
     Types.notes := [ "C4"; "constructor" ]%string;
     Types.config := Types.DEFAULT_CONFIG;
     Types.description := ""; Types.color := "fuchsia" |}.

(** A player whose engine was initialised on a running context at the
    time 2. *)
Definition player (instrument : Types.InstrumentState) : App.Player :=
  {| App.audioEngine :=
       Some (set_config (Types.config instrument) (Examples.engine_at 2));
     App.instrument := instrument;
     App.activeStrings := replicate App.NUM_STRINGS 0 |}.

End Cases.

(** ** What a frame does to the trigger engine *)

Module Frames.

Import JS App.
Local Open Scope float_scope.

(** The state [st] is reached from [st0] by finger updates that all carry
    the time [now]: calls were only appended; each appended call is for a
    string index below [NUM_STRINGS] at the time [now], for a string whose
    debounce window had elapsed in [st0] and whose debounce entry is [now]
    in [st]; no string was called twice; the debounce entries of the other
    strings are those of [st0]. *)
Definition within (now : float) (st0 st : Physics) : Prop :=
  exists new : list (nat * float),
    triggerStringCalls st = triggerStringCalls st0 ++ new /\
    NoDup (new.*1) /\
    (forall (s : nat) (t : float),
       (s, t) ∈ new ->
       (s < NUM_STRINGS)%nat /\ t = now /\
       gt (now - debounce_at st0 s) debounceTime = true /\
       stringDebounce st !! s = Some now) /\
    (forall s : nat,
       s ∉ new.*1 -> stringDebounce st !! s = stringDebounce st0 !! s).

(** No stored finger entry is older than [now]: the time difference the
    velocity is computed from is not positive. *)
Definition not_before (now : float) (st : Physics) : Prop :=
  forall (fingerId : nat) (d : FingerData),
    lastFingerData st !! fingerId = Some d -> gt (now - time d) 0 = false.

(** A frame the loop processes to its end: the video is live and every
    detected hand has its 21 landmarks. *)
Definition complete (f : Frame) : bool :=
  live f
  && match result f with
     | Some hands => forallb (fun h => 21 <=? length h)%nat hands
     | None => true
     end.

(** [activeStringsRef.current] after the calls [calls] have each stored the
    clock value. *)
Definition marked (clock : float) (calls : list (nat * float))
    (active : list float) : list float :=
  fold_left (fun a call => <[call.1 := clock]> a) calls active.

End Frames.

(** ** The trigger engine with [triggerString] run in place

    In [App] above the calls of [triggerString] are recorded and taken to
    return.  Here the body of [triggerString] runs where the loop calls it,
    on the player the component holds, so that an exception of [playNote]
    leaves the loop, the finger, the hand and the frame as it does in the
    program. *)

Module Wired.

Import JS App.
Local Open Scope float_scope.
Local Open Scope js_scope.

(** The refs of the physics step together with what [triggerString] reads
    and writes. *)
Record World : Type := {
  physics : Physics;
  player : Player
}.

Definition on_physics (f : Physics -> Physics) (w : World) : World :=
  {| physics := f (physics w); player := player w |}.

(** A call that acts on the player only. *)
Definition in_player {A} (m : M Player A) : M World A :=
  fun w => let '(o, p) := m (player w) in
           (o, {| physics := physics w; player := p |}).

Section WithEnvironment.

(** [Math.hypot], and [performance.now()]: [clock k] is the value read by
    the call of [triggerString] that [k] calls precede. *)
Variable hypot : float -> float -> float.
Variable clock : nat -> float.

(** [triggerString(s, now)], called from the loop: the call is recorded,
    then the body runs. *)
Definition triggerString (index : nat) (now : float) : M World unit :=
  w <- read ;;
  modify (on_physics (call_triggerString index now)) ;;;
  in_player
    (App.triggerString (clock (length (triggerStringCalls (physics w)))) index).

(** The body of [for (let s = 0; s < NUM_STRINGS; s++)]. *)
Definition stringStep (lastData : FingerData) (x y now : float) (s : nat)
  : M World unit :=
  let lastX := last_x lastData in
  if crossedLeftToRight lastX x (stringX s)
     || crossedRightToLeft lastX x (stringX s) then
    if gt y 0.1 && (y <? 0.9) then
      w <- read ;;
      if gt (now - debounce_at (physics w) s) debounceTime then
        triggerString s now ;;;
        modify (on_physics (set_stringDebounce s now))
      else ret tt
    else ret tt
  else ret tt.

(** The block [if (lastData) { ... }]. *)
Definition pluck (lastData : FingerData) (x y now : float) : M World unit :=
  if gt (velocity lastData x now) velocityThreshold then
    forEach (fun s _ => stringStep lastData x y now s) (seq 0 NUM_STRINGS) 0
  else ret tt.

(** The callback of [fingers.forEach]. *)
Definition fingerUpdate (landmarks : Hand) (handIndex : nat) (now : float)
    (finger : nat * nat) : M World unit :=
  let '(tip, pip) := finger in
  open <- lift (isFingerOpen hypot landmarks tip pip 0) ;;
  if negb open then
    p <- lift (landmark landmarks tip) ;;
    let rawX := lx p in
    let x := 1.0 - rawX in
    modify (on_physics (set_lastFingerData (fingerId handIndex tip)
                          {| last_x := x; time := now |}))
  else
    p <- lift (landmark landmarks tip) ;;
    let rawX := lx p in
    let x := 1.0 - rawX in
    let y := ly p in
    w <- read ;;
    match lastFingerData (physics w) !! fingerId handIndex tip with
    | Some lastData => pluck lastData x y now
    | None => ret tt
    end ;;;
    modify (on_physics (set_lastFingerData (fingerId handIndex tip)
                          {| last_x := x; time := now |})).

(** The callback of [landmarksArray.forEach]. *)
Definition handUpdate (now : float) (landmarks : Hand) (handIndex : nat)
  : M World unit :=
  forEach (fun finger _ => fingerUpdate landmarks handIndex now finger)
    fingers 0.

(** [processPhysics(landmarksArray, now)] *)
Definition processPhysics (landmarksArray : list Hand) (now : float)
  : M World unit :=
  w <- read ;;
  match audioEngine (player w) with
  | None => ret tt
  | Some _ => forEach (handUpdate now) landmarksArray 0
  end.

(** The state of the frame loop. *)
Record Loop : Type := {
  world : World;
  drawn : nat;
  requested : bool
}.

Definition in_world {A} (m : M World A) : M Loop A :=
  fun l => let '(o, w) := m (world l) in
           (o, {| world := w; drawn := drawn l; requested := requested l |}).

(** [drawFrame], reduced to what can interrupt it once the canvas exists:
    the reads of [drawHand]. *)
Definition drawFrame (handLandmarks : list Hand) : M Loop unit :=
  forEach (fun landmarks _ => lift (drawHand landmarks)) handLandmarks 0 ;;;
  modify (fun l => {| world := world l; drawn := S (drawn l);
                      requested := requested l |}).

Definition requestVideoFrameCallback : M Loop unit :=
  modify (fun l => {| world := world l; drawn := drawn l; requested := true |}).

(** [gameLoop(now, metadata)] *)
Definition gameLoop (f : Frame) : M Loop unit :=
  if negb (live f) then ret tt
  else
    let frameTime :=
      match presentationTime f with
      | Some p => if truthy (VNumber p) then p else frame_now f
      | None => frame_now f
      end in
    match result f with
    | Some landmarks => in_world (processPhysics landmarks frameTime)
    | None => ret tt
    end ;;;
    drawFrame (default [] (result f)) ;;;
    requestVideoFrameCallback.

(** The browser runs the registered callback once per delivered frame; a
    call that ends without registering a callback ends the loop. *)
Fixpoint run (frames : list Frame) (l : Loop) : Loop :=
  match frames with
  | [] => l
  | f :: rest =>
      if requested l then
        run rest
          (snd (gameLoop f {| world := world l; drawn := drawn l;
                              requested := false |}))
      else l
  end.

(** The player after the bodies of the recorded calls [calls] have run in
    order, the first of them preceded by [k] calls. *)
Fixpoint replay (k : nat) (calls : list (nat * float)) (p : Player) : Player :=
  match calls with
  | [] => p
  | call :: rest =>
      replay (S k) rest (snd (App.triggerString (clock k) call.1 p))
  end.

End WithEnvironment.

(** The engine, when it is ready, accepts the note of every string at its
    context time: no call of [triggerString] throws. *)
Definition plays (p : Player) : Prop :=
  forall (e : AudioEngine.Engine) (c : AudioEngine.AudioContext)
         (mg : AudioEngine.AudioParam),
    audioEngine p = Some e ->
    AudioEngine.ctx e = Some c -> AudioEngine.masterGain e = Some mg ->
    forall index : nat,
      Scheduled.accepted (AudioEngine.config e)
        (ToNumber (AudioEngine.noteToFreq (note_of (instrument p) index)))
        (AudioEngine.currentTime c) = true.

(** A program on the world and a program on the physics refs agree: from
    every world whose player plays, the first completes as the second does
    and leaves the physics refs the second leaves, the player that the
    bodies of the calls recorded meanwhile leave, and a player that still
    plays. *)
Definition agrees {A} (clock : nat -> float) (m : M World A)
    (a : M Physics A) : Prop :=
  forall w : World,
    plays (player w) ->
    exists (w' : World) (new : list (nat * float)),
      m w = (fst (a (physics w)), w') /\
      physics w' = snd (a (physics w)) /\
      triggerStringCalls (physics w')
      = triggerStringCalls (physics w) ++ new /\
      player w'
      = replay clock (length (triggerStringCalls (physics w))) new (player w) /\
      plays (player w').

End Wired.

(** ** Worlds and frames used to exercise the wired model *)

Module Scenes.

Import JS.
Local Open Scope float_scope.

(** A clock that reads 5000 ms at the first call of [triggerString] and one
    millisecond more at each further call. *)
Definition clock (k : nat) : float := 5000 + of_nat k.

(** The physics refs [st] with a player of the instrument [instrument]
    whose engine was initialised on a running context at the time 2. *)
Definition world (st : App.Physics) (instrument : Types.InstrumentState)
  : Wired.World :=
  {| Wired.physics := st; Wired.player := Cases.player instrument |}.

Definition loop0 (instrument : Types.InstrumentState) : Wired.Loop :=
  {| Wired.world := world App.initial instrument; Wired.drawn := 0;
     Wired.requested := true |}.

(** A live frame delivered at [now] with the presentation time
    [presentation]. *)
Definition presented (now presentation : float) (hands : list App.Hand)
  : App.Frame :=
  {| App.live := true; App.frame_now := now;
     App.presentationTime := Some presentation; App.result := Some hands |}.

(** A frame delivered while the video is paused. *)
Definition paused (now : float) : App.Frame :=
  {| App.live := false; App.frame_now := now; App.presentationTime := None;
     App.result := None |}.

End Scenes.

(** ** What the scheduled calls render *)

Module Rendering.

Import Reals Qreals AudioEngine.
Local Open Scope R_scope.

(** The real number a finite binary64 value stands for. *)
Definition real (f : float) : R := Q2R (JS.exact f).

Definition eventTime (ev : AutomationEvent) : float :=
  match ev with
  | SetValueAtTime _ t | LinearRampToValueAtTime _ t
  | ExponentialRampToValueAtTime _ t | SetTargetAtTime _ t _ => t
  end.

(** The timeline of a parameter keeps its events in the order of their
    times; a new event goes after the events of the same time. *)
Fixpoint insert (ev : AutomationEvent) (timed : list AutomationEvent)
  : list AutomationEvent :=
  match timed with
  | [] => [ev]
  | first :: rest =>
      if Rlt_dec (real (eventTime ev)) (real (eventTime first))
      then ev :: first :: rest
      else first :: insert ev rest
  end.

Definition timeline (calls : list AutomationEvent) : list AutomationEvent :=
  fold_left (fun timed ev => insert ev timed) calls [].

(** The value of a parameter at the time [u], after the Web Audio
    specification (section 1.6, [AudioParam]): [setValueAtTime] holds its
    value from its time on; a ramp runs from the time [T0] and the value
    [V0] of the event before it to its own end time and value, linearly
    or, for an exponential ramp, as [V0 * (V1 / V0) ^ ((u - T0) / (T1 - T0))],
    holding [V0] when [V0] is zero or of the other sign; after its end time
    a ramp holds its value.  The curves are the real-valued ones of these
    formulas; an implementation renders them in single precision.  The
    approach curve of [setTargetAtTime] is not covered here: a timeline
    that reaches such an event by [u] has no value in this model. *)
Fixpoint value_from (T0 V0 : R) (timed : list AutomationEvent) (u : R)
  : option R :=
  match timed with
  | [] => Some V0
  | ev :: rest =>
      let T1 := real (eventTime ev) in
      if Rlt_dec u T1 then
        match ev with
        | LinearRampToValueAtTime v _ =>
            Some (V0 + (real v - V0) * ((u - T0) / (T1 - T0)))
        | ExponentialRampToValueAtTime v _ =>
            Some (if Rle_dec (V0 * real v) 0 then V0
                  else V0 * Rpower (real v / V0) ((u - T0) / (T1 - T0)))
        | SetValueAtTime _ _ | SetTargetAtTime _ _ _ => Some V0
        end
      else
        match ev with
        | SetValueAtTime v _ | LinearRampToValueAtTime v _
        | ExponentialRampToValueAtTime v _ => value_from T1 (real v) rest u
        | SetTargetAtTime _ _ _ => None
        end
  end.

(** The value at [u] of a parameter created at the time [created] with the
    default [value p]. *)
Definition value_at (created : float) (p : AudioParam) (u : R) : option R :=
  value_from (real created) (real (value p)) (timeline (events p)) u.

End Rendering.

(** ** Facts about binary64 comparisons *)

Module FloatFacts.

Lemma SFcompare_antisym (a b : spec_float) :
  SFcompare b a = option_map CompOpp (SFcompare a b).
Proof.
  destruct a as [[]|[]| |[] ma ea], b as [[]|[]| |[] mb eb]; simpl; try reflexivity;
    rewrite (Z.compare_antisym ea eb);
    destruct (ea ?= eb)%Z; simpl; try reflexivity;
    rewrite !Pos.compare_cont_spec; simpl;
    rewrite (Pos.compare_antisym ma mb);
    destruct (ma ?= mb)%positive; reflexivity.
Qed.

Lemma SFcompare_refl (a : spec_float) :
  SFcompare a a = Some Eq \/ SFcompare a a = None.
Proof.
  destruct a as [[]|[]| |[] m e]; simpl; auto; left;
    rewrite Z.compare_refl, Pos.compare_cont_spec, Pos.compare_refl; reflexivity.
Qed.

(** [a < a] is false for every number, NaN included. *)
Lemma ltb_irrefl (a : float) : PrimFloat.ltb a a = false.
Proof.
  rewrite ltb_spec. unfold SFltb.
  destruct (SFcompare_refl (Prim2SF a)) as [-> | ->]; reflexivity.
Qed.

(** [a <= b] excludes [b < a]. *)
Lemma leb_ltb_false (a b : float) :
  PrimFloat.leb a b = true -> PrimFloat.ltb b a = false.
Proof.
  rewrite leb_spec, ltb_spec. unfold SFleb, SFltb.
  rewrite (SFcompare_antisym (Prim2SF a) (Prim2SF b)).
  destruct (SFcompare (Prim2SF a) (Prim2SF b)) as [[]|]; simpl; congruence.
Qed.

End FloatFacts.

(** ** Stepping through a sequence of calls *)

Module Calls.

Import JS.

Lemma bind_step {St A B} (m : M St A) (k : A -> M St B) s a s1 :
  m s = (Ok a, s1) -> bind m k s = k a s1.
Proof. unfold bind. intros ->. reflexivity. Qed.

Lemma bind_throw {St A B} (m : M St A) (k : A -> M St B) s err s1 :
  m s = (Throw err, s1) -> bind m k s = (Throw err, s1).
Proof. unfold bind. intros ->. reflexivity. Qed.

Lemma bind_lift_ok {St A B} (a : A) (k : A -> M St B) (s : St) :
  bind (lift (Ok a)) k s = k a s.
Proof. reflexivity. Qed.

Lemma bind_lift_throw {St A B} (err : error) (k : A -> M St B) (s : St) :
  bind (lift (Throw err)) k s = (Throw err, s).
Proof. reflexivity. Qed.

Lemma bind_modify {St B} (f : St -> St) (k : unit -> M St B) (s : St) :
  bind (modify f) k s = k tt (f s).
Proof. reflexivity. Qed.

Lemma bind_read {St B} (k : St -> M St B) (s : St) :
  bind read k s = k s s.
Proof. reflexivity. Qed.

End Calls.

(** ** The audio synthesis engine: note lookup, voices, configuration *)

Module AudioEngineFacts.

Import JS AudioEngine.
Local Open Scope float_scope.

(** *** [noteToFreq] *)

Lemma noteTable_NoDup : NoDup (noteTable.*1).
Proof. apply (bool_decide_unpack _). vm_compute. exact I. Qed.

Lemma noteMap_lookup (name : string) (f : float) :
  (name, f) ∈ noteTable -> noteMap !! name = Some f.
Proof.
  intros Hin. unfold noteMap.
  apply elem_of_list_to_map_1; [apply noteTable_NoDup | exact Hin].
Qed.

Lemma noteTable_truthy (name : string) (f : float) :
  (name, f) ∈ noteTable -> truthy (VNumber f) = true.
Proof.
  intros Hin.
  assert (Hall : forallb (fun p => truthy (VNumber p.2)) noteTable = true)
    by (vm_compute; reflexivity).
  rewrite forallb_forall in Hall.
  apply (Hall (name, f)). apply list_elem_of_In, Hin.
Qed.

(** Every entry of the table is returned as it is written. *)
Lemma noteToFreq_table (name : string) (f : float) :
  (name, f) ∈ noteTable -> noteToFreq name = VNumber f.
Proof.
  intros Hin. unfold noteToFreq, JS.or, get.
  rewrite (noteMap_lookup _ _ Hin), (noteTable_truthy _ _ Hin). reflexivity.
Qed.

Lemma noteToFreq_A4 : noteToFreq "A4" = VNumber 440.0.
Proof. vm_compute. reflexivity. Qed.

Lemma noteToFreq_C4 : noteToFreq "C4" = VNumber 261.63.
Proof. vm_compute. reflexivity. Qed.

(** A name that is neither in the table nor inherited from
    [Object.prototype] falls back to 440. *)
Lemma noteToFreq_unknown (name : string) :
  noteMap !! name = None -> name ∉ Object_prototype_keys ->
  noteToFreq name = VNumber 440.
Proof.
  intros Hnone Hnot. unfold noteToFreq, JS.or, get. rewrite Hnone.
  rewrite bool_decide_eq_false_2 by exact Hnot. reflexivity.
Qed.

Lemma noteMap_no_inherited (name : string) :
  name ∈ Object_prototype_keys -> noteMap !! name = None.
Proof.
  unfold Object_prototype_keys. intros Hin.
  repeat (apply elem_of_cons in Hin as [-> | Hin]; [vm_compute; reflexivity |]).
  apply elem_of_nil in Hin. contradiction.
Qed.

(** The names inherited from [Object.prototype] are found by the lookup:
    the inherited member is truthy and is returned in place of 440. *)
Lemma noteToFreq_inherited (name : string) :
  name ∈ Object_prototype_keys -> noteToFreq name = VInherited name.
Proof.
  intros Hin. unfold noteToFreq, JS.or, get.
  rewrite (noteMap_no_inherited _ Hin).
  rewrite bool_decide_eq_true_2 by exact Hin. reflexivity.
Qed.

(** C5, at the name ["toString"]: the name is not in the table, and
    [noteToFreq] returns the function inherited from [Object.prototype]
    where the fallback frequency 440 is expected. *)
Theorem noteToFreq_toString :
  noteMap !! "toString" = None /\
  noteToFreq "toString" = VInherited "toString" /\
  noteToFreq "toString" <> VNumber 440.
Proof.
  split; [vm_compute; reflexivity |].
  split; [vm_compute; reflexivity |].
  vm_compute. discriminate.
Qed.

(** *** The calls of the Web Audio interface *)

Lemma setValueAtTime_spec (p : AudioParam) (v t : float) :
  setValueAtTime p v t =
  if Scheduled.call_ok v t
  then Ok (schedule p (SetValueAtTime v t))
  else Throw (if is_float v && is_double t then RangeError else TypeError).
Proof.
  unfold setValueAtTime, Scheduled.call_ok, Scheduled.is_time, to_float,
    to_double, check_time.
  destruct (is_float v), (is_double t); cbn [and_then andb]; try reflexivity.
  destruct (t <? 0); reflexivity.
Qed.

Lemma linearRampToValueAtTime_spec (p : AudioParam) (v t : float) :
  linearRampToValueAtTime p v t =
  if Scheduled.call_ok v t
  then Ok (schedule p (LinearRampToValueAtTime v t))
  else Throw (if is_float v && is_double t then RangeError else TypeError).
Proof.
  unfold linearRampToValueAtTime, Scheduled.call_ok, Scheduled.is_time,
    to_float, to_double, check_time.
  destruct (is_float v), (is_double t); cbn [and_then andb]; try reflexivity.
  destruct (t <? 0); reflexivity.
Qed.

Lemma exponentialRampToValueAtTime_spec (p : AudioParam) (v t : float) :
  exponentialRampToValueAtTime p v t =
  if Scheduled.ramp_ok v t
  then Ok (schedule p (ExponentialRampToValueAtTime v t))
  else Throw (if is_float v && is_double t then RangeError else TypeError).
Proof.
  unfold exponentialRampToValueAtTime, Scheduled.ramp_ok, to_float, to_double,
    check_time.
  destruct (is_float v), (is_double t); cbn [and_then andb]; try reflexivity.
  destruct (is_zero v); cbn [and_then andb negb]; try reflexivity.
  destruct (t <? 0); reflexivity.
Qed.

Lemma start_spec (v : Voice) (t : float) :
  osc_start v = None ->
  start v t =
  if Scheduled.is_time t then Ok (started t v)
  else Throw (if is_double t then RangeError else TypeError).
Proof.
  intros Hn. unfold start, Scheduled.is_time, to_double, check_time.
  rewrite Hn. destruct (is_double t); cbn [and_then andb]; try reflexivity.
  destruct (t <? 0); reflexivity.
Qed.

Lemma stop_spec (v : Voice) (t t0 : float) :
  osc_start v = Some t0 ->
  stop v t =
  if Scheduled.is_time t then Ok (stopped t v)
  else Throw (if is_double t then RangeError else TypeError).
Proof.
  intros Hn. unfold stop, Scheduled.is_time, to_double, check_time.
  rewrite Hn. destruct (is_double t); cbn [and_then andb]; try reflexivity.
  destruct (t <? 0); reflexivity.
Qed.

(** *** [playNote] *)

(** Where [playNote] finds no context or no master gain it returns at once
    and leaves the engine as it was. *)
Lemma playNote_not_ready (note : string) (e : Engine) :
  ctx e = None \/ masterGain e = None -> playNote note e = (Ok tt, e).
Proof.
  intros H. unfold playNote, bind, read.
  destruct H as [-> | ->]; [reflexivity | destruct (ctx e); reflexivity].
Qed.

Lemma playNote_resume (c : AudioContext) (e : Engine) :
  match state c with
  | Suspended => modify request_resume
  | _ => ret tt
  end e = (Ok tt, Scheduled.resumed c e).
Proof. unfold Scheduled.resumed. destruct (state c); reflexivity. Qed.

Lemma voices_resumed (c : AudioContext) (e : Engine) :
  voices (Scheduled.resumed c e) = voices e.
Proof. unfold Scheduled.resumed. destruct (state c); reflexivity. Qed.

Ltac call Hr b :=
  destruct b eqn:?; cbv iota in Hr;
  [ rewrite Calls.bind_lift_ok in Hr; cbv beta in Hr
  | rewrite Calls.bind_lift_throw in Hr; right; split; [reflexivity | eauto] ].

Lemma detune_call (cfg : SynthConfig) (t : float) :
  match detune_set cfg with
  | Some d => setValueAtTime (param 0) d t
  | None => Ok (param 0)
  end =
  if match detune_set cfg with
     | Some d => Scheduled.call_ok d t
     | None => true
     end
  then Ok match detune_set cfg with
          | Some d => schedule (param 0) (SetValueAtTime d t)
          | None => param 0
          end
  else Throw match detune_set cfg with
             | Some d => if is_float d && is_double t
                         then RangeError else TypeError
             | None => TypeError
             end.
Proof.
  destruct (detune_set cfg) as [d|]; [| reflexivity].
  rewrite setValueAtTime_spec. destruct (Scheduled.call_ok d t); reflexivity.
Qed.

Lemma attack_call (cfg : SynthConfig) (g0 : AudioParam) (t : float) :
  (if attack cfg <? 0.005
   then setValueAtTime g0 (gain cfg) t
   else linearRampToValueAtTime g0 (gain cfg) (t + attack cfg)) =
  if (if attack cfg <? 0.005
      then Scheduled.call_ok (gain cfg) t
      else Scheduled.call_ok (gain cfg) (t + attack cfg))
  then Ok (schedule g0
             (if attack cfg <? 0.005
              then SetValueAtTime (gain cfg) t
              else LinearRampToValueAtTime (gain cfg) (t + attack cfg)))
  else Throw (if attack cfg <? 0.005
              then if is_float (gain cfg) && is_double t
                   then RangeError else TypeError
              else if is_float (gain cfg) && is_double (t + attack cfg)
                   then RangeError else TypeError).
Proof.
  destruct (attack cfg <? 0.005).
  - rewrite setValueAtTime_spec. destruct (Scheduled.call_ok _ _); reflexivity.
  - rewrite linearRampToValueAtTime_spec.
    destruct (Scheduled.call_ok _ _); reflexivity.
Qed.

(** [playNote] on a ready engine: it returns normally, leaving
    [Scheduled.played], when every check passes, and throws otherwise. *)
Lemma playNote_run (note : string) (e : Engine) (c : AudioContext)
    (mg : AudioParam) :
  ctx e = Some c -> masterGain e = Some mg ->
  let ok := Scheduled.accepted (config e) (ToNumber (noteToFreq note))
              (currentTime c) in
  (ok = true /\ playNote note e = (Ok tt, Scheduled.played note c e)) \/
  (ok = false /\ exists err s, playNote note e = (Throw err, s)).
Proof.
  intros Hc Hm. cbv zeta.
  remember (playNote note e) as r eqn:Hr.
  unfold Scheduled.played, Scheduled.accepted. unfold playNote in Hr.
  remember (ToNumber (noteToFreq note)) as freq eqn:Hfreq. clear Hfreq.
  cbv zeta in Hr. unfold bind at 1, read in Hr. rewrite Hc, Hm in Hr.
  rewrite (Calls.bind_step _ _ _ _ _ (playNote_resume c e)) in Hr.
  rewrite setValueAtTime_spec in Hr.
  call Hr (Scheduled.call_ok freq (currentTime c)).
  rewrite detune_call in Hr.
  call Hr (match detune_set (config e) with
           | Some d => Scheduled.call_ok d (currentTime c)
           | None => true
           end).
  rewrite setValueAtTime_spec in Hr.
  call Hr (Scheduled.call_ok (filterFreq (config e)) (currentTime c)).
  assert (Hq : set_value (param 1) 5 = Ok {| value := 5; events := [] |})
    by reflexivity.
  rewrite Hq in Hr; clear Hq. rewrite Calls.bind_lift_ok in Hr; cbv beta in Hr.
  rewrite setValueAtTime_spec in Hr.
  call Hr (Scheduled.call_ok 0 (currentTime c)).
  rewrite attack_call in Hr.
  call Hr (if attack (config e) <? 0.005
           then Scheduled.call_ok (gain (config e)) (currentTime c)
           else Scheduled.call_ok (gain (config e))
                  (currentTime c + attack (config e))).
  rewrite exponentialRampToValueAtTime_spec in Hr.
  call Hr (Scheduled.ramp_ok (gain (config e) * sustain (config e) + 0.001)
             (currentTime c + attack (config e) + decay (config e))).
  rewrite exponentialRampToValueAtTime_spec in Hr.
  call Hr (Scheduled.ramp_ok 0.0001
             (currentTime c + attack (config e) + decay (config e)
              + release (config e))).
  rewrite Calls.bind_modify in Hr; cbv beta in Hr.
  rewrite start_spec in Hr by reflexivity.
  call Hr (Scheduled.is_time (currentTime c)).
  rewrite Calls.bind_modify in Hr; cbv beta in Hr.
  rewrite (stop_spec _ _ (currentTime c)) in Hr by reflexivity.
  call Hr (Scheduled.is_time
             (currentTime c + attack (config e) + decay (config e)
              + release (config e) + 0.1)).
  left. split; [reflexivity |]. subst r.
  unfold modify, replace_last, set_voices.
  cbn [ctx masterGain compressor delayNode delayGain config feedback
       connections voices resumeRequests].
  rewrite !removelast_last, voices_resumed.
  reflexivity.
Qed.

(** A call of [playNote] that returns normally on a ready engine has added
    exactly one voice, the one described by [Scheduled.voice]. *)
Lemma playNote_inv (note : string) (e e' : Engine) (c : AudioContext)
    (mg : AudioParam) :
  ctx e = Some c -> masterGain e = Some mg ->
  playNote note e = (Ok tt, e') ->
  e' = Scheduled.played note c e /\
  Scheduled.accepted (config e) (ToNumber (noteToFreq note)) (currentTime c)
  = true.
Proof.
  intros Hc Hm H.
  destruct (playNote_run note e c mg Hc Hm) as [[Hok Hrun] | [_ (err & s & Hrun)]];
    rewrite Hrun in H; [injection H as <-; auto | discriminate].
Qed.

Lemma playNote_accepted (note : string) (e : Engine) (c : AudioContext)
    (mg : AudioParam) :
  ctx e = Some c -> masterGain e = Some mg ->
  Scheduled.accepted (config e) (ToNumber (noteToFreq note)) (currentTime c)
  = true ->
  playNote note e = (Ok tt, Scheduled.played note c e).
Proof.
  intros Hc Hm Hok.
  destruct (playNote_run note e c mg Hc Hm) as [[_ Hrun] | [Hno _]];
    [exact Hrun | cbv zeta in Hno; congruence].
Qed.



(** Every frequency of the table, and the fallback, is a valid [float]
    argument, so a note name decides the outcome of [playNote] only by
    being, or not being, a name inherited from [Object.prototype]. *)
Lemma noteToFreq_is_float (note : string) :
  note ∉ Object_prototype_keys ->
  is_float (ToNumber (noteToFreq note)) = true.
Proof.
  intros Hnot. destruct (noteMap !! note) as [f|] eqn:Hlook.
  - assert (Hin : (note, f) ∈ noteTable)
      by (apply elem_of_list_to_map_2; exact Hlook).
    rewrite (noteToFreq_table _ _ Hin). cbn [ToNumber].
    assert (Hall : forallb (fun p => is_float p.2) noteTable = true)
      by (vm_compute; reflexivity).
    rewrite forallb_forall in Hall.
    apply (Hall (note, f)). apply list_elem_of_In, Hin.
  - rewrite (noteToFreq_unknown _ Hlook Hnot). reflexivity.
Qed.

(** For the names inherited from [Object.prototype] the frequency argument
    is not a number, and the first scheduling call of a ready engine
    throws a TypeError. *)
Lemma playNote_inherited_throws (note : string) (e : Engine)
    (c : AudioContext) (mg : AudioParam) :
  note ∈ Object_prototype_keys ->
  ctx e = Some c -> masterGain e = Some mg ->
  playNote note e = (Throw TypeError, Scheduled.resumed c e).
Proof.
  intros Hin Hc Hm. unfold playNote. unfold bind at 1, read.
  rewrite Hc, Hm.
  rewrite (Calls.bind_step _ _ _ _ _ (playNote_resume c e)).
  rewrite (noteToFreq_inherited _ Hin). cbn [ToNumber].
  rewrite setValueAtTime_spec.
  replace (Scheduled.call_ok nan (currentTime c)) with false by reflexivity.
  replace (is_float nan && is_double (currentTime c)) with false by reflexivity.
  cbv iota. apply Calls.bind_lift_throw.
Qed.

(** For every other name the note decides nothing about the outcome: the
    call returns normally for one such name exactly when it does for any
    other. *)
Lemma playNote_note_irrelevant (note1 note2 : string) (e : Engine)
    (c : AudioContext) (mg : AudioParam) :
  ctx e = Some c -> masterGain e = Some mg ->
  note1 ∉ Object_prototype_keys -> note2 ∉ Object_prototype_keys ->
  fst (playNote note1 e) = Ok tt <-> fst (playNote note2 e) = Ok tt.
Proof.
  intros Hc Hm Hn1 Hn2.
  assert (Hacc : forall note, note ∉ Object_prototype_keys ->
            Scheduled.accepted (config e) (ToNumber (noteToFreq note))
              (currentTime c)
            = Scheduled.accepted (config e) 440 (currentTime c)).
  { intros note Hn. unfold Scheduled.accepted, Scheduled.call_ok.
    rewrite (noteToFreq_is_float _ Hn). reflexivity. }
  destruct (playNote_run note1 e c mg Hc Hm) as [[Ha1 ->] | [Ha1 (? & ? & ->)]];
    destruct (playNote_run note2 e c mg Hc Hm) as [[Ha2 ->] | [Ha2 (? & ? & ->)]];
    cbv zeta in Ha1, Ha2; rewrite (Hacc _ Hn1) in Ha1; rewrite (Hacc _ Hn2) in Ha2;
    cbn [fst]; split; intros H; congruence.
Qed.

(** The default configuration has an attack of exactly 0.005: a ramp. *)
Example playNote_default_ramp :
  exists v : Voice,
    voices (snd (playNote "A4" (Examples.engine_at 2))) = [v] /\
    osc_frequency v = schedule (param 440) (SetValueAtTime 440 2) /\
    events (voice_gain v) =
    [ SetValueAtTime 0 2;
      LinearRampToValueAtTime 0.3 (2 + 0.005);
      ExponentialRampToValueAtTime (0.3 * 0.3 + 0.001) (2 + 0.005 + 0.1);
      ExponentialRampToValueAtTime 0.0001 (2 + 0.005 + 0.1 + 1.5) ].
Proof. eexists. vm_compute. repeat split; reflexivity. Qed.

(** C7, at the name ["toString"] on an engine built by [init]: the call
    throws a TypeError to its caller. Before [init] the same call returns
    normally and leaves the engine unchanged. *)
Theorem playNote_toString_throws :
  fst (playNote "toString" (Examples.engine_at 0)) = Throw TypeError /\
  playNote "toString" (new Types.DEFAULT_CONFIG)
  = (Ok tt, new Types.DEFAULT_CONFIG).
Proof. split; vm_compute; reflexivity. Qed.

(** *** [updateConfig] *)

(** Every level in the documented range of the delay mix, 0 to 1, is a
    valid [float] argument. *)
Lemma unit_interval_is_float (d : float) :
  (0 <=? d) = true -> (d <=? 1) = true -> is_float d = true.
Proof.
  unfold is_float, is_finite, is_nan, is_infinity.
  rewrite !FloatAxioms.leb_spec, !FloatAxioms.eqb_spec, FloatAxioms.ltb_spec,
    FloatAxioms.abs_spec.
  replace (Prim2SF 0) with (S754_zero false) by reflexivity.
  replace (Prim2SF 1) with (S754_finite false 4503599627370496 (-52))
    by reflexivity.
  replace (Prim2SF infinity) with (S754_infinity false) by reflexivity.
  replace (Prim2SF float32_overflow)
    with (S754_finite false 9007198986305536 75) by reflexivity.
  destruct (Prim2SF d) as [[]|[]| |[] m e]; try discriminate; try reflexivity.
  intros _. unfold SFleb, SFeqb, SFltb, SFabs, SFcompare.
  rewrite Z.compare_refl, Pos.compare_cont_spec, Pos.compare_refl.
  destruct (Z.compare_spec e (-52)) as [-> | Hlt | Hgt]; try discriminate.
  - intros _. reflexivity.
  - intros _. assert (He : (e ?= 75)%Z = Lt) by (apply Z.compare_lt_iff; lia).
    rewrite He. reflexivity.
Qed.

(** C9: on an engine whose graph exists, [updateConfig] with a
    configuration whose delay mix is a valid [float] returns normally; the
    stored configuration is the new one; the delay-mix gain has one more
    automation call, towards the new delay mix with the time constant 0.1;
    the master gain, the compressor, the delay time, the feedback gain, the
    connections and the voices already in the graph are what they were; and
    a later [playNote] that returns normally adds a voice built from the
    new configuration. *)
Theorem updateConfig_frame (newConfig : SynthConfig) (e : Engine)
    (c : AudioContext) (mg dg : AudioParam) :
  ctx e = Some c -> masterGain e = Some mg -> delayGain e = Some dg ->
  is_float (delayMix newConfig) = true ->
  Scheduled.is_time (currentTime c) = true ->
  exists e' : Engine,
    updateConfig newConfig e = (Ok tt, e') /\
    config e' = newConfig /\
    delayGain e' =
      Some (schedule dg (SetTargetAtTime (delayMix newConfig) (currentTime c) 0.1)) /\
    ctx e' = ctx e /\
    masterGain e' = masterGain e /\
    compressor e' = compressor e /\
    delayNode e' = delayNode e /\
    feedback e' = feedback e /\
    connections e' = connections e /\
    voices e' = voices e /\
    forall (note : string) (e'' : Engine),
      playNote note e' = (Ok tt, e'') ->
      voices e'' =
      voices e ++
        [Scheduled.voice newConfig (ToNumber (noteToFreq note)) (currentTime c)].
Proof.
  intros Hc Hm Hd Hmix Ht.
  exists (set_delayGain
            (Some (schedule dg
                     (SetTargetAtTime (delayMix newConfig) (currentTime c) 0.1)))
            (set_config newConfig e)).
  split.
  - unfold updateConfig. rewrite Calls.bind_modify. cbv beta.
    unfold bind at 1, read.
    cbn [delayGain ctx set_config]. rewrite Hd, Hc.
    unfold setTargetAtTime, to_float, to_double, check_time.
    unfold Scheduled.is_time in Ht. apply andb_prop in Ht as [Hdbl Hneg].
    apply negb_true_iff in Hneg.
    rewrite Hmix, Hdbl. cbn [and_then].
    replace (is_float 0.1) with true by reflexivity. cbn [and_then].
    rewrite Hneg.
    replace (0.1 <? 0) with false by reflexivity. cbn [and_then].
    rewrite Calls.bind_lift_ok. reflexivity.
  - repeat (split; [reflexivity |]).
    intros note e'' Hrun.
    apply (playNote_inv _ _ _ c mg) in Hrun as [-> _];
      [| exact Hc | exact Hm].
    unfold Scheduled.played, set_voices. cbn [voices]. reflexivity.
Qed.

Lemma updateConfig_frame_witness :
  exists e' : Engine,
    updateConfig Examples.arcade_config (Examples.engine_at 2) = (Ok tt, e') /\
    config e' = Examples.arcade_config /\
    delayGain e' =
      Some {| value := 0.3; events := [SetTargetAtTime 0.0 2 0.1] |} /\
    voices e' = [].
Proof.
  edestruct (updateConfig_frame Examples.arcade_config (Examples.engine_at 2))
    as (e' & Hrun & Hcfg & Hdg & _ & _ & _ & _ & _ & _ & Hv & _).
  - vm_compute. reflexivity.
  - vm_compute. reflexivity.
  - vm_compute. reflexivity.
  - vm_compute. reflexivity.
  - vm_compute. reflexivity.
  - exists e'. repeat split; assumption.
Defined.

(** Before [init] there is no graph: only the stored configuration is
    replaced, and [init] later reads the delay mix from it. *)
Lemma updateConfig_before_init (newConfig : SynthConfig) (e : Engine) :
  ctx e = None \/ delayGain e = None ->
  updateConfig newConfig e = (Ok tt, set_config newConfig e).
Proof.
  intros H. unfold updateConfig. rewrite Calls.bind_modify. cbv beta.
  unfold bind at 1, read. cbn [delayGain ctx set_config].
  destruct H as [-> | ->]; [destruct (delayGain e) |]; reflexivity.
Qed.

End AudioEngineFacts.

(** ** The gesture trigger engine: crossings, debounce, tracking *)

Module AppFacts.

Import JS App Triggers.
Local Open Scope float_scope.

(** *** The loop over the strings *)

(** A subtraction from [undefined] is NaN, and NaN exceeds nothing. *)
Lemma gt_sub_nan (now limit : float) : gt (now - nan) limit = false.
Proof.
  unfold gt. rewrite ltb_spec, sub_spec.
  replace (Prim2SF nan) with S754_nan by reflexivity.
  replace (SF64sub (Prim2SF now) S754_nan) with S754_nan
    by (destruct (Prim2SF now) as [[]|[]| |[] m e]; reflexivity).
  unfold SFltb. destruct (Prim2SF limit) as [[]|[]| |[] m e]; reflexivity.
Qed.

(** The program writes [stringDebounceRef.current[s]] only inside the
    array. *)
Lemma fires_in_range (lastData : FingerData) (x y now : float)
    (st : Physics) (s : nat) :
  fires lastData x y now st s = true ->
  (s < length (stringDebounce st))%nat.
Proof.
  unfold fires, debounce_at. intros H.
  apply andb_prop in H as [_ H].
  destruct (stringDebounce st !! s) as [d|] eqn:Hlook.
  - apply lookup_lt_Some in Hlook. exact Hlook.
  - cbn [default] in H. rewrite gt_sub_nan in H. discriminate.
Qed.

Lemma stringStep_fires (lastData : FingerData) (x y now : float)
    (st : Physics) (s : nat) :
  stringStep lastData x y now st s =
  if fires lastData x y now st s
  then set_stringDebounce s now (call_triggerString s now st)
  else st.
Proof.
  unfold stringStep, fires.
  destruct (crossedLeftToRight _ _ _ || crossedRightToLeft _ _ _);
    [| reflexivity].
  destruct (gt y 0.1 && (y <? 0.9)); [| reflexivity].
  destruct (gt (now - debounce_at st s) debounceTime); reflexivity.
Qed.

(** The decision for a string reads the state only at that string's own
    debounce entry. *)
Lemma fires_local (lastData : FingerData) (x y now : float)
    (st st' : Physics) (s : nat) :
  stringDebounce st' !! s = stringDebounce st !! s ->
  fires lastData x y now st' s = fires lastData x y now st s.
Proof. unfold fires, debounce_at. intros ->. reflexivity. Qed.

Lemma stringStep_other (lastData : FingerData) (x y now : float)
    (st : Physics) (s s' : nat) :
  s <> s' ->
  stringDebounce (stringStep lastData x y now st s) !! s'
  = stringDebounce st !! s'.
Proof.
  intros Hne. rewrite stringStep_fires.
  destruct (fires lastData x y now st s); [| reflexivity].
  cbn [stringDebounce set_stringDebounce call_triggerString].
  apply list_lookup_insert_ne. exact Hne.
Qed.

Lemma stringStep_self (lastData : FingerData) (x y now : float)
    (st : Physics) (s : nat) :
  stringDebounce (stringStep lastData x y now st s) !! s
  = if fires lastData x y now st s then Some now
    else stringDebounce st !! s.
Proof.
  rewrite stringStep_fires.
  destruct (fires lastData x y now st s) eqn:Hf; [| reflexivity].
  cbn [stringDebounce set_stringDebounce call_triggerString].
  apply list_lookup_insert_eq. apply (fires_in_range _ _ _ _ _ _ Hf).
Qed.

Lemma stringStep_calls (lastData : FingerData) (x y now : float)
    (st : Physics) (s : nat) :
  triggerStringCalls (stringStep lastData x y now st s)
  = triggerStringCalls st
    ++ (if fires lastData x y now st s then [(s, now)] else []).
Proof.
  rewrite stringStep_fires.
  destruct (fires lastData x y now st s);
    [reflexivity | symmetry; apply app_nil_r].
Qed.

Lemma stringStep_lastFingerData (lastData : FingerData) (x y now : float)
    (st : Physics) (s : nat) :
  lastFingerData (stringStep lastData x y now st s) = lastFingerData st.
Proof.
  rewrite stringStep_fires. destruct (fires lastData x y now st s); reflexivity.
Qed.

Section Loop.

Variables (lastData : FingerData) (x y now : float).

Local Abbreviation loop := (fold_left (stringStep lastData x y now)).

Lemma loop_lastFingerData (l : list nat) (st : Physics) :
  lastFingerData (loop l st) = lastFingerData st.
Proof.
  revert st. induction l as [|s l IH]; intros st; [reflexivity |].
  cbn [fold_left]. rewrite IH.
  apply stringStep_lastFingerData.
Qed.

(** Each string of the loop is decided on the state the loop started
    from: an earlier string of the same loop changes nothing for it. *)
Lemma loop_calls (l : list nat) (st : Physics) :
  NoDup l ->
  triggerStringCalls (loop l st)
  = triggerStringCalls st
    ++ map (fun s => (s, now)) (List.filter (fires lastData x y now st) l).
Proof.
  revert st. induction l as [|s l IH]; intros st Hnd.
  - symmetry. apply app_nil_r.
  - apply NoDup_cons in Hnd as [Hnotin Hnd].
    cbn [fold_left List.filter].
    rewrite (IH _ Hnd), stringStep_calls, <- app_assoc. f_equal.
    rewrite (List.filter_ext_in (fires lastData x y now
                                   (stringStep lastData x y now st s))
                                (fires lastData x y now st)).
    + destruct (fires lastData x y now st s); reflexivity.
    + intros s' Hin. apply fires_local, stringStep_other.
      intros ->. apply Hnotin, list_elem_of_In, Hin.
Qed.

Lemma loop_debounce (l : list nat) (st : Physics) (s : nat) :
  NoDup l ->
  stringDebounce (loop l st) !! s
  = if bool_decide (s ∈ l) && fires lastData x y now st s then Some now
    else stringDebounce st !! s.
Proof.
  revert st. induction l as [|a l IH]; intros st Hnd; [reflexivity |].
  apply NoDup_cons in Hnd as [Hnotin Hnd].
  cbn [fold_left]. rewrite (IH _ Hnd).
  destruct (decide (s = a)) as [-> | Hne].
  - rewrite (bool_decide_eq_false_2 (a ∈ l)) by exact Hnotin.
    rewrite (bool_decide_eq_true_2 (a ∈ a :: l)) by (apply elem_of_cons; auto).
    cbn [andb]. apply stringStep_self.
  - rewrite (fires_local _ _ _ _ st) by (apply stringStep_other; congruence).
    rewrite stringStep_other by congruence.
    replace (bool_decide (s ∈ a :: l)) with (bool_decide (s ∈ l));
      [reflexivity |].
    apply bool_decide_ext. rewrite elem_of_cons. tauto.
Qed.

(** A loop that called [triggerString] for no string changed nothing. *)
Lemma loop_silent (l : list nat) (st : Physics) :
  (length (triggerStringCalls st) <= length (triggerStringCalls (loop l st)))%nat /\
  (length (triggerStringCalls (loop l st)) = length (triggerStringCalls st) ->
   loop l st = st).
Proof.
  revert st. induction l as [|s l IH]; intros st; [auto |].
  cbn [fold_left].
  destruct (IH (stringStep lastData x y now st s)) as [Hle Heq].
  assert (Hstep := stringStep_calls lastData x y now st s).
  rewrite stringStep_fires in *.
  destruct (fires lastData x y now st s).
  - rewrite Hstep, length_app in Hle. cbn [length] in Hle.
    split; [lia | intros Hlen; lia].
  - split; [exact Hle | exact Heq].
Qed.

End Loop.

(** *** The update of one finger *)

Lemma pluck_lastFingerData (lastData : FingerData) (x y now : float)
    (st : Physics) :
  lastFingerData (pluck lastData x y now st) = lastFingerData st.
Proof.
  unfold pluck. destruct (gt _ _); [apply loop_lastFingerData | reflexivity].
Qed.

(** Above the velocity threshold the calls of [triggerString] are those for
    the strings of [fired], in loop order, all at the time [now]. *)
Lemma pluck_calls (lastData : FingerData) (x y now : float) (st : Physics) :
  triggerStringCalls (pluck lastData x y now st)
  = triggerStringCalls st
    ++ if gt (velocity lastData x now) velocityThreshold
       then map (fun s => (s, now)) (fired lastData x y now st)
       else [].
Proof.
  unfold pluck, fired. destruct (gt _ _).
  - apply loop_calls, NoDup_seq.
  - symmetry. apply app_nil_r.
Qed.

Lemma pluck_debounce (lastData : FingerData) (x y now : float) (st : Physics)
    (s : nat) :
  stringDebounce (pluck lastData x y now st) !! s
  = if gt (velocity lastData x now) velocityThreshold
       && bool_decide (s < NUM_STRINGS)%nat
       && fires lastData x y now st s
    then Some now
    else stringDebounce st !! s.
Proof.
  unfold pluck. destruct (gt _ _); [| reflexivity].
  rewrite loop_debounce by apply NoDup_seq. cbn [andb].
  replace (bool_decide (s ∈ seq 0 NUM_STRINGS))
    with (bool_decide (s < NUM_STRINGS)%nat); [reflexivity |].
  apply bool_decide_ext. rewrite elem_of_seq. lia.
Qed.

Lemma pluck_silent (lastData : FingerData) (x y now : float) (st : Physics) :
  triggerStringCalls (pluck lastData x y now st) = triggerStringCalls st ->
  pluck lastData x y now st = st.
Proof.
  unfold pluck. destruct (gt _ _); [| reflexivity].
  intros Heq. apply loop_silent. rewrite Heq. reflexivity.
Qed.

Lemma elem_of_fired (lastData : FingerData) (x y now : float) (st : Physics)
    (s : nat) :
  s ∈ fired lastData x y now st <->
  (s < NUM_STRINGS)%nat /\ fires lastData x y now st s = true.
Proof.
  unfold fired. rewrite list_elem_of_In, List.filter_In, <- list_elem_of_In.
  rewrite elem_of_seq. intuition lia.
Qed.

Lemma elem_of_calls (now t : float) (l : list nat) (s : nat) :
  (s, t) ∈ map (fun s => (s, now)) l <-> s ∈ l /\ t = now.
Proof.
  rewrite !list_elem_of_In, List.in_map_iff. split.
  - intros (s' & [= -> ->] & Hin). auto.
  - intros [Hin ->]. eauto.
Qed.

(** The three conditions of the loop body, spelled out. *)
Lemma fires_iff (lastData : FingerData) (x y now : float) (st : Physics)
    (s : nat) :
  fires lastData x y now st s = true <->
  (((last_x lastData <? stringX s) = true /\ (stringX s <=? x) = true) \/
   ((stringX s <? last_x lastData) = true /\ (x <=? stringX s) = true)) /\
  ((0.1 <? y) = true /\ (y <? 0.9) = true) /\
  (debounceTime <? now - debounce_at st s) = true.
Proof.
  unfold fires, crossedLeftToRight, crossedRightToLeft, gt, ge.
  rewrite !andb_true_iff, orb_true_iff, !andb_true_iff. tauto.
Qed.

Section Fingers.

Variable hypot : float -> float -> float.

Lemma isFingerOpen_landmark (landmarks : Hand) (tip pip : nat) (b : bool) :
  isFingerOpen hypot landmarks tip pip 0 = Ok b ->
  exists p, landmarks !! tip = Some p.
Proof.
  unfold isFingerOpen.
  destruct (landmarks !! 0%nat), (landmarks !! pip), (landmarks !! tip);
    try discriminate; eauto.
Qed.

(** A finger classified CLOSED: the entry of the finger is overwritten and
    nothing else happens. *)
Lemma fingerUpdate_closed (landmarks : Hand) (handIndex : nat) (now : float)
    (tip pip : nat) (p : Landmark) (st : Physics) :
  isFingerOpen hypot landmarks tip pip 0 = Ok false ->
  landmarks !! tip = Some p ->
  fingerUpdate hypot landmarks handIndex now (tip, pip) st
  = (Ok tt, set_lastFingerData (fingerId handIndex tip) (tracked p now) st).
Proof.
  intros Hopen Hp. unfold fingerUpdate. rewrite Hopen.
  rewrite Calls.bind_lift_ok. cbn [negb]. unfold landmark. rewrite Hp.
  rewrite Calls.bind_lift_ok. reflexivity.
Qed.

(** A finger classified OPEN: the trigger evaluation against the stored
    entry, when there is one, then the same overwrite. *)
Lemma fingerUpdate_open (landmarks : Hand) (handIndex : nat) (now : float)
    (tip pip : nat) (p : Landmark) (st : Physics) :
  isFingerOpen hypot landmarks tip pip 0 = Ok true ->
  landmarks !! tip = Some p ->
  fingerUpdate hypot landmarks handIndex now (tip, pip) st
  = (Ok tt,
     set_lastFingerData (fingerId handIndex tip) (tracked p now)
       match lastFingerData st !! fingerId handIndex tip with
       | Some lastData => pluck lastData (1.0 - lx p) (ly p) now st
       | None => st
       end).
Proof.
  intros Hopen Hp. unfold fingerUpdate. rewrite Hopen.
  rewrite Calls.bind_lift_ok. cbn [negb]. unfold landmark. rewrite Hp.
  rewrite Calls.bind_lift_ok, Calls.bind_read.
  destruct (lastFingerData st !! fingerId handIndex tip) as [lastData|];
    reflexivity.
Qed.

(** A missing landmark: the exception leaves the state untouched. *)
Lemma fingerUpdate_throws (landmarks : Hand) (handIndex : nat) (now : float)
    (tip pip : nat) (err : error) (st : Physics) :
  isFingerOpen hypot landmarks tip pip 0 = Throw err ->
  fingerUpdate hypot landmarks handIndex now (tip, pip) st = (Throw err, st).
Proof.
  intros Hopen. unfold fingerUpdate. rewrite Hopen.
  apply Calls.bind_lift_throw.
Qed.

End Fingers.

(** *** Open fingers, closed fingers, fingers resting on a string *)

Section Claims.

Variable hypot : float -> float -> float.

(** C8: in an update of a finger classified CLOSED the update returns
    normally, [triggerString] is not called and no debounce entry changes,
    whatever the position and the stored entry of the finger; the entry of
    the finger becomes the mirrored [x] of its tip and [now].  The state it
    leaves is the state left by any update of the same finger, classified
    OPEN with its tip at the same [x], that called [triggerString] for no
    string. *)
Theorem closed_finger (landmarks : Hand) (handIndex : nat) (now : float)
    (tip pip : nat) (p : Landmark) (st : Physics) :
  isFingerOpen hypot landmarks tip pip 0 = Ok false ->
  landmarks !! tip = Some p ->
  exists st' : Physics,
    fingerUpdate hypot landmarks handIndex now (tip, pip) st = (Ok tt, st') /\
    triggerStringCalls st' = triggerStringCalls st /\
    stringDebounce st' = stringDebounce st /\
    lastFingerData st'
    = <[fingerId handIndex tip := {| last_x := 1.0 - lx p; time := now |}]>
        (lastFingerData st) /\
    forall (hypot2 : float -> float -> float) (landmarks2 : Hand) (pip2 : nat)
           (p2 : Landmark) (st2 : Physics),
      isFingerOpen hypot2 landmarks2 tip pip2 0 = Ok true ->
      landmarks2 !! tip = Some p2 ->
      lx p2 = lx p ->
      fingerUpdate hypot2 landmarks2 handIndex now (tip, pip2) st = (Ok tt, st2) ->
      triggerStringCalls st2 = triggerStringCalls st ->
      st2 = st'.
Proof.
  intros Hclosed Hp. eexists.
  split; [apply (fingerUpdate_closed _ _ _ _ _ _ _ _ Hclosed Hp) |].
  repeat (split; [reflexivity |]).
  intros hypot2 landmarks2 pip2 p2 st2 Hopen Hp2 Hx Hrun Hcalls.
  rewrite (fingerUpdate_open _ _ _ _ _ _ _ _ Hopen Hp2) in Hrun.
  injection Hrun as <-. unfold tracked. rewrite Hx.
  destruct (lastFingerData st !! fingerId handIndex tip) as [lastData|];
    [| reflexivity].
  cbn [triggerStringCalls set_lastFingerData] in Hcalls.
  rewrite Hx in Hcalls. rewrite (pluck_silent _ _ _ _ _ Hcalls). reflexivity.
Qed.

(** C10: when the entry stored for a finger has its [x] exactly on the
    string [s], no update of that finger calls [triggerString] for [s],
    whatever the landmarks, the time and the outcome of the update: both
    crossing tests compare the stored [x] strictly with the string. *)
Theorem resting_on_string (landmarks : Hand) (handIndex : nat) (now : float)
    (tip pip : nat) (lastData : FingerData) (st st' : Physics) (s : nat)
    (o : outcome unit) :
  lastFingerData st !! fingerId handIndex tip = Some lastData ->
  last_x lastData = stringX s ->
  fingerUpdate hypot landmarks handIndex now (tip, pip) st = (o, st') ->
  exists calls : list (nat * float),
    triggerStringCalls st' = triggerStringCalls st ++ calls /\
    forall t : float, (s, t) ∉ calls.
Proof.
  intros Hlast Hx Hrun.
  destruct (isFingerOpen hypot landmarks tip pip 0) as [[|]|err] eqn:Hopen.
  - destruct (isFingerOpen_landmark _ _ _ _ _ Hopen) as [p Hp].
    rewrite (fingerUpdate_open _ _ _ _ _ _ _ _ Hopen Hp), Hlast in Hrun.
    injection Hrun as <- <-.
    cbn [triggerStringCalls set_lastFingerData]. rewrite pluck_calls.
    eexists. split; [reflexivity |].
    intros t Hin. destruct (gt _ _); [| apply elem_of_nil in Hin; exact Hin].
    apply elem_of_calls in Hin as [Hin _].
    apply elem_of_fired in Hin as [_ Hf].
    unfold fires, crossedLeftToRight, crossedRightToLeft, gt in Hf.
    rewrite Hx, FloatFacts.ltb_irrefl in Hf. discriminate Hf.
  - destruct (isFingerOpen_landmark _ _ _ _ _ Hopen) as [p Hp].
    rewrite (fingerUpdate_closed _ _ _ _ _ _ _ _ Hopen Hp) in Hrun.
    injection Hrun as <- <-. exists [].
    split; [symmetry; apply app_nil_r | intros t; apply not_elem_of_nil].
  - rewrite (fingerUpdate_throws _ _ _ _ _ _ _ _ Hopen) in Hrun.
    injection Hrun as <- <-. exists [].
    split; [symmetry; apply app_nil_r | intros t; apply not_elem_of_nil].
Qed.

End Claims.

Lemma closed_finger_witness :
  exists st' : Physics,
    fingerUpdate Examples.hypot (Examples.hand 0.8 0.5) 0 1010 (12, 10)%nat
      (Examples.seen 12 0.05 1000) = (Ok tt, st') /\
    triggerStringCalls st' = [] /\
    stringDebounce st' = replicate 12 0 /\
    lastFingerData st' !! 12%nat = Some {| last_x := 1.0 - 0.8; time := 1010 |}.
Proof.
  destruct (closed_finger Examples.hypot (Examples.hand 0.8 0.5) 0 1010 12 10
              {| lx := 0.8; ly := 0.5 + 0.4 |} (Examples.seen 12 0.05 1000))
    as (st' & Hrun & Hcalls & Hdeb & Hlast & _).
  - vm_compute. reflexivity.
  - vm_compute. reflexivity.
  - exists st'. split; [exact Hrun |].
    split; [exact Hcalls |]. split; [exact Hdeb |].
    rewrite Hlast. apply lookup_insert_eq.
Defined.

Lemma resting_on_string_witness :
  exists calls : list (nat * float),
    triggerStringCalls
      (snd (fingerUpdate Examples.hypot (Examples.hand 0.8 0.5) 0 1010
              (8, 6)%nat (Examples.seen 8 (stringX 0) 1000)))
    = calls /\
    forall t : float, (0%nat, t) ∉ calls.
Proof.
  apply (resting_on_string Examples.hypot (Examples.hand 0.8 0.5) 0 1010 8 6
           {| last_x := stringX 0; time := 1000 |}
           (Examples.seen 8 (stringX 0) 1000) _ 0
           (fst (fingerUpdate Examples.hypot (Examples.hand 0.8 0.5) 0 1010
                   (8, 6)%nat (Examples.seen 8 (stringX 0) 1000)))).
  - vm_compute. reflexivity.
  - reflexivity.
  - apply surjective_pairing.
Defined.

(** The finger that rested on string 0 and moved to [x = 0.2] plucks
    string 1, which it crossed, and not string 0. *)
Example resting_then_moving :
  triggerStringCalls
    (snd (fingerUpdate Examples.hypot (Examples.hand 0.8 0.5) 0 1010
            (8, 6)%nat (Examples.seen 8 (stringX 0) 1000)))
  = [(1%nat, 1010)].
Proof. vm_compute. reflexivity. Qed.

(** The debounce is per string: string 3 is plucked at time 1000; five
    milliseconds later another finger plucks string 5, while a finger that
    crosses string 3 again is ignored. *)
Example debounce_per_string :
  let st1 := pluck {| last_x := 0.29; time := 990 |} 0.32 0.5 1000 initial in
  triggerStringCalls st1 = [(3%nat, 1000)] /\
  triggerStringCalls (pluck {| last_x := 0.45; time := 995 |} 0.47 0.5 1005 st1)
  = [(3%nat, 1000); (5%nat, 1005)] /\
  triggerStringCalls (pluck {| last_x := 0.32; time := 1000 |} 0.29 0.5 1005 st1)
  = [(3%nat, 1000)].
Proof. vm_compute. repeat split; reflexivity. Qed.

(** *** The position of the strings *)

(** C2, counterexample at string 0: the position [s / (N + 1)] is 0 there,
    and the position the loop tests is not. *)
Lemma string0_not_at_zero :
  claimed_stringX 0 = 0 /\ stringX 0 <> claimed_stringX 0.
Proof.
  split; [vm_compute; reflexivity |].
  intros Heq. apply (f_equal (fun f => 0 <? f)) in Heq.
  vm_compute in Heq. discriminate Heq.
Qed.

(** C2, as the program has it: for every string [s] below [NUM_STRINGS] the
    position the loop tests is [stringSpacing * (s + 1)] with
    [stringSpacing = 1 / 13], which is the fraction [(s + 1) / (N + 1)] up
    to the rounding of the two operations (less than [2^-53] away), strictly
    between 0 and 1: string 0 sits at 1/13 and no string sits at 0. *)
Theorem stringX_position (s : nat) :
  (s < NUM_STRINGS)%nat ->
  stringX s = (1.0 / 13) * (of_nat s + 1) /\
  (Qabs (exact (stringX s) - (Z.of_nat s + 1 # 13)) <= 1 # 2 ^ 53)%Q /\
  (0 <? stringX s) = true /\
  (stringX s <? 1) = true.
Proof.
  intros Hlt. split; [reflexivity |].
  assert (Hall : forallb position_check (seq 0 NUM_STRINGS) = true)
    by (vm_compute; reflexivity).
  rewrite forallb_forall in Hall.
  specialize (Hall s). unfold position_check in Hall.
  rewrite !andb_true_iff, Qle_bool_iff in Hall.
  destruct Hall as [[Hq Hpos] Hone]; [apply in_seq; lia |]. auto.
Qed.

Lemma stringX_position_witness :
  (Qabs (exact (stringX 0) - (1 # 13)) <= 1 # 2 ^ 53)%Q /\
  (0 <? stringX 0) = true.
Proof.
  destruct (stringX_position 0) as (_ & Hq & Hpos & _).
  - unfold NUM_STRINGS. lia.
  - split; [exact Hq | exact Hpos].
Defined.

(** *** The scenario of the finger moving from 0.05 to 0.20 *)




(** The same gesture through [processPhysics]: a hand seen at the raw
    position 0.95 and, ten milliseconds later, at 0.8, with its index
    finger stretched out at [y = 0.5]; then the two calls played on an
    engine with the harp preset. *)
Example two_frames :
  let st1 := snd (processPhysics Examples.hypot true [Examples.hand 0.95 0.5]
                    1000 initial) in
  let r2 := processPhysics Examples.hypot true [Examples.hand 0.8 0.5] 1010 st1 in
  fst r2 = Ok tt /\
  triggerStringCalls (snd r2) = [(0%nat, 1010); (1%nat, 1010)] /\
  stringDebounce (snd r2) = [1010; 1010; 0; 0; 0; 0; 0; 0; 0; 0; 0; 0].
Proof. vm_compute. repeat split; reflexivity. Qed.

(** The two calls of [two_frames] played on an engine with the harp preset:
    two voices, at the frequencies of C4 and D4. *)
Example two_frames_played :
  let player := {| audioEngine := Some (Examples.engine_at 2);
                   instrument := Types.harp;
                   activeStrings := replicate NUM_STRINGS 0 |} in
  let r := dispatch 5000 [(0%nat, 1010); (1%nat, 1010)] player in
  fst r = Ok tt /\
  (AudioEngine.events ∘ AudioEngine.osc_frequency
   <$> from_option AudioEngine.voices [] (audioEngine (snd r)))
  = [ [AudioEngine.SetValueAtTime 261.63 2];
      [AudioEngine.SetValueAtTime 293.66 2] ] /\
  activeStrings (snd r) = [5000; 5000; 0; 0; 0; 0; 0; 0; 0; 0; 0; 0].
Proof. vm_compute. repeat split; reflexivity. Qed.


(** *** Frames with missing landmarks *)

Lemma forEach_ok {St A} (f : A -> nat -> M St unit) (P : A -> Prop)
    (xs : list A) :
  (forall x i s, P x -> exists s', f x i s = (Ok tt, s')) ->
  Forall P xs ->
  forall i s, exists s', forEach f xs i s = (Ok tt, s').
Proof.
  intros Hf Hall. induction Hall as [|x xs Hx _ IH]; intros i s.
  - exists s. reflexivity.
  - destruct (Hf x i s Hx) as [s1 Hs1]. destruct (IH (S i) s1) as [s2 Hs2].
    exists s2. cbn [forEach]. rewrite (Calls.bind_step _ _ _ _ _ Hs1). exact Hs2.
Qed.

Lemma forEach_throw {St A} (f : A -> nat -> M St unit) (Q : A -> Prop)
    (err : error) (xs : list A) :
  (forall x i s, (exists s', f x i s = (Ok tt, s'))
                 \/ (exists s', f x i s = (Throw err, s'))) ->
  (forall x i s, Q x -> exists s', f x i s = (Throw err, s')) ->
  Exists Q xs ->
  forall i s, exists s', forEach f xs i s = (Throw err, s').
Proof.
  intros Hany Hq Hex. induction xs as [|x xs IH]; intros i s.
  - apply Exists_nil in Hex. contradiction.
  - cbn [forEach]. destruct (Hany x i s) as [[s1 Hs1] | [s1 Hs1]].
    + rewrite (Calls.bind_step _ _ _ _ _ Hs1).
      apply Exists_cons in Hex as [Hx | Hex].
      * destruct (Hq x i s Hx) as [s2 Hs2]. congruence.
      * apply IH. exact Hex.
    + exists s1. apply Calls.bind_throw. exact Hs1.
Qed.

Section Frames.

Variable hypot : float -> float -> float.

Lemma isFingerOpen_outcome (landmarks : Hand) (tip pip : nat) :
  (exists b, isFingerOpen hypot landmarks tip pip 0 = Ok b /\
             (tip < length landmarks)%nat /\ (pip < length landmarks)%nat) \/
  (isFingerOpen hypot landmarks tip pip 0 = Throw TypeError /\
   (length landmarks <= 0 \/ length landmarks <= pip
    \/ length landmarks <= tip)%nat).
Proof.
  unfold isFingerOpen.
  destruct (landmarks !! 0%nat) as [wrist|] eqn:Hw;
    [| right; split; [reflexivity | left; apply lookup_ge_None; exact Hw]].
  destruct (landmarks !! pip) as [pipL|] eqn:Hpip;
    [| right; split;
       [reflexivity | right; left; apply lookup_ge_None; exact Hpip]].
  destruct (landmarks !! tip) as [tipL|] eqn:Htip;
    [| right; split;
       [reflexivity | right; right; apply lookup_ge_None; exact Htip]].
  left. eexists. split; [reflexivity |].
  split; eapply lookup_lt_Some; eassumption.
Qed.

(** The update of a finger returns normally or throws a TypeError; it
    throws exactly when the wrist, the PIP or the tip landmark is missing. *)
Lemma fingerUpdate_outcome (landmarks : Hand) (handIndex : nat) (now : float)
    (tip pip : nat) (st : Physics) :
  ((tip < length landmarks)%nat /\ (pip < length landmarks)%nat /\
   exists st', fingerUpdate hypot landmarks handIndex now (tip, pip) st
               = (Ok tt, st')) \/
  ((length landmarks <= 0 \/ length landmarks <= pip
    \/ length landmarks <= tip)%nat /\
   fingerUpdate hypot landmarks handIndex now (tip, pip) st
   = (Throw TypeError, st)).
Proof.
  destruct (isFingerOpen_outcome landmarks tip pip)
    as [(b & Hopen & Htip & Hpip) | [Hopen Hlen]].
  - left. split; [exact Htip |]. split; [exact Hpip |].
    destruct (isFingerOpen_landmark _ _ _ _ _ Hopen) as [p Hp].
    destruct b.
    + rewrite (fingerUpdate_open _ _ _ _ _ _ _ _ Hopen Hp). eauto.
    + rewrite (fingerUpdate_closed _ _ _ _ _ _ _ _ Hopen Hp). eauto.
  - right. split; [exact Hlen |]. apply fingerUpdate_throws. exact Hopen.
Qed.

(** One finger update inside [handUpdate]: it returns normally, and the
    proof goes on with the next finger, or it throws, and [thrown] ends the
    case. *)
Ltac finger_update thrown :=
  match goal with
  | |- context [bind (fingerUpdate _ ?l ?i ?n (?t, ?p)) _ ?s] =>
      let Hlen := fresh "Hlen" in
      let Hrun := fresh "Hrun" in
      let st := fresh "st" in
      destruct (fingerUpdate_outcome l i n t p s)
        as [(Hlen & _ & [st Hrun]) | [Hlen Hrun]];
      [ rewrite (Calls.bind_step _ _ _ _ _ Hrun); cbv beta; clear Hrun
      | thrown Hrun ]
  end.

Lemma handUpdate_any (now : float) (landmarks : Hand) (handIndex : nat)
    (st : Physics) :
  (exists st', handUpdate hypot now landmarks handIndex st = (Ok tt, st')) \/
  (exists st', handUpdate hypot now landmarks handIndex st
               = (Throw TypeError, st')).
Proof.
  unfold handUpdate, fingers. cbn [forEach].
  do 4 finger_update
    ltac:(fun H => right; eexists; apply Calls.bind_throw; exact H).
  left. eexists. reflexivity.
Qed.

Lemma handUpdate_complete (now : float) (landmarks : Hand) (handIndex : nat)
    (st : Physics) :
  (21 <= length landmarks)%nat ->
  exists st', handUpdate hypot now landmarks handIndex st = (Ok tt, st').
Proof.
  intros Hlen. unfold handUpdate, fingers. cbn [forEach].
  do 4 finger_update ltac:(fun H => lia).
  eexists. reflexivity.
Qed.

Lemma handUpdate_missing (now : float) (landmarks : Hand) (handIndex : nat)
    (st : Physics) :
  (length landmarks < 21)%nat ->
  exists st', handUpdate hypot now landmarks handIndex st
              = (Throw TypeError, st').
Proof.
  intros Hshort.
  destruct (handUpdate_any now landmarks handIndex st) as [[st' Hrun] | Hthrow];
    [| exact Hthrow].
  exfalso. revert Hrun. unfold handUpdate, fingers. cbn [forEach].
  do 4 finger_update
    ltac:(fun H => rewrite (Calls.bind_throw _ _ _ _ _ H); discriminate).
  lia.
Qed.

Lemma processPhysics_complete (audioEngine : bool) (hands : list Hand)
    (now : float) (st : Physics) :
  Forall (fun h => 21 <= length h)%nat hands ->
  exists st', processPhysics hypot audioEngine hands now st = (Ok tt, st').
Proof.
  intros Hall. unfold processPhysics.
  destruct audioEngine; cbn [negb]; [| exists st; reflexivity].
  apply (forEach_ok (handUpdate hypot now) _ hands
           (fun h i s => handUpdate_complete now h i s) Hall).
Qed.

Lemma processPhysics_missing (hands : list Hand) (now : float) (st : Physics) :
  Exists (fun h => length h < 21)%nat hands ->
  exists st', processPhysics hypot true hands now st = (Throw TypeError, st').
Proof.
  intros Hex. unfold processPhysics. cbn [negb].
  apply (forEach_throw (handUpdate hypot now) _ TypeError hands
           (fun h i s => handUpdate_any now h i s)
           (fun h i s => handUpdate_missing now h i s) Hex).
Qed.

Lemma drawHand_complete (landmarks : Hand) :
  (21 <= length landmarks)%nat -> drawHand landmarks = Ok tt.
Proof.
  intros Hlen. unfold drawHand.
  replace (forallb _ (seq 0 21)) with true; [reflexivity |].
  symmetry. apply forallb_forall. intros i Hin. apply in_seq in Hin.
  apply bool_decide_eq_true, lookup_lt_is_Some. lia.
Qed.



End Frames.

End AppFacts.

(** ** Initialisation of the audio graph *)

Module InitFacts.

Import JS AudioEngine Graph.
Local Open Scope float_scope.
Local Open Scope js_scope.

Lemma init_again (constructed : outcome AudioContext) (resume : outcome unit)
    (e : Engine) (c : AudioContext) :
  ctx e = Some c -> init constructed resume e = (Ok tt, e).
Proof.
  intros Hc. unfold init. rewrite Calls.bind_read, Hc. reflexivity.
Qed.

Lemma init_not_constructed (err : error) (resume : outcome unit) (e : Engine) :
  ctx e = None -> init (Throw err) resume e = (Throw err, e).
Proof.
  intros Hc. unfold init. rewrite Calls.bind_read, Hc.
  apply Calls.bind_lift_throw.
Qed.

Lemma set_value_fixed (p : AudioParam) (v : float) :
  events p = [] ->
  set_value p v = if is_float v then Ok (fixed v) else Throw TypeError.
Proof.
  intros Hev. unfold set_value, to_float, fixed. rewrite Hev.
  destruct (is_float v); reflexivity.
Qed.

Lemma Engine_eq (a b : Engine) :
  ctx a = ctx b -> masterGain a = masterGain b -> compressor a = compressor b ->
  delayNode a = delayNode b -> delayGain a = delayGain b ->
  config a = config b -> feedback a = feedback b ->
  connections a = connections b -> voices a = voices b ->
  resumeRequests a = resumeRequests b -> a = b.
Proof.
  destruct a, b. cbn. intros. subst. reflexivity.
Qed.

Lemma init_first (fresh : AudioContext) (resume : outcome unit) (e : Engine) :
  ctx e = None -> init (Ok fresh) resume e = first_init fresh resume e.
Proof.
  intros Hc. unfold init, first_init. rewrite Calls.bind_read, Hc.
  rewrite Calls.bind_lift_ok, !Calls.bind_modify.
  replace (set_value (param 1) 0.6) with (Ok (fixed 0.6)) by reflexivity.
  rewrite Calls.bind_lift_ok, !Calls.bind_modify.
  replace init_compressor with (Ok limiter) by reflexivity.
  rewrite Calls.bind_lift_ok, !Calls.bind_modify.
  replace (set_value (param 0) 0.3) with (Ok (fixed 0.3)) by reflexivity.
  rewrite Calls.bind_lift_ok, !Calls.bind_modify.
  rewrite (set_value_fixed (param 1) (delayMix (config e))) by reflexivity.
  destruct (is_float (delayMix (config e))).
  - rewrite Calls.bind_lift_ok, !Calls.bind_modify.
    replace (set_value (param 1) 0.4) with (Ok (fixed 0.4)) by reflexivity.
    rewrite Calls.bind_lift_ok, !Calls.bind_modify.
    assert (Hbuilt : forall c,
              set_ctx (Some c)
                (connect Compressor Destination
                (connect DelayGain Compressor
                (connect Delay DelayGain
                (connect Feedback Delay
                (connect Delay Feedback
                (connect MasterGain Delay
                (connect MasterGain Compressor
                (set_feedback (Some (fixed 0.4))
                (set_feedback (Some (param 1))
                (set_delayGain (Some (fixed (delayMix (config e))))
                (set_delayGain (Some (param 1))
                (set_delayNode (Some (fixed 0.3))
                (set_delayNode (Some (param 0))
                (set_compressor (Some limiter)
                (set_masterGain (Some (fixed 0.6))
                (set_masterGain (Some (param 1))
                (set_ctx (Some fresh) e)))))))))))))))))
              = built c e).
    { intros c. apply Engine_eq; try reflexivity.
      cbn [connections built set_ctx connect set_feedback set_delayGain
           set_delayNode set_compressor set_masterGain].
      rewrite <- !app_assoc. reflexivity. }
    destruct (state fresh).
    + destruct resume as [[]|err].
      * rewrite Calls.bind_lift_ok. unfold modify. rewrite Hbuilt. reflexivity.
      * rewrite Calls.bind_lift_throw. rewrite <- (Hbuilt fresh). reflexivity.
    + unfold ret. rewrite <- (Hbuilt fresh). reflexivity.
    + unfold ret. rewrite <- (Hbuilt fresh). reflexivity.
  - rewrite Calls.bind_lift_throw. reflexivity.
Qed.

(** X1.  The configuration given to [updateConfig] before [init] is the one
    [init] builds the graph from: the delay-mix gain holds its [delayMix],
    assigned directly with no automation call, the master gain 0.6, the
    delay time 0.3, the feedback gain 0.4, the seven connections are made in
    source order, no voice exists, and a suspended context has been
    resumed. *)
Theorem config_before_init (initialConfig newConfig : SynthConfig)
    (fresh : AudioContext) :
  is_float (delayMix newConfig) = true ->
  exists e : Engine,
    (updateConfig newConfig ;;; init (Ok fresh) (Ok tt)) (new initialConfig)
    = (Ok tt, e) /\
    config e = newConfig /\
    delayGain e = Some {| value := delayMix newConfig; events := [] |} /\
    masterGain e = Some {| value := 0.6; events := [] |} /\
    delayNode e = Some {| value := 0.3; events := [] |} /\
    feedback e = Some {| value := 0.4; events := [] |} /\
    connections e = wiring /\
    voices e = [] /\
    ctx e = Some match state fresh with
                 | Suspended => running fresh
                 | _ => fresh
                 end.
Proof.
  intros Hmix.
  rewrite (Calls.bind_step _ _ _ _ _
             (AudioEngineFacts.updateConfig_before_init newConfig
                (new initialConfig) (or_introl eq_refl))).
  rewrite init_first by reflexivity. unfold first_init.
  cbn [config set_config new]. rewrite Hmix.
  destruct (state fresh); eexists; (split; [reflexivity |]);
    repeat split; reflexivity.
Qed.

Lemma config_before_init_witness :
  exists e : Engine,
    (updateConfig Examples.arcade_config ;;;
     init (Ok {| currentTime := 0; state := Suspended |}) (Ok tt))
      (new Types.DEFAULT_CONFIG)
    = (Ok tt, e) /\
    delayGain e = Some {| value := 0.0; events := [] |} /\
    ctx e = Some {| currentTime := 0; state := Running |}.
Proof.
  destruct (config_before_init Types.DEFAULT_CONFIG Examples.arcade_config
              {| currentTime := 0; state := Suspended |})
    as (e & Hrun & _ & Hdg & _ & _ & _ & _ & _ & Hc).
  - reflexivity.
  - exists e. split; [exact Hrun |]. split; [exact Hdg | exact Hc].
Defined.

(** X2.  When [init] is retried.  If the constructor of the context throws,
    [init] throws that exception with nothing assigned, [this.ctx] stays
    null, and the next call runs the whole body again, exactly as on the
    untouched engine.  In every other case (the engine had a context, or
    the constructor returned one) the context is set when the call ends,
    also when the call threw later on, and every later call returns
    normally at once and changes nothing: such a failed initialisation is
    never repeated. *)
Theorem init_once (constructed1 constructed2 : outcome AudioContext)
    (resume1 resume2 : outcome unit) (e : Engine) :
  let e1 := snd (init constructed1 resume1 e) in
  (forall err : error,
     ctx e = None -> constructed1 = Throw err ->
     init constructed1 resume1 e = (Throw err, e) /\
     init constructed2 resume2 e1 = init constructed2 resume2 e) /\
  (ctx e <> None \/ (exists fresh, constructed1 = Ok fresh) ->
   ctx e1 <> None /\
   init constructed2 resume2 e1 = (Ok tt, e1)).
Proof.
  cbv zeta. split.
  - intros err Hc ->. rewrite (init_not_constructed err resume1 e Hc).
    split; reflexivity.
  - intros H.
    assert (Hset : exists c, ctx (snd (init constructed1 resume1 e)) = Some c).
    { destruct (ctx e) as [c|] eqn:Hc.
      - rewrite (init_again constructed1 resume1 e c Hc). eauto.
      - destruct H as [H | [fresh ->]]; [contradiction |].
        rewrite (init_first fresh resume1 e Hc). unfold first_init.
        destruct (is_float (delayMix (config e)));
          [destruct (state fresh); [destruct resume1 as [[]|err] | |] |];
          cbn [snd]; eexists; reflexivity. }
    destruct Hset as [c Hc1]. split; [rewrite Hc1; discriminate |].
    apply (init_again _ _ _ c Hc1).
Qed.

Lemma init_once_witness :
  init (Ok (Cases.context 0 Running)) (Ok tt)
    (snd (init (Ok (Cases.context 0 Running)) (Ok tt)
            (new Cases.no_delayMix)))
  = (Ok tt, snd (init (Ok (Cases.context 0 Running)) (Ok tt)
                   (new Cases.no_delayMix))) /\
  init (Ok (Cases.context 0 Running)) (Ok tt)
    (snd (init (Throw TypeError) (Ok tt) (new Types.DEFAULT_CONFIG)))
  = (Ok tt, Examples.engine_at 0).
Proof.
  split.
  - apply (proj2 (init_once (Ok (Cases.context 0 Running))
                    (Ok (Cases.context 0 Running)) (Ok tt) (Ok tt)
                    (new Cases.no_delayMix))).
    right. eexists. reflexivity.
  - rewrite (proj2 (proj1 (init_once (Throw TypeError)
                             (Ok (Cases.context 0 Running)) (Ok tt) (Ok tt)
                             (new Types.DEFAULT_CONFIG))
                      TypeError eq_refl eq_refl)).
    vm_compute. reflexivity.
Defined.

(** X3.  When the configured [delayMix] is not a valid [float] (NaN,
    infinite, or beyond the single-precision range), [init] on a new
    engine throws a TypeError at the assignment of the delay-mix gain: the
    context, the master gain, the compressor and the delay node exist, the
    feedback gain does not, and no connection has been made; the next
    [init] does not repair it, and [playNote] does not take its early
    return: a note whose checks pass gets its voice, in a graph that is
    connected to nothing. *)
Theorem init_invalid_delayMix (cfg : SynthConfig) (fresh : AudioContext)
    (constructed2 : outcome AudioContext) (resume resume2 : outcome unit) :
  is_float (delayMix cfg) = false ->
  exists e : Engine,
    init (Ok fresh) resume (new cfg) = (Throw TypeError, e) /\
    ctx e = Some fresh /\
    masterGain e = Some {| value := 0.6; events := [] |} /\
    compressor e = Some limiter /\
    delayNode e = Some {| value := 0.3; events := [] |} /\
    delayGain e = Some (param 1) /\
    feedback e = None /\
    connections e = [] /\
    init constructed2 resume2 e = (Ok tt, e) /\
    forall note : string,
      Scheduled.accepted cfg (ToNumber (noteToFreq note)) (currentTime fresh)
      = true ->
      exists e' : Engine,
        playNote note e = (Ok tt, e') /\
        voices e' =
          [Scheduled.voice cfg (ToNumber (noteToFreq note)) (currentTime fresh)] /\
        connections e' = [].
Proof.
  intros Hmix. rewrite init_first by reflexivity. unfold first_init.
  cbn [config new]. rewrite Hmix.
  eexists; split; [reflexivity |].
  do 8 (split; [reflexivity |]).
  intros note Hok.
  rewrite (AudioEngineFacts.playNote_accepted note (interrupted fresh (new cfg))
             fresh (fixed 0.6) eq_refl eq_refl Hok).
  eexists; split; [reflexivity |].
  unfold Scheduled.played, Scheduled.resumed.
  destruct (state fresh); split; reflexivity.
Qed.

Lemma init_invalid_delayMix_witness :
  exists e : Engine,
    init (Ok (Cases.context 0 Running)) (Ok tt) (new Cases.no_delayMix)
    = (Throw TypeError, e) /\
    connections e = [] /\
    fst (playNote "A4" e) = Ok tt.
Proof.
  destruct (init_invalid_delayMix Cases.no_delayMix
              (Cases.context 0 Running) (Ok (Cases.context 0 Running))
              (Ok tt) (Ok tt))
    as (e & Hrun & _ & _ & _ & _ & _ & _ & Hconn & _ & Hplay).
  - reflexivity.
  - exists e. split; [exact Hrun |]. split; [exact Hconn |].
    destruct (Hplay "A4"%string) as (e' & -> & _); reflexivity.
Defined.

(** X4.  When the fresh context is suspended and [resume()] is rejected,
    [init] throws that rejection after the whole graph has been built and
    connected; the context stays suspended, and a later [init] returns at
    once without resuming it. *)
Theorem init_resume_rejected (cfg : SynthConfig) (fresh : AudioContext)
    (constructed2 : outcome AudioContext) (err : error)
    (resume2 : outcome unit) :
  is_float (delayMix cfg) = true ->
  state fresh = Suspended ->
  exists e : Engine,
    init (Ok fresh) (Throw err) (new cfg) = (Throw err, e) /\
    ctx e = Some fresh /\
    delayGain e = Some {| value := delayMix cfg; events := [] |} /\
    connections e = wiring /\
    init constructed2 resume2 e = (Ok tt, e) /\
    option_map state (ctx (snd (init constructed2 resume2 e))) = Some Suspended.
Proof.
  intros Hmix Hs. rewrite init_first by reflexivity. unfold first_init.
  cbn [config new]. rewrite Hmix, Hs.
  eexists; split; [reflexivity |].
  do 4 (split; [reflexivity |]).
  change (Some (state fresh) = Some Suspended). rewrite Hs. reflexivity.
Qed.

Lemma init_resume_rejected_witness :
  exists e : Engine,
    init (Ok (Cases.context 0 Suspended)) (Throw InvalidStateError)
      (new Types.DEFAULT_CONFIG)
    = (Throw InvalidStateError, e) /\
    connections e = wiring.
Proof.
  destruct (init_resume_rejected Types.DEFAULT_CONFIG
              (Cases.context 0 Suspended) (Ok (Cases.context 0 Suspended))
              InvalidStateError (Ok tt))
    as (e & Hrun & _ & _ & Hconn & _).
  - reflexivity.
  - reflexivity.
  - exists e. split; [exact Hrun | exact Hconn].
Defined.

End InitFacts.

(** ** Voices: what [playNote] keeps and what [onended] undoes *)

Module VoiceFacts.

Import JS AudioEngine Graph.
Local Open Scope float_scope.
Local Open Scope js_scope.

Lemma resumed_requests (c : AudioContext) (mg : AudioParam) (e : Engine) :
  ctx e = Some c -> masterGain e = Some mg ->
  resumeRequests (Scheduled.resumed c e)
  = (resumeRequests e + resume_requests e)%nat.
Proof.
  intros Hc Hm. unfold resume_requests, Scheduled.resumed. rewrite Hc, Hm.
  destruct (state c); cbn [resumeRequests request_resume]; lia.
Qed.

Lemma resumed_fields (c : AudioContext) (e : Engine) :
  config (Scheduled.resumed c e) = config e /\
  ctx (Scheduled.resumed c e) = ctx e /\
  masterGain (Scheduled.resumed c e) = masterGain e /\
  compressor (Scheduled.resumed c e) = compressor e /\
  delayNode (Scheduled.resumed c e) = delayNode e /\
  delayGain (Scheduled.resumed c e) = delayGain e /\
  feedback (Scheduled.resumed c e) = feedback e /\
  connections (Scheduled.resumed c e) = connections e.
Proof.
  unfold Scheduled.resumed. destruct (state c); repeat split.
Qed.


Ltac kept e c mg Hc Hm :=
  destruct (resumed_fields c e) as (? & ? & ? & ? & ? & ? & ? & ?);
  unfold modify, replace_last;
  cbn [snd config ctx masterGain compressor delayNode delayGain feedback
       connections resumeRequests set_voices];
  repeat (split; [congruence || (apply (resumed_requests c mg); congruence) |]).

Ltac voices_kept :=
  cbn [voices set_voices];
  rewrite ?removelast_last, ?AudioEngineFacts.voices_resumed;
  first [ exists []; split; [rewrite app_nil_r; reflexivity |]
        | eexists [_]; split; [reflexivity |] ];
  split; [cbn; lia | try discriminate; reflexivity].

Ltac call_kept H b e c mg Hc Hm :=
  destruct b eqn:?; cbv iota in H;
  [ rewrite Calls.bind_lift_ok in H; cbv beta in H
  | rewrite Calls.bind_lift_throw in H; injection H as <- <-;
    kept e c mg Hc Hm; voices_kept ].

Lemma playNote_kept (note : string) (e e' : Engine) (o : outcome unit) :
  playNote note e = (o, e') ->
  config e' = config e /\ ctx e' = ctx e /\ masterGain e' = masterGain e /\
  compressor e' = compressor e /\ delayNode e' = delayNode e /\
  delayGain e' = delayGain e /\ feedback e' = feedback e /\
  connections e' = connections e /\
  resumeRequests e' = (resumeRequests e + resume_requests e)%nat /\
  exists l : list Voice,
    voices e' = voices e ++ l /\ (length l <= 1)%nat /\
    (o = Ok tt -> length l = match ctx e, masterGain e with
                             | Some _, Some _ => 1%nat
                             | _, _ => 0%nat
                             end).
Proof.
  intros H.
  destruct (ctx e) as [c|] eqn:Hc; [destruct (masterGain e) as [mg|] eqn:Hm |].
  2: { rewrite AudioEngineFacts.playNote_not_ready in H by auto.
       injection H as <- <-. unfold resume_requests. rewrite Hc, Hm.
       repeat (split; [reflexivity || lia |]). exists [].
       rewrite app_nil_r. repeat split; cbn; lia. }
  2: { rewrite AudioEngineFacts.playNote_not_ready in H by auto.
       injection H as <- <-. unfold resume_requests. rewrite Hc.
       repeat (split; [reflexivity || lia |]). exists [].
       rewrite app_nil_r. repeat split; cbn; lia. }
  unfold playNote in H.
  remember (ToNumber (noteToFreq note)) as freq eqn:Hfreq. clear Hfreq.
  cbv zeta in H. unfold bind at 1, read in H. rewrite Hc, Hm in H.
  rewrite (Calls.bind_step _ _ _ _ _ (AudioEngineFacts.playNote_resume c e)) in H.
  rewrite AudioEngineFacts.setValueAtTime_spec in H.
  call_kept H (Scheduled.call_ok freq (currentTime c)) e c mg Hc Hm.
  rewrite AudioEngineFacts.detune_call in H.
  call_kept H (match detune_set (config e) with
           | Some d => Scheduled.call_ok d (currentTime c)
           | None => true
           end) e c mg Hc Hm.
  rewrite AudioEngineFacts.setValueAtTime_spec in H.
  call_kept H (Scheduled.call_ok (filterFreq (config e)) (currentTime c))
    e c mg Hc Hm.
  assert (Hq : set_value (param 1) 5 = Ok {| value := 5; events := [] |})
    by reflexivity.
  rewrite Hq in H; clear Hq. rewrite Calls.bind_lift_ok in H; cbv beta in H.
  rewrite AudioEngineFacts.setValueAtTime_spec in H.
  call_kept H (Scheduled.call_ok 0 (currentTime c)) e c mg Hc Hm.
  rewrite AudioEngineFacts.attack_call in H.
  call_kept H (if attack (config e) <? 0.005
           then Scheduled.call_ok (gain (config e)) (currentTime c)
           else Scheduled.call_ok (gain (config e))
                  (currentTime c + attack (config e))) e c mg Hc Hm.
  rewrite AudioEngineFacts.exponentialRampToValueAtTime_spec in H.
  call_kept H (Scheduled.ramp_ok (gain (config e) * sustain (config e) + 0.001)
             (currentTime c + attack (config e) + decay (config e)))
    e c mg Hc Hm.
  rewrite AudioEngineFacts.exponentialRampToValueAtTime_spec in H.
  call_kept H (Scheduled.ramp_ok 0.0001
             (currentTime c + attack (config e) + decay (config e)
              + release (config e))) e c mg Hc Hm.
  rewrite Calls.bind_modify in H; cbv beta in H.
  rewrite AudioEngineFacts.start_spec in H by reflexivity.
  call_kept H (Scheduled.is_time (currentTime c)) e c mg Hc Hm.
  rewrite Calls.bind_modify in H; cbv beta in H.
  rewrite (AudioEngineFacts.stop_spec _ _ (currentTime c)) in H by reflexivity.
  call_kept H (Scheduled.is_time
             (currentTime c + attack (config e) + decay (config e)
              + release (config e) + 0.1)) e c mg Hc Hm.
  unfold modify in H. injection H as <- <-.
  kept e c mg Hc Hm. voices_kept.
Qed.

Lemma resume_requests_kept (e e' : Engine) :
  ctx e' = ctx e -> masterGain e' = masterGain e ->
  resume_requests e' = resume_requests e.
Proof.
  intros Hc Hm. unfold resume_requests. rewrite Hc, Hm. reflexivity.
Qed.

(** X5.  However many notes are played, and whether the calls return or
    throw, [playNote] never touches the configuration or the persistent
    graph (context, master gain, compressor, delay line, delay mix,
    feedback, connections); the voices that existed stay as they were, in
    place, and at most one voice per call is appended; and every call on a
    ready engine with a suspended context requests a resume. *)
Theorem playNote_frame (notes : list string) (e : Engine) :
  let e' := play_all notes e in
  config e' = config e /\ ctx e' = ctx e /\ masterGain e' = masterGain e /\
  compressor e' = compressor e /\ delayNode e' = delayNode e /\
  delayGain e' = delayGain e /\ feedback e' = feedback e /\
  connections e' = connections e /\
  resumeRequests e' = (resumeRequests e + length notes * resume_requests e)%nat /\
  exists l : list Voice,
    voices e' = voices e ++ l /\ (length l <= length notes)%nat.
Proof.
  cbv zeta. revert e. induction notes as [|note notes IH]; intros e.
  - cbn [play_all fold_left length]. repeat (split; [reflexivity || lia |]).
    exists []. rewrite app_nil_r. split; [reflexivity | cbn; lia].
  - change (play_all (note :: notes) e)
      with (play_all notes (snd (playNote note e))).
    destruct (playNote note e) as [o e1] eqn:Hrun. cbn [snd].
    destruct (playNote_kept _ _ _ _ Hrun)
      as (H1 & H2 & H3 & H4 & H5 & H6 & H7 & H8 & H9 & l1 & Hv1 & Hl1 & _).
    destruct (IH e1)
      as (G1 & G2 & G3 & G4 & G5 & G6 & G7 & G8 & G9 & l2 & Hv2 & Hl2).
    rewrite (resume_requests_kept e e1 H2 H3) in G9.
    repeat (split; [congruence || (cbn [length]; lia) |]).
    exists (l1 ++ l2). rewrite Hv2, Hv1, <- app_assoc.
    split; [reflexivity | rewrite length_app; cbn [length]; lia].
Qed.

(** X6.  A voice added by a call of [playNote] that returned on a ready
    engine is removed again by its [onended] handler: the engine is back to
    what it was, but for the resume request of a suspended context. *)
Theorem playNote_onended (note : string) (e e' : Engine) (c : AudioContext)
    (mg : AudioParam) :
  ctx e = Some c -> masterGain e = Some mg ->
  playNote note e = (Ok tt, e') ->
  onended (length (voices e)) e' = Scheduled.resumed c e /\
  (state c <> Suspended -> onended (length (voices e)) e' = e).
Proof.
  intros Hc Hm Hrun.
  destruct (AudioEngineFacts.playNote_inv _ _ _ _ _ Hc Hm Hrun) as [-> _].
  assert (Hback : onended (length (voices e)) (Scheduled.played note c e)
                  = Scheduled.resumed c e).
  { unfold onended, Scheduled.played. cbn [voices set_voices].
    rewrite delete_middle, app_nil_r.
    unfold Scheduled.resumed. destruct (state c), e; reflexivity. }
  split; [exact Hback |].
  intros Hs. rewrite Hback. unfold Scheduled.resumed.
  destruct (state c); [contradiction | reflexivity | reflexivity].
Qed.

Lemma playNote_onended_witness :
  onended 0 (snd (playNote "A4" (Examples.engine_at 2))) = Examples.engine_at 2.
Proof.
  refine (proj2 (playNote_onended "A4" (Examples.engine_at 2)
                   (snd (playNote "A4" (Examples.engine_at 2)))
                   (Cases.context 2 Running) (Graph.fixed 0.6) _ _ _) _).
  - reflexivity.
  - reflexivity.
  - vm_compute. reflexivity.
  - discriminate.
Defined.

End VoiceFacts.

(** ** Configuration updates *)

Module ConfigFacts.

Import JS AudioEngine Graph.
Local Open Scope float_scope.
Local Open Scope js_scope.

(** [updateConfig] on an engine whose graph exists: the configuration is
    replaced first, then the delay mix is scheduled, if its arguments are
    accepted. *)
Lemma updateConfig_run (newConfig : SynthConfig) (e : Engine)
    (c : AudioContext) (dg : AudioParam) :
  ctx e = Some c -> delayGain e = Some dg ->
  updateConfig newConfig e =
  if is_float (delayMix newConfig) then
    if is_double (currentTime c) then
      if currentTime c <? 0
      then (Throw RangeError, set_config newConfig e)
      else (Ok tt,
            set_delayGain
              (Some (schedule dg
                       (SetTargetAtTime (delayMix newConfig) (currentTime c) 0.1)))
              (set_config newConfig e))
    else (Throw TypeError, set_config newConfig e)
  else (Throw TypeError, set_config newConfig e).
Proof.
  intros Hc Hd.
  unfold updateConfig. rewrite Calls.bind_modify. cbv beta.
  unfold bind at 1, read.
  cbn [delayGain ctx set_config]. rewrite Hd, Hc.
  unfold setTargetAtTime, to_float, to_double, check_time.
  destruct (is_float (delayMix newConfig)); cbn [and_then];
    [| apply Calls.bind_lift_throw].
  destruct (is_double (currentTime c)); cbn [and_then];
    [| apply Calls.bind_lift_throw].
  replace (is_float 0.1) with true by reflexivity. cbn [and_then].
  destruct (currentTime c <? 0); cbn [and_then];
    [apply Calls.bind_lift_throw |].
  replace (0.1 <? 0) with false by reflexivity. cbn [and_then].
  rewrite Calls.bind_lift_ok. reflexivity.
Qed.

(** X7.  Two calls of [updateConfig] in a row on an initialised engine
    leave the second configuration in force and both delay-mix targets
    scheduled on the delay-mix gain, in call order, after what was
    scheduled before; nothing else differs from the engine before the
    calls. *)
Theorem updateConfig_twice (a b : SynthConfig) (e : Engine) (c : AudioContext)
    (dg : AudioParam) :
  ctx e = Some c -> delayGain e = Some dg ->
  is_float (delayMix a) = true -> is_float (delayMix b) = true ->
  Scheduled.is_time (currentTime c) = true ->
  exists e' : Engine,
    (updateConfig a ;;; updateConfig b) e = (Ok tt, e') /\
    config e' = b /\
    delayGain e' =
      Some {| value := value dg;
              events := events dg
                        ++ [ SetTargetAtTime (delayMix a) (currentTime c) 0.1;
                             SetTargetAtTime (delayMix b) (currentTime c) 0.1 ] |} /\
    ctx e' = ctx e /\ masterGain e' = masterGain e /\
    compressor e' = compressor e /\ delayNode e' = delayNode e /\
    feedback e' = feedback e /\ connections e' = connections e /\
    voices e' = voices e /\ resumeRequests e' = resumeRequests e.
Proof.
  intros Hc Hd Ha Hb Ht.
  unfold Scheduled.is_time in Ht. apply andb_prop in Ht as [Hdbl Hneg].
  apply negb_true_iff in Hneg.
  pose proof (updateConfig_run a e c dg Hc Hd) as Hrun1.
  rewrite Ha, Hdbl, Hneg in Hrun1.
  rewrite (Calls.bind_step _ _ _ _ _ Hrun1).
  rewrite (updateConfig_run b _ c
             (schedule dg (SetTargetAtTime (delayMix a) (currentTime c) 0.1)))
    by (cbn [ctx delayGain set_delayGain set_config]; assumption || reflexivity).
  rewrite Hb, Hdbl, Hneg.
  eexists; split; [reflexivity |].
  cbn [config ctx masterGain compressor delayNode delayGain feedback
       connections voices resumeRequests set_delayGain set_config].
  split; [reflexivity |].
  split; [unfold schedule; cbn [value events]; rewrite <- app_assoc; reflexivity |].
  repeat split.
Qed.

Lemma updateConfig_twice_witness :
  exists e' : Engine,
    (updateConfig Examples.arcade_config ;;; updateConfig Types.DEFAULT_CONFIG)
      (Examples.engine_at 2) = (Ok tt, e') /\
    config e' = Types.DEFAULT_CONFIG /\
    delayGain e' =
      Some {| value := 0.3;
              events := [ SetTargetAtTime 0.0 2 0.1; SetTargetAtTime 0.3 2 0.1 ] |}.
Proof.
  destruct (updateConfig_twice Examples.arcade_config Types.DEFAULT_CONFIG
              (Examples.engine_at 2) (Cases.context 2 Running) (fixed 0.3))
    as (e' & Hrun & Hcfg & Hdg & _); try reflexivity.
  exists e'. split; [exact Hrun |]. split; [exact Hcfg | exact Hdg].
Defined.

(** X8.  [updateConfig] is not atomic: when the new [delayMix] is not a
    valid [float] the call throws a TypeError after it has replaced the
    stored configuration; nothing is scheduled on the delay mix, which
    keeps its old value, and the next note is nonetheless built from the
    new configuration. *)
Theorem updateConfig_invalid (newConfig : SynthConfig) (e : Engine)
    (c : AudioContext) (mg dg : AudioParam) :
  ctx e = Some c -> masterGain e = Some mg -> delayGain e = Some dg ->
  is_float (delayMix newConfig) = false ->
  exists e' : Engine,
    updateConfig newConfig e = (Throw TypeError, e') /\
    e' = set_config newConfig e /\
    config e' = newConfig /\
    delayGain e' = Some dg /\
    forall (note : string) (e'' : Engine),
      playNote note e' = (Ok tt, e'') ->
      voices e'' =
      voices e ++
        [Scheduled.voice newConfig (ToNumber (noteToFreq note)) (currentTime c)].
Proof.
  intros Hc Hm Hd Hmix.
  exists (set_config newConfig e).
  rewrite (updateConfig_run newConfig e c dg Hc Hd), Hmix.
  do 3 (split; [reflexivity |]). split; [exact Hd |].
  intros note e'' Hrun.
  apply (AudioEngineFacts.playNote_inv _ _ _ c mg) in Hrun as [-> _];
    [| exact Hc | exact Hm].
  unfold Scheduled.played, set_voices. cbn [voices]. reflexivity.
Qed.

Lemma updateConfig_invalid_witness :
  exists e' : Engine,
    updateConfig Cases.no_delayMix (Examples.arcade_engine) = (Throw TypeError, e') /\
    config e' = Cases.no_delayMix /\
    delayGain e' = Some (fixed 0.3).
Proof.
  destruct (updateConfig_invalid Cases.no_delayMix Examples.arcade_engine
              (Cases.context 2 Running) (fixed 0.6) (fixed 0.3))
    as (e' & Hrun & _ & Hcfg & Hdg & _); try reflexivity.
  exists e'. split; [exact Hrun |]. split; [exact Hcfg | exact Hdg].
Defined.

End ConfigFacts.

(** ** The note table *)

Module NoteFacts.

Import JS AudioEngine Graph.
Local Open Scope float_scope.

(** X9.  For every name that is not inherited from [Object.prototype],
    [noteToFreq] returns a number between the lowest and the highest entry
    of the table, 16.35 Hz and 1975.53 Hz: never zero, NaN or [undefined]. *)
Theorem noteToFreq_range (note : string) :
  note ∉ Object_prototype_keys ->
  exists f : float,
    noteToFreq note = VNumber f /\
    (16.35 <=? f) = true /\ (f <=? 1975.53) = true.
Proof.
  intros Hnot. destruct (noteMap !! note) as [f|] eqn:Hlook.
  - assert (Hin : (note, f) ∈ noteTable)
      by (apply elem_of_list_to_map_2; exact Hlook).
    exists f. split; [apply AudioEngineFacts.noteToFreq_table, Hin |].
    assert (Hall : forallb (fun p => (16.35 <=? p.2) && (p.2 <=? 1975.53))
                     noteTable = true)
      by (vm_compute; reflexivity).
    rewrite forallb_forall in Hall.
    apply andb_prop. apply (Hall (note, f)). apply list_elem_of_In, Hin.
  - exists 440. split; [apply AudioEngineFacts.noteToFreq_unknown; assumption |].
    split; reflexivity.
Qed.

Lemma noteToFreq_range_witness :
  exists f : float,
    noteToFreq "H9" = VNumber f /\
    (16.35 <=? f) = true /\ (f <=? 1975.53) = true.
Proof.
  apply noteToFreq_range. vm_compute.
  intros H. repeat (apply elem_of_cons in H as [H | H]; [discriminate H |]).
  apply elem_of_nil in H. exact H.
Defined.

(** X10.  The note table is written in ascending pitch order, and in every
    octave from 0 to 6 each sharp and the flat above it (C#/Db, D#/Eb,
    F#/Gb, G#/Ab, A#/Bb) are both entries of the table, with the same
    frequency, which is what [noteToFreq] returns for either name. *)
Theorem noteTable_pitches :
  ascending (noteTable.*2) = true /\
  forall sharp flat octave : string,
    (sharp, flat) ∈ enharmonic -> octave ∈ octaves ->
    exists f : float,
      (sharp +:+ octave, f) ∈ noteTable /\
      (flat +:+ octave, f) ∈ noteTable /\
      noteToFreq (sharp +:+ octave) = VNumber f /\
      noteToFreq (flat +:+ octave) = VNumber f.
Proof.
  split; [vm_compute; reflexivity |].
  intros sharp flat octave Hp Ho.
  assert (Hentries : exists f : float,
            noteMap !! (sharp +:+ octave) = Some f /\
            noteMap !! (flat +:+ octave) = Some f).
  { unfold enharmonic in Hp. unfold octaves in Ho.
    repeat (apply elem_of_cons in Hp as [Hp | Hp];
            [injection Hp as -> -> |]);
      try (apply elem_of_nil in Hp; contradiction);
      repeat (apply elem_of_cons in Ho as [-> | Ho]);
      try (apply elem_of_nil in Ho; contradiction);
      eexists; split; vm_compute; reflexivity. }
  destruct Hentries as (f & Hs & Hf). exists f.
  apply elem_of_list_to_map_2 in Hs, Hf.
  split; [exact Hs |]. split; [exact Hf |].
  split; apply AudioEngineFacts.noteToFreq_table; assumption.
Qed.

Lemma noteTable_pitches_witness :
  exists f : float,
    ("F#3"%string, f) ∈ noteTable /\ ("Gb3"%string, f) ∈ noteTable /\
    noteToFreq "F#3" = VNumber f /\ noteToFreq "Gb3" = VNumber f.
Proof.
  apply (proj2 noteTable_pitches "F#" "Gb" "3")%string.
  - unfold enharmonic. apply list_elem_of_lookup. exists 2%nat. reflexivity.
  - unfold octaves. apply list_elem_of_lookup. exists 3%nat. reflexivity.
Defined.

End NoteFacts.

(** ** Whole frames of the trigger engine *)

Module FrameFacts.

Import JS App Triggers Frames.
Local Open Scope float_scope.

(** [x - x] is [+0], or NaN when [x] is infinite or NaN. *)
Lemma sub_self (x : float) :
  Prim2SF (x - x) = S754_zero false \/ Prim2SF (x - x) = S754_nan.
Proof.
  rewrite FloatAxioms.sub_spec.
  destruct (Prim2SF x) as [[]|[]| |[] m e]; auto; left;
    unfold SF64sub, SFsub; rewrite Z.min_id; unfold shl_align;
    rewrite Z.sub_diag; cbn [fst cond_Zopp]; reflexivity.
Qed.

Lemma gt_sub_self_debounce (now : float) :
  gt (now - now) debounceTime = false.
Proof.
  unfold gt. rewrite FloatAxioms.ltb_spec.
  destruct (sub_self now) as [-> | ->]; reflexivity.
Qed.

Lemma gt_sub_self_zero (now : float) : gt (now - now) 0 = false.
Proof.
  unfold gt. rewrite FloatAxioms.ltb_spec.
  destruct (sub_self now) as [-> | ->]; reflexivity.
Qed.

(** An invariant of the callback is an invariant of the whole iteration,
    whether it runs to its end or is cut short by an exception. *)
Lemma forEach_invariant {St A} (f : A -> nat -> M St unit) (I : St -> Prop)
    (xs : list A) :
  (forall x i s, I s -> I (snd (f x i s))) ->
  forall i s, I s -> I (snd (forEach f xs i s)).
Proof.
  intros Hf. induction xs as [|x xs IH]; intros i s Hs; [exact Hs |].
  cbn [forEach]. unfold bind. pose proof (Hf x i s Hs) as H1.
  destruct (f x i s) as [[[]|err] s1]; cbn [snd] in *; [apply IH, H1 | exact H1].
Qed.

Lemma within_refl (now : float) (st : Physics) : within now st st.
Proof.
  exists []. rewrite app_nil_r. split; [reflexivity |].
  split; [constructor |]. split; [| reflexivity].
  intros s t H. apply elem_of_nil in H. contradiction.
Qed.

Lemma fired_NoDup (lastData : FingerData) (x y now : float) (st : Physics) :
  NoDup (fired lastData x y now st).
Proof.
  unfold fired. generalize (seq 0 NUM_STRINGS) (NoDup_seq 0 NUM_STRINGS).
  intros l Hl. induction Hl as [|s l Hs Hl IH]; [constructor |].
  cbn [List.filter]. destruct (fires lastData x y now st s); [| exact IH].
  constructor; [| exact IH].
  intros Hin. apply Hs. apply list_elem_of_In in Hin.
  apply List.filter_In in Hin as [Hin _]. apply list_elem_of_In, Hin.
Qed.

Lemma calls_strings (now : float) (l : list nat) :
  (map (fun s => (s, now)) l).*1 = l.
Proof.
  induction l as [|s l IH]; [reflexivity |]. cbn. f_equal. exact IH.
Qed.

(** A string whose debounce entry is [now] does not fire at [now]. *)
Lemma fires_debounced (lastData : FingerData) (x y now : float) (st : Physics)
    (s : nat) :
  stringDebounce st !! s = Some now -> fires lastData x y now st s = false.
Proof.
  intros H. unfold fires, debounce_at. rewrite H. cbn [default].
  rewrite gt_sub_self_debounce. apply andb_false_r.
Qed.

Lemma pluck_within (lastData : FingerData) (x y now : float)
    (st0 st : Physics) :
  within now st0 st -> within now st0 (pluck lastData x y now st).
Proof.
  intros (new & Hcalls & Hnodup & Hnew & Hold).
  set (added := if gt (velocity lastData x now) velocityThreshold
                then fired lastData x y now st else []).
  assert (Hadded : forall s, s ∈ added ->
            gt (velocity lastData x now) velocityThreshold = true /\
            (s < NUM_STRINGS)%nat /\ fires lastData x y now st s = true).
  { intros s Hs. unfold added in Hs.
    destruct (gt (velocity lastData x now) velocityThreshold);
      [| apply elem_of_nil in Hs; contradiction].
    apply AppFacts.elem_of_fired in Hs. auto. }
  assert (Hfresh : forall s, s ∈ added -> s ∉ new.*1).
  { intros s Hs Hin. apply Hadded in Hs as (_ & _ & Hf).
    apply list_elem_of_fmap in Hin as ([s' t] & -> & Hin).
    apply Hnew in Hin as (_ & _ & _ & Hd).
    rewrite (fires_debounced _ _ _ _ _ _ Hd) in Hf. discriminate. }
  exists (new ++ map (fun s => (s, now)) added). split; [| split; [| split]].
  - rewrite AppFacts.pluck_calls, Hcalls, <- app_assoc. unfold added.
    destruct (gt (velocity lastData x now) velocityThreshold); reflexivity.
  - rewrite fmap_app, calls_strings. apply NoDup_app. split; [exact Hnodup |].
    split; [intros s Hin Hs; exact (Hfresh s Hs Hin) |].
    unfold added. destruct (gt _ _); [apply fired_NoDup | constructor].
  - intros s t Hin. apply elem_of_app in Hin as [Hin | Hin].
    + destruct (Hnew s t Hin) as (Hs & Ht & Hwin & Hd).
      repeat (split; [assumption |]).
      rewrite AppFacts.pluck_debounce, Hd. destruct (_ && _); reflexivity.
    + apply AppFacts.elem_of_calls in Hin as [Hs ->].
      pose proof (Hfresh s Hs) as Hnot.
      destruct (Hadded s Hs) as (Hv & Hlt & Hf).
      split; [exact Hlt |]. split; [reflexivity |]. split.
      * apply andb_prop in Hf as [_ Hwin].
        unfold debounce_at in *. rewrite <- (Hold s Hnot). exact Hwin.
      * rewrite AppFacts.pluck_debounce, Hv, Hf.
        rewrite bool_decide_eq_true_2 by exact Hlt. reflexivity.
  - intros s Hnot. rewrite fmap_app, calls_strings in Hnot.
    apply not_elem_of_app in Hnot as [Hnot1 Hnot2].
    rewrite AppFacts.pluck_debounce, <- (Hold s Hnot1).
    destruct (gt (velocity lastData x now) velocityThreshold
              && bool_decide (s < NUM_STRINGS)%nat
              && fires lastData x y now st s) eqn:Hcond; [| reflexivity].
    exfalso. apply Hnot2. unfold added.
    apply andb_prop in Hcond as [Hcond Hf]. apply andb_prop in Hcond as [-> Hlt].
    apply AppFacts.elem_of_fired. split; [| exact Hf].
    apply bool_decide_eq_true_1 in Hlt. exact Hlt.
Qed.

Section Invariants.

Variable hypot : float -> float -> float.

(** The states a finger update can leave. *)
Lemma fingerUpdate_cases (landmarks : Hand) (handIndex : nat) (now : float)
    (tip pip : nat) (st : Physics) :
  let st' := snd (fingerUpdate hypot landmarks handIndex now (tip, pip) st) in
  st' = st \/
  exists p : Landmark,
    landmarks !! tip = Some p /\
    (st' = set_lastFingerData (fingerId handIndex tip) (tracked p now) st \/
     exists lastData : FingerData,
       lastFingerData st !! fingerId handIndex tip = Some lastData /\
       st' = set_lastFingerData (fingerId handIndex tip) (tracked p now)
               (pluck lastData (1.0 - lx p) (ly p) now st)).
Proof.
  cbv zeta.
  destruct (isFingerOpen hypot landmarks tip pip 0) as [open|err] eqn:Hopen.
  - destruct (AppFacts.isFingerOpen_landmark hypot _ _ _ _ Hopen) as [p Hp].
    right. exists p. split; [exact Hp |].
    destruct open.
    + rewrite (AppFacts.fingerUpdate_open hypot _ _ _ _ _ p _ Hopen Hp).
      cbn [snd].
      destruct (lastFingerData st !! fingerId handIndex tip) as [lastData|];
        [right; exists lastData; split; reflexivity | left; reflexivity].
    + rewrite (AppFacts.fingerUpdate_closed hypot _ _ _ _ _ p _ Hopen Hp).
      left. reflexivity.
  - rewrite (AppFacts.fingerUpdate_throws hypot _ _ _ _ _ _ _ Hopen).
    left. reflexivity.
Qed.

(** A property that the storing of a finger entry and the plucking with a
    stored entry preserve holds after the whole frame, whatever the hands
    look like and however the frame ends. *)
Lemma processPhysics_invariant (I : Physics -> Prop) (now : float) :
  (forall id p st, I st -> I (set_lastFingerData id (tracked p now) st)) ->
  (forall id lastData x y st,
     I st -> lastFingerData st !! id = Some lastData ->
     I (pluck lastData x y now st)) ->
  forall (audioEngine : bool) (hands : list Hand) (st : Physics),
    I st -> I (snd (processPhysics hypot audioEngine hands now st)).
Proof.
  intros Hset Hpluck audioEngine hands st Hst.
  unfold processPhysics. destruct audioEngine; cbn [negb]; [| exact Hst].
  apply forEach_invariant; [| exact Hst].
  intros landmarks handIndex s Hs. unfold handUpdate.
  apply forEach_invariant; [| exact Hs].
  intros [tip pip] _ s' Hs'.
  destruct (fingerUpdate_cases landmarks handIndex now tip pip s')
    as [-> | (p & _ & [-> | (lastData & Hlast & ->)])].
  - exact Hs'.
  - apply Hset, Hs'.
  - apply Hset. eapply Hpluck; eassumption.
Qed.

Lemma processPhysics_within (audioEngine : bool) (hands : list Hand)
    (now : float) (st : Physics) :
  within now st (snd (processPhysics hypot audioEngine hands now st)).
Proof.
  apply (processPhysics_invariant (within now st)); [| | apply within_refl].
  - intros id p s H. exact H.
  - intros id lastData x y s H _. apply pluck_within, H.
Qed.

(** X11.  What one frame can make the trigger engine do, for any hands
    (complete or not) and whether [processPhysics] returns or throws: calls
    of [triggerString] are only appended; every new call carries the time of
    the frame and a string index below [NUM_STRINGS]; its string had its
    debounce window elapsed at the start of the frame; no string is called
    twice in one frame, however many fingers cross it; the debounce entry of
    a called string is the time of the frame and every other entry is
    untouched. *)
Theorem frame_calls (audioEngine : bool) (hands : list Hand) (now : float)
    (st : Physics) :
  let st' := snd (processPhysics hypot audioEngine hands now st) in
  exists new : list (nat * float),
    triggerStringCalls st' = triggerStringCalls st ++ new /\
    NoDup (new.*1) /\
    (forall (s : nat) (t : float),
       (s, t) ∈ new ->
       (s < NUM_STRINGS)%nat /\ t = now /\
       (debounceTime <? now - debounce_at st s) = true /\
       stringDebounce st' !! s = Some now) /\
    (forall s : nat,
       s ∉ new.*1 -> stringDebounce st' !! s = stringDebounce st !! s).
Proof. exact (processPhysics_within audioEngine hands now st). Qed.

(** X12.  Debounce across frames: a string called in a frame at the time
    [t1] is called in the following frame, at the time [t2], only if
    [t2 - t1 > 40]; whatever the hands of the two frames are. *)
Theorem next_frame_debounced (audioEngine : bool) (hands1 hands2 : list Hand)
    (t1 t2 : float) (st : Physics) :
  let st1 := snd (processPhysics hypot audioEngine hands1 t1 st) in
  let st2 := snd (processPhysics hypot audioEngine hands2 t2 st1) in
  exists new1 new2 : list (nat * float),
    triggerStringCalls st1 = triggerStringCalls st ++ new1 /\
    triggerStringCalls st2 = triggerStringCalls st1 ++ new2 /\
    forall s : nat,
      s ∈ new1.*1 -> s ∈ new2.*1 -> (debounceTime <? t2 - t1) = true.
Proof.
  cbv zeta.
  destruct (processPhysics_within audioEngine hands1 t1 st)
    as (new1 & Hc1 & _ & Hnew1 & _).
  destruct (processPhysics_within audioEngine hands2 t2
              (snd (processPhysics hypot audioEngine hands1 t1 st)))
    as (new2 & Hc2 & _ & Hnew2 & _).
  exists new1, new2. split; [exact Hc1 |]. split; [exact Hc2 |].
  intros s H1 H2.
  apply list_elem_of_fmap in H1 as ([s1 u1] & -> & H1).
  apply list_elem_of_fmap in H2 as ([s2 u2] & Heq & H2).
  cbn [fst] in Heq. subst s2.
  apply Hnew1 in H1 as (_ & _ & _ & Hd).
  apply Hnew2 in H2 as (_ & _ & Hwin & _).
  unfold debounce_at in Hwin. rewrite Hd in Hwin. exact Hwin.
Qed.

Lemma not_before_silent (now : float) (st0 : Physics) :
  forall (audioEngine : bool) (hands : list Hand) (st : Physics),
    not_before now st /\
    triggerStringCalls st = triggerStringCalls st0 /\
    stringDebounce st = stringDebounce st0 ->
    let st' := snd (processPhysics hypot audioEngine hands now st) in
    not_before now st' /\
    triggerStringCalls st' = triggerStringCalls st0 /\
    stringDebounce st' = stringDebounce st0.
Proof.
  apply (processPhysics_invariant
           (fun st => not_before now st /\
                      triggerStringCalls st = triggerStringCalls st0 /\
                      stringDebounce st = stringDebounce st0)).
  - intros id p st (Hnb & Hc & Hd). split; [| split; assumption].
    intros id' d Hlook. cbn [lastFingerData set_lastFingerData] in Hlook.
    apply lookup_insert_Some in Hlook as [[_ <-] | [_ Hlook]].
    + apply gt_sub_self_zero.
    + exact (Hnb id' d Hlook).
  - intros id lastData x y st (Hnb & Hc & Hd) Hlook.
    assert (Hsame : pluck lastData x y now st = st).
    { unfold pluck, velocity. rewrite (Hnb id lastData Hlook).
      replace (gt 0 velocityThreshold) with false by reflexivity.
      reflexivity. }
    rewrite Hsame. auto.
Qed.

(** X13.  A frame whose time is not later than the time stored for any
    tracked finger (a repeated or an older timestamp) triggers nothing:
    no call is made and no debounce entry changes, whatever the hands do;
    and the same holds for every further frame at that time. *)
Theorem stale_frame_silent (audioEngine : bool) (hands : list Hand)
    (now : float) (st : Physics) :
  not_before now st ->
  let st' := snd (processPhysics hypot audioEngine hands now st) in
  triggerStringCalls st' = triggerStringCalls st /\
  stringDebounce st' = stringDebounce st /\
  not_before now st'.
Proof.
  intros Hnb.
  destruct (not_before_silent now st audioEngine hands st) as (H1 & H2 & H3);
    auto.
Qed.

(** *** The entries of [lastFingerData] *)

Lemma fingers_tips (tip pip : nat) :
  (tip, pip) ∈ fingers -> (tip < 100)%nat.
Proof.
  intros H. unfold fingers in H.
  repeat (apply elem_of_cons in H as [H | H]; [injection H as -> ->; lia |]).
  apply elem_of_nil in H. contradiction.
Qed.

Lemma fingers_pip (tip pip pip' : nat) :
  (tip, pip) ∈ fingers -> (tip, pip') ∈ fingers -> pip = pip'.
Proof.
  intros H H'. apply list_elem_of_In in H, H'. cbn in H, H'.
  intuition congruence.
Qed.

(** A finger update writes no entry but its own. *)
Lemma fingerUpdate_others (landmarks : Hand) (handIndex : nat) (now : float)
    (tip pip : nat) (st : Physics) (id : nat) :
  id <> fingerId handIndex tip ->
  lastFingerData (snd (fingerUpdate hypot landmarks handIndex now (tip, pip) st))
    !! id
  = lastFingerData st !! id.
Proof.
  intros Hne.
  destruct (fingerUpdate_cases landmarks handIndex now tip pip st)
    as [-> | (p & _ & [-> | (lastData & _ & ->)])];
    [reflexivity | |];
    cbn [lastFingerData set_lastFingerData];
    rewrite lookup_insert_ne by congruence;
    [reflexivity | apply (f_equal (fun m => m !! id)), AppFacts.pluck_lastFingerData].
Qed.

(** A finger update that returns has stored the entry of its finger. *)
Lemma fingerUpdate_own (landmarks : Hand) (handIndex : nat) (now : float)
    (tip pip : nat) (p : Landmark) (st st' : Physics) :
  fingerUpdate hypot landmarks handIndex now (tip, pip) st = (Ok tt, st') ->
  landmarks !! tip = Some p ->
  lastFingerData st' !! fingerId handIndex tip = Some (tracked p now).
Proof.
  intros Hrun Hp.
  destruct (isFingerOpen hypot landmarks tip pip 0) as [[]|err] eqn:Hopen.
  - rewrite (AppFacts.fingerUpdate_open hypot _ _ _ _ _ p _ Hopen Hp) in Hrun.
    injection Hrun as <-. cbn [lastFingerData set_lastFingerData].
    apply lookup_insert_eq.
  - rewrite (AppFacts.fingerUpdate_closed hypot _ _ _ _ _ p _ Hopen Hp) in Hrun.
    injection Hrun as <-. cbn [lastFingerData set_lastFingerData].
    apply lookup_insert_eq.
  - rewrite (AppFacts.fingerUpdate_throws hypot _ _ _ _ _ _ _ Hopen) in Hrun.
    discriminate.
Qed.

Lemma fingers_tracked (landmarks : Hand) (handIndex : nat) (now : float)
    (fs : list (nat * nat)) :
  NoDup (fs.*1) ->
  forall (i : nat) (st st' : Physics),
    forEach (fun finger _ => fingerUpdate hypot landmarks handIndex now finger)
      fs i st = (Ok tt, st') ->
    (forall (tip pip : nat) (p : Landmark),
       (tip, pip) ∈ fs -> landmarks !! tip = Some p ->
       lastFingerData st' !! fingerId handIndex tip = Some (tracked p now)) /\
    (forall id : nat,
       (forall tip pip : nat, (tip, pip) ∈ fs -> id <> fingerId handIndex tip) ->
       lastFingerData st' !! id = lastFingerData st !! id).
Proof.
  induction fs as [|[tip0 pip0] fs IH]; intros Hnodup i st st' Hrun.
  - injection Hrun as <-. split; [| reflexivity].
    intros tip pip p H. apply elem_of_nil in H. contradiction.
  - cbn [forEach] in Hrun. unfold bind in Hrun.
    destruct (fingerUpdate hypot landmarks handIndex now (tip0, pip0) st)
      as [[[]|err] s1] eqn:H1; [| discriminate].
    cbn [fmap list_fmap fst] in Hnodup. apply NoDup_cons in Hnodup as [Hhead Hnodup].
    destruct (IH Hnodup _ _ _ Hrun) as [A B].
    assert (Hothers : forall id, id <> fingerId handIndex tip0 ->
              lastFingerData s1 !! id = lastFingerData st !! id).
    { intros id Hne.
      pose proof (fingerUpdate_others landmarks handIndex now tip0 pip0 st id Hne)
        as H. rewrite H1 in H. exact H. }
    split.
    + intros tip pip p Hin Hp. apply elem_of_cons in Hin as [Hin | Hin].
      * injection Hin as -> ->. rewrite B.
        -- exact (fingerUpdate_own _ _ _ _ _ _ _ _ H1 Hp).
        -- intros tip' pip' Hin' Heq. apply Hhead.
           unfold fingerId in Heq.
           assert (tip0 = tip') as -> by lia.
           apply list_elem_of_fmap. exists (tip', pip'). auto.
      * exact (A tip pip p Hin Hp).
    + intros id Hid. rewrite B, Hothers; [reflexivity | |].
      * apply (Hid tip0 pip0). apply elem_of_cons. auto.
      * intros tip pip Hin. apply (Hid tip pip). apply elem_of_cons. auto.
Qed.

Lemma fingers_NoDup : NoDup (fingers.*1).
Proof.
  cbn. repeat (apply NoDup_cons; split;
               [rewrite ?elem_of_cons, elem_of_nil; lia |]).
  constructor.
Qed.

Lemma hands_tracked (now : float) (hands : list Hand) :
  forall (i : nat) (st st' : Physics),
    forEach (handUpdate hypot now) hands i st = (Ok tt, st') ->
    (forall (k : nat) (hand : Hand) (tip pip : nat) (p : Landmark),
       hands !! k = Some hand -> (tip, pip) ∈ fingers -> hand !! tip = Some p ->
       lastFingerData st' !! fingerId (i + k) tip = Some (tracked p now)) /\
    (forall id : nat,
       (forall k tip pip : nat,
          (k < length hands)%nat -> (tip, pip) ∈ fingers ->
          id <> fingerId (i + k) tip) ->
       lastFingerData st' !! id = lastFingerData st !! id).
Proof.
  induction hands as [|hand0 hands IH]; intros i st st' Hrun.
  - injection Hrun as <-. split; [| reflexivity].
    intros k hand tip pip p H. rewrite lookup_nil in H. discriminate.
  - cbn [forEach] in Hrun. unfold bind in Hrun.
    destruct (handUpdate hypot now hand0 i st) as [[[]|err] s1] eqn:H1;
      [| discriminate].
    destruct (fingers_tracked hand0 i now fingers fingers_NoDup _ _ _ H1)
      as [A1 B1].
    destruct (IH _ _ _ Hrun) as [A2 B2].
    split.
    + intros [|k] hand tip pip p Hk Hin Hp.
      * injection Hk as <-. rewrite B2.
        -- rewrite Nat.add_0_r. exact (A1 tip pip p Hin Hp).
        -- intros k tip' pip' _ Hin' Heq.
           apply fingers_tips in Hin, Hin'. unfold fingerId in Heq. lia.
      * replace (i + S k)%nat with (S i + k)%nat by lia.
        exact (A2 k hand tip pip p Hk Hin Hp).
    + intros id Hid. rewrite B2, B1; [reflexivity | |].
      * intros tip pip Hin. rewrite <- (Nat.add_0_r i).
        apply (Hid 0%nat tip pip); [cbn [length]; lia | exact Hin].
      * intros k tip pip Hk Hin.
        replace (S i + k)%nat with (i + S k)%nat by lia.
        apply (Hid (S k) tip pip); [cbn [length]; lia | exact Hin].
Qed.

(** X14.  Tracking: when [processPhysics] returns, the entry of every
    finger of every detected hand holds the mirrored position [1 - x] of
    its tip and the time of the frame, for open and closed fingers alike;
    the entries of all other finger ids, those of hands no longer detected
    included, are left as they were: no entry is ever removed. *)
Theorem frame_tracks (hands : list Hand) (now : float) (st st' : Physics) :
  processPhysics hypot true hands now st = (Ok tt, st') ->
  (forall (h : nat) (hand : Hand) (tip pip : nat) (p : Landmark),
     hands !! h = Some hand -> (tip, pip) ∈ fingers -> hand !! tip = Some p ->
     lastFingerData st' !! fingerId h tip
     = Some {| last_x := 1.0 - lx p; time := now |}) /\
  (forall id : nat,
     (forall h tip pip : nat,
        (h < length hands)%nat -> (tip, pip) ∈ fingers -> id <> fingerId h tip) ->
     lastFingerData st' !! id = lastFingerData st !! id).
Proof.
  intros Hrun. exact (hands_tracked now hands 0 st st' Hrun).
Qed.

(** X15.  The fingers of all hands have entries of their own: two fingers
    share a finger id only if they are the same finger of the same hand,
    and the update of one finger, whatever its outcome, leaves the entry of
    every other finger untouched. *)
Theorem finger_entries_separate (landmarks : Hand) (h1 h2 : nat) (now : float)
    (tip1 pip1 tip2 pip2 : nat) (st : Physics) :
  (tip1, pip1) ∈ fingers -> (tip2, pip2) ∈ fingers ->
  (fingerId h1 tip1 = fingerId h2 tip2 -> h1 = h2 /\ tip1 = tip2 /\ pip1 = pip2) /\
  ((h1, tip1) <> (h2, tip2) ->
   lastFingerData (snd (fingerUpdate hypot landmarks h1 now (tip1, pip1) st))
     !! fingerId h2 tip2
   = lastFingerData st !! fingerId h2 tip2).
Proof.
  intros H1 H2.
  assert (Hinj : fingerId h1 tip1 = fingerId h2 tip2 -> h1 = h2 /\ tip1 = tip2).
  { intros Heq. pose proof (fingers_tips _ _ H1). pose proof (fingers_tips _ _ H2).
    unfold fingerId in Heq. lia. }
  split.
  - intros Heq. destruct (Hinj Heq) as [-> ->].
    repeat split. exact (fingers_pip _ _ _ H1 H2).
  - intros Hne. apply fingerUpdate_others. intros Heq.
    destruct (Hinj (eq_sym Heq)) as [-> ->]. contradiction.
Qed.

(** *** Fingers seen for the first time *)

(** Up to the state [st] nothing was called or debounced since [st0], and
    every finger id with an entry is below [b]. *)
Lemma unseen_step (st0 : Physics) (landmarks : Hand) (handIndex : nat)
    (now : float) (tip pip : nat) (b : nat) (st : Physics) :
  (b <= fingerId handIndex tip)%nat ->
  triggerStringCalls st = triggerStringCalls st0 /\
  stringDebounce st = stringDebounce st0 /\
  (forall id, is_Some (lastFingerData st !! id) -> (id < b)%nat) ->
  let st' := snd (fingerUpdate hypot landmarks handIndex now (tip, pip) st) in
  triggerStringCalls st' = triggerStringCalls st0 /\
  stringDebounce st' = stringDebounce st0 /\
  (forall id, is_Some (lastFingerData st' !! id) ->
              (id < S (fingerId handIndex tip))%nat).
Proof.
  intros Hb (Hc & Hd & Hk). cbv zeta.
  destruct (fingerUpdate_cases landmarks handIndex now tip pip st)
    as [-> | (p & _ & [-> | (lastData & Hlast & _)])].
  - repeat (split; [assumption |]). intros id H. apply Hk in H. lia.
  - cbn [triggerStringCalls stringDebounce lastFingerData set_lastFingerData].
    repeat (split; [assumption |]). intros id H.
    destruct (decide (id = fingerId handIndex tip)) as [-> | Hne]; [lia |].
    rewrite lookup_insert_ne in H by congruence. apply Hk in H. lia.
  - assert (Hsome : is_Some (lastFingerData st !! fingerId handIndex tip))
      by (rewrite Hlast; eauto).
    apply Hk in Hsome. lia.
Qed.

Lemma unseen_hand (st0 : Physics) (landmarks : Hand) (handIndex : nat)
    (now : float) (st : Physics) :
  triggerStringCalls st = triggerStringCalls st0 /\
  stringDebounce st = stringDebounce st0 /\
  (forall id, is_Some (lastFingerData st !! id) -> (id < handIndex * 100)%nat) ->
  let st' := snd (handUpdate hypot now landmarks handIndex st) in
  triggerStringCalls st' = triggerStringCalls st0 /\
  stringDebounce st' = stringDebounce st0 /\
  (forall id, is_Some (lastFingerData st' !! id) ->
              (id < S handIndex * 100)%nat).
Proof.
  intros H0. cbv zeta. unfold handUpdate, fingers. cbn [forEach].
  assert (Hweak : forall b st,
            (b <= S handIndex * 100)%nat ->
            triggerStringCalls st = triggerStringCalls st0 /\
            stringDebounce st = stringDebounce st0 /\
            (forall id, is_Some (lastFingerData st !! id) -> (id < b)%nat) ->
            triggerStringCalls st = triggerStringCalls st0 /\
            stringDebounce st = stringDebounce st0 /\
            (forall id, is_Some (lastFingerData st !! id) ->
                        (id < S handIndex * 100)%nat)).
  { intros b s Hb (Hc & Hd & Hk). repeat (split; [assumption |]).
    intros id Hid. apply Hk in Hid. lia. }
  unfold bind.
  pose proof (unseen_step st0 landmarks handIndex now 8 6 (handIndex * 100) st
                ltac:(unfold fingerId; lia) H0) as H1. cbv zeta in H1.
  destruct (fingerUpdate hypot landmarks handIndex now (8, 6)%nat st)
    as [[[]|err] s1]; cbn [snd] in *;
    [| apply (Hweak (S (fingerId handIndex 8)) _ ltac:(unfold fingerId; lia) H1)].
  pose proof (unseen_step st0 landmarks handIndex now 12 10 (S (fingerId handIndex 8)) s1
                ltac:(unfold fingerId; lia) H1) as H2. cbv zeta in H2.
  destruct (fingerUpdate hypot landmarks handIndex now (12, 10)%nat s1)
    as [[[]|err] s2]; cbn [snd] in *;
    [| apply (Hweak (S (fingerId handIndex 12)) _ ltac:(unfold fingerId; lia) H2)].
  pose proof (unseen_step st0 landmarks handIndex now 16 14 (S (fingerId handIndex 12)) s2
                ltac:(unfold fingerId; lia) H2) as H3. cbv zeta in H3.
  destruct (fingerUpdate hypot landmarks handIndex now (16, 14)%nat s2)
    as [[[]|err] s3]; cbn [snd] in *;
    [| apply (Hweak (S (fingerId handIndex 16)) _ ltac:(unfold fingerId; lia) H3)].
  pose proof (unseen_step st0 landmarks handIndex now 20 18 (S (fingerId handIndex 16)) s3
                ltac:(unfold fingerId; lia) H3) as H4. cbv zeta in H4.
  destruct (fingerUpdate hypot landmarks handIndex now (20, 18)%nat s3)
    as [[[]|err] s4]; cbn [snd] in *;
    apply (Hweak (S (fingerId handIndex 20)) _ ltac:(unfold fingerId; lia) H4).
Qed.

Lemma unseen_hands (st0 : Physics) (now : float) (hands : list Hand) :
  forall (i : nat) (st : Physics),
    triggerStringCalls st = triggerStringCalls st0 /\
    stringDebounce st = stringDebounce st0 /\
    (forall id, is_Some (lastFingerData st !! id) -> (id < i * 100)%nat) ->
    let st' := snd (forEach (handUpdate hypot now) hands i st) in
    triggerStringCalls st' = triggerStringCalls st0 /\
    stringDebounce st' = stringDebounce st0.
Proof.
  induction hands as [|hand hands IH]; intros i st H; cbv zeta.
  - cbn. destruct H as (? & ? & _). auto.
  - cbn [forEach]. unfold bind.
    pose proof (unseen_hand st0 hand i now st H) as H1. cbv zeta in H1.
    destruct (handUpdate hypot now hand i st) as [[[]|err] s1]; cbn [snd] in *.
    + apply (IH (S i) s1 H1).
    + destruct H1 as (? & ? & _). auto.
Qed.

(** X16.  A frame that starts with no finger entry stored (the first frame
    after the page has loaded) never triggers: no call is made and no
    debounce entry changes, for any number of hands, whatever their
    landmarks, and whether the frame returns or throws. *)
Theorem first_frame_silent (audioEngine : bool) (hands : list Hand)
    (now : float) (st : Physics) :
  lastFingerData st = ∅ ->
  let st' := snd (processPhysics hypot audioEngine hands now st) in
  triggerStringCalls st' = triggerStringCalls st /\
  stringDebounce st' = stringDebounce st.
Proof.
  intros Hempty. cbv zeta. unfold processPhysics.
  destruct audioEngine; cbn [negb]; [| split; reflexivity].
  apply (unseen_hands st now hands 0 st).
  repeat (split; [reflexivity |]).
  intros id H. rewrite Hempty, lookup_empty in H. destruct H as [? H].
  discriminate H.
Qed.

End Invariants.

Lemma first_frame_silent_witness :
  triggerStringCalls
    (snd (processPhysics Examples.hypot true
            [Examples.hand 0.95 0.5; Examples.hand 0.2 0.5] 1000 initial))
  = [].
Proof.
  exact (proj1 (first_frame_silent Examples.hypot true
                  [Examples.hand 0.95 0.5; Examples.hand 0.2 0.5] 1000 initial
                  eq_refl)).
Defined.

Lemma frame_tracks_witness :
  lastFingerData
    (snd (processPhysics Examples.hypot true [Examples.hand 0.95 0.5] 1000
            initial)) !! 12%nat
  = Some {| last_x := 1.0 - 0.95; time := 1000 |}.
Proof.
  refine (proj1 (frame_tracks Examples.hypot [Examples.hand 0.95 0.5] 1000
                   initial _ _) 0%nat (Examples.hand 0.95 0.5) 12%nat 10%nat
            {| lx := 0.95; ly := 0.5 + 0.4 |} _ _ _).
  - vm_compute. reflexivity.
  - reflexivity.
  - apply list_elem_of_lookup. exists 1%nat. reflexivity.
  - reflexivity.
Defined.

Lemma finger_entries_separate_witness :
  lastFingerData
    (snd (fingerUpdate Examples.hypot (Examples.hand 0.8 0.5) 0 1010 (8, 6)%nat
            (Examples.seen 108 0.05 1000))) !! 108%nat
  = Some {| last_x := 0.05; time := 1000 |}.
Proof.
  refine (proj2 (finger_entries_separate Examples.hypot (Examples.hand 0.8 0.5)
                   0 1 1010 8 6 8 6 (Examples.seen 108 0.05 1000) _ _) _).
  - apply list_elem_of_lookup. exists 0%nat. reflexivity.
  - apply list_elem_of_lookup. exists 0%nat. reflexivity.
  - intros H. discriminate H.
Defined.

Lemma stale_frame_silent_witness :
  let st := snd (processPhysics Examples.hypot true [Examples.hand 0.95 0.5]
                   1000 initial) in
  triggerStringCalls
    (snd (processPhysics Examples.hypot true [Examples.hand 0.8 0.5] 1000 st))
  = [].
Proof.
  cbv zeta.
  refine (proj1 (stale_frame_silent Examples.hypot true [Examples.hand 0.8 0.5]
                   1000 _ _)).
  refine (proj1 (not_before_silent Examples.hypot 1000 initial true
                   [Examples.hand 0.95 0.5] initial _)).
  split; [| split; reflexivity].
  intros id d H. cbn [lastFingerData initial] in H.
  rewrite lookup_empty in H. discriminate.
Defined.

End FrameFacts.

(** ** From trigger calls to voices *)

Module PlayerFacts.

Import JS AudioEngine App Graph Frames.
Local Open Scope float_scope.

Lemma note_of_lookup (instrument : Types.InstrumentState) (index : nat) :
  Types.notes instrument <> [] ->
  Types.notes instrument !! (index mod length (Types.notes instrument))%nat
  = Some (note_of instrument index).
Proof.
  intros Hne. unfold note_of.
  destruct (lookup_lt_is_Some_2 (Types.notes instrument)
              (index mod length (Types.notes instrument))%nat) as [n Hn].
  - apply Nat.mod_upper_bound. destruct (Types.notes instrument);
      [contradiction | discriminate].
  - rewrite Hn. reflexivity.
Qed.

(** X17.  The note of a string: with a non-empty note list the string
    index is taken modulo the length of the list, so every index gives a
    note of the list and indices that differ by the length give the same
    note; with an empty note list every string gets the property key
    ["undefined"], which the engine plays at 440 Hz. *)
Theorem note_of_wraps (instrument : Types.InstrumentState) (index : nat) :
  (Types.notes instrument <> [] ->
   note_of instrument index ∈ Types.notes instrument /\
   Types.notes instrument !! (index mod length (Types.notes instrument))%nat
   = Some (note_of instrument index) /\
   note_of instrument (index + length (Types.notes instrument))
   = note_of instrument index) /\
  (Types.notes instrument = [] ->
   note_of instrument index = "undefined"%string /\
   noteToFreq (note_of instrument index) = VNumber 440).
Proof.
  split.
  - intros Hne. pose proof (note_of_lookup instrument index Hne) as Hlook.
    split; [eapply list_elem_of_lookup_2, Hlook |]. split; [exact Hlook |].
    unfold note_of. f_equal. f_equal.
    rewrite <- (Nat.mul_1_l (length (Types.notes instrument))) at 1.
    apply Nat.Div0.mod_add.
  - intros Hnil. unfold note_of. rewrite Hnil. cbn [length].
    rewrite lookup_nil. cbn [default]. split; [reflexivity |].
    vm_compute. reflexivity.
Qed.

Lemma played_fields (note : string) (c : AudioContext) (e : Engine) :
  config (Scheduled.played note c e) = config e /\
  ctx (Scheduled.played note c e) = ctx e /\
  masterGain (Scheduled.played note c e) = masterGain e /\
  connections (Scheduled.played note c e) = connections e /\
  voices (Scheduled.played note c e)
  = voices e ++ [Scheduled.voice (config e) (ToNumber (noteToFreq note))
                   (currentTime c)].
Proof.
  destruct (VoiceFacts.resumed_fields c e) as (H1 & H2 & H3 & _ & _ & _ & _ & H8).
  unfold Scheduled.played.
  cbn [config ctx masterGain connections voices set_voices]. auto.
Qed.

(** [triggerString] when the engine accepts the note. *)
Lemma triggerString_ok (clock : float) (index : nat) (p : Player) (e : Engine)
    (c : AudioContext) (mg : AudioParam) :
  audioEngine p = Some e -> ctx e = Some c -> masterGain e = Some mg ->
  Scheduled.accepted (config e)
    (ToNumber (noteToFreq (note_of (instrument p) index))) (currentTime c) = true ->
  triggerString clock index p
  = (Ok tt,
     {| audioEngine := Some (Scheduled.played (note_of (instrument p) index) c e);
        instrument := instrument p;
        activeStrings := <[index := clock]> (activeStrings p) |}).
Proof.
  intros Ha Hc Hm Hok. unfold triggerString.
  rewrite Calls.bind_read, Ha.
  rewrite (AudioEngineFacts.playNote_accepted _ _ _ _ Hc Hm Hok).
  cbv iota beta.
  rewrite Calls.bind_modify, Calls.bind_lift_ok. reflexivity.
Qed.

Lemma dispatch_run (clock : float) (calls : list (nat * float))
    (instr : Types.InstrumentState) (c : AudioContext) (mg : AudioParam) :
  forall (i : nat) (p : Player) (e : Engine),
    instrument p = instr ->
    audioEngine p = Some e -> ctx e = Some c -> masterGain e = Some mg ->
    (forall call, call ∈ calls ->
       Scheduled.accepted (config e)
         (ToNumber (noteToFreq (note_of instr call.1))) (currentTime c) = true) ->
    exists e' : Engine,
      forEach (fun call _ => triggerString clock (fst call)) calls i p
      = (Ok tt, {| audioEngine := Some e'; instrument := instr;
                   activeStrings := marked clock calls (activeStrings p) |}) /\
      voices e' =
        voices e
        ++ map (fun call =>
                  Scheduled.voice (config e)
                    (ToNumber (noteToFreq (note_of instr call.1))) (currentTime c))
             calls /\
      config e' = config e /\ ctx e' = ctx e /\ masterGain e' = masterGain e /\
      connections e' = connections e.
Proof.
  induction calls as [|call calls IH]; intros i p e Hi Ha Hc Hm Hok.
  - exists e. cbn [forEach marked fold_left map]. rewrite app_nil_r.
    split; [| auto]. unfold ret. destruct p. cbn in *. subst. reflexivity.
  - cbn [forEach].
    assert (Hok1 : Scheduled.accepted (config e)
              (ToNumber (noteToFreq (note_of (instrument p) call.1)))
              (currentTime c) = true).
    { rewrite Hi. apply Hok. apply elem_of_cons. auto. }
    rewrite (Calls.bind_step _ _ _ _ _
               (triggerString_ok clock call.1 p e c mg Ha Hc Hm Hok1)).
    destruct (played_fields (note_of (instrument p) call.1) c e)
      as (F1 & F2 & F3 & F4 & F5).
    destruct (IH (S i)
                {| audioEngine :=
                     Some (Scheduled.played (note_of (instrument p) call.1) c e);
                   instrument := instrument p;
                   activeStrings := <[call.1 := clock]> (activeStrings p) |}
                (Scheduled.played (note_of (instrument p) call.1) c e))
      as (e' & Hrun & Hv & G1 & G2 & G3 & G4);
      [exact Hi | reflexivity | congruence | congruence | |].
    + intros call' Hin. rewrite F1. apply Hok. apply elem_of_cons. auto.
    + exists e'. split; [exact Hrun |].
      split; [| repeat split; congruence].
      rewrite Hv, F5, F1, Hi, <- app_assoc. reflexivity.
Qed.

(** X18.  From the calls of a frame to the sound: when the engine is ready
    and accepts the notes, running the recorded calls returns normally, adds
    one voice per call, in call order, each with the table frequency of the
    note that [notes[s % notes.length]] gives for its string, stores the
    clock value as the activity time of each called string, and leaves the
    configuration and the persistent graph alone. *)
Theorem dispatch_plays (clock : float) (calls : list (nat * float))
    (p : Player) (e : Engine) (c : AudioContext) (mg : AudioParam) :
  audioEngine p = Some e -> ctx e = Some c -> masterGain e = Some mg ->
  (forall call, call ∈ calls ->
     (call.1 < length (activeStrings p))%nat /\
     Scheduled.accepted (config e)
       (ToNumber (noteToFreq (note_of (instrument p) call.1))) (currentTime c)
     = true) ->
  exists e' : Engine,
    dispatch clock calls p
    = (Ok tt, {| audioEngine := Some e'; instrument := instrument p;
                 activeStrings := marked clock calls (activeStrings p) |}) /\
    voices e' =
      voices e
      ++ map (fun call =>
                Scheduled.voice (config e)
                  (ToNumber (noteToFreq (note_of (instrument p) call.1)))
                  (currentTime c))
           calls /\
    config e' = config e /\ ctx e' = ctx e /\ masterGain e' = masterGain e /\
    connections e' = connections e.
Proof.
  intros Ha Hc Hm Hok.
  apply (dispatch_run clock calls (instrument p) c mg 0 p e eq_refl Ha Hc Hm).
  intros call Hin. apply (Hok call Hin).
Qed.

Lemma dispatch_plays_witness :
  exists e' : Engine,
    dispatch 5000 [(0%nat, 1010); (1%nat, 1010)] (Cases.player Types.harp)
    = (Ok tt, {| audioEngine := Some e'; instrument := Types.harp;
                 activeStrings := [5000; 5000; 0; 0; 0; 0; 0; 0; 0; 0; 0; 0] |}) /\
    map (events ∘ osc_frequency) (voices e')
    = [ [SetValueAtTime 261.63 2]; [SetValueAtTime 293.66 2] ].
Proof.
  destruct (dispatch_plays 5000 [(0%nat, 1010); (1%nat, 1010)]
              (Cases.player Types.harp)
              (set_config Types.DEFAULT_CONFIG (Examples.engine_at 2))
              (Cases.context 2 Running) (fixed 0.6))
    as (e' & Hrun & Hv & _); try reflexivity.
  - intros call Hin.
    repeat (apply elem_of_cons in Hin as [-> | Hin];
            [split; [cbn; lia | vm_compute; reflexivity] |]).
    apply elem_of_nil in Hin. contradiction.
  - exists e'. split; [exact Hrun |]. rewrite Hv. vm_compute. reflexivity.
Defined.

(** X19.  What [triggerString] does when it cannot play: without an engine
    it returns at once and marks nothing; with a ready engine and a note
    name inherited from [Object.prototype] the TypeError of [playNote]
    passes through it, the string is not marked active, and the engine
    keeps only the resume request. *)
Theorem triggerString_failures (clock : float) (index : nat) (p : Player) :
  (audioEngine p = None -> triggerString clock index p = (Ok tt, p)) /\
  (forall (e : Engine) (c : AudioContext) (mg : AudioParam),
     audioEngine p = Some e -> ctx e = Some c -> masterGain e = Some mg ->
     note_of (instrument p) index ∈ Object_prototype_keys ->
     triggerString clock index p
     = (Throw TypeError,
        {| audioEngine := Some (Scheduled.resumed c e);
           instrument := instrument p;
           activeStrings := activeStrings p |})).
Proof.
  split.
  - intros Ha. unfold triggerString. rewrite Calls.bind_read, Ha. reflexivity.
  - intros e c mg Ha Hc Hm Hin. unfold triggerString.
    rewrite Calls.bind_read, Ha.
    rewrite (AudioEngineFacts.playNote_inherited_throws _ _ _ _ Hin Hc Hm).
    cbv iota beta.
    rewrite Calls.bind_modify, Calls.bind_lift_throw. reflexivity.
Qed.

Lemma triggerString_failures_witness :
  fst (triggerString 5000 1 (Cases.player Cases.odd_notes)) = Throw TypeError /\
  activeStrings (snd (triggerString 5000 1 (Cases.player Cases.odd_notes)))
  = replicate NUM_STRINGS 0.
Proof.
  rewrite (proj2 (triggerString_failures 5000 1 (Cases.player Cases.odd_notes))
             (set_config Types.DEFAULT_CONFIG (Examples.engine_at 2))
             (Cases.context 2 Running) (fixed 0.6) eq_refl eq_refl eq_refl).
  - split; reflexivity.
  - apply list_elem_of_lookup. exists 0%nat. reflexivity.
Defined.

End PlayerFacts.

(** ** The presets *)

Module PresetFacts.

Import JS AudioEngine App Graph Presets.
Local Open Scope float_scope.

(** The value checks and the time checks together are the checks of
    [playNote]. *)
Lemma ramp_ok_time (v t : float) :
  is_float v = true -> negb (is_zero v) = true -> Scheduled.is_time t = true ->
  Scheduled.ramp_ok v t = true.
Proof.
  unfold Scheduled.ramp_ok, Scheduled.is_time. intros -> -> Ht.
  apply andb_prop in Ht as [-> ->]. reflexivity.
Qed.

Lemma accepted_split (cfg : SynthConfig) (freq t : float) :
  values_ok cfg freq = true -> times_ok cfg t = true ->
  Scheduled.accepted cfg freq t = true.
Proof.
  unfold values_ok, times_ok. intros Hv Ht.
  apply andb_prop in Hv as [Hv Hnz]. apply andb_prop in Hv as [Hv Hsus].
  apply andb_prop in Hv as [Hv Hgain]. apply andb_prop in Hv as [Hv Hfilter].
  apply andb_prop in Hv as [Hfreq Hdetune].
  apply andb_prop in Ht as [Ht T4]. apply andb_prop in Ht as [Ht T3].
  apply andb_prop in Ht as [Ht T2]. apply andb_prop in Ht as [T0 T1].
  unfold Scheduled.accepted, Scheduled.call_ok.
  rewrite (ramp_ok_time _ _ Hsus Hnz T2).
  rewrite (ramp_ok_time 0.0001 _ eq_refl eq_refl T3).
  rewrite Hfreq, Hfilter, Hgain, T0, T1, T4.
  replace (is_float 0) with true by reflexivity.
  destruct (detune_set cfg); [rewrite Hdetune |];
    destruct (attack cfg <? 0.005); reflexivity.
Qed.

Lemma values_ok_freq (cfg : SynthConfig) (f : float) :
  is_float f = true -> values_ok cfg 440 = true -> values_ok cfg f = true.
Proof.
  unfold values_ok. intros ->.
  replace (is_float 440) with true by reflexivity. auto.
Qed.

(** Every preset has twelve notes, all of them names of the note table, and
    a configuration whose values pass the checks of the audio interface. *)
Lemma presets_checked :
  forallb (fun p : Types.InstrumentState =>
             (length (Types.notes p) =? 12)%nat
             && forallb (fun n => match noteMap !! n with
                                  | Some _ => true
                                  | None => false
                                  end) (Types.notes p)
             && values_ok (Types.config p) 440
             && is_float (delayMix (Types.config p)))
    INSTRUMENT_PRESETS = true.
Proof. vm_compute. reflexivity. Qed.

(** The engine accepts the note of every string of a preset, at a context
    time for which the derived times are valid. *)
Lemma preset_accepted (p : Types.InstrumentState) (index : nat) (t : float) :
  p ∈ INSTRUMENT_PRESETS ->
  times_ok (Types.config p) t = true ->
  Scheduled.accepted (Types.config p)
    (ToNumber (noteToFreq (note_of p index))) t = true.
Proof.
  intros Hp Ht.
  pose proof presets_checked as Hall. rewrite forallb_forall in Hall.
  specialize (Hall p (proj1 (list_elem_of_In _ _) Hp)).
  apply andb_prop in Hall as [Hall _]. apply andb_prop in Hall as [Hall Hval].
  apply andb_prop in Hall as [Hlen Hnotes].
  apply Nat.eqb_eq in Hlen.
  assert (Hne : Types.notes p <> []) by (intros H; rewrite H in Hlen; discriminate).
  pose proof (PlayerFacts.note_of_lookup p index Hne) as Hlook.
  apply list_elem_of_lookup_2 in Hlook.
  rewrite forallb_forall in Hnotes.
  specialize (Hnotes _ (proj1 (list_elem_of_In _ _) Hlook)).
  destruct (noteMap !! note_of p index) as [f|] eqn:Hf; [| discriminate].
  assert (Hin : (note_of p index, f) ∈ noteTable)
    by (apply elem_of_list_to_map_2; exact Hf).
  rewrite (AudioEngineFacts.noteToFreq_table _ _ Hin). cbn [ToNumber].
  apply accepted_split; [| exact Ht].
  apply values_ok_freq; [| exact Hval].
  assert (Hfl : forallb (fun q => is_float q.2) noteTable = true)
    by (vm_compute; reflexivity).
  rewrite forallb_forall in Hfl.
  apply (Hfl (note_of p index, f)). apply list_elem_of_In, Hin.
Qed.

(** X20.  Every string of every preset is playable: each preset has twelve
    notes, one per string; the note of every string is a name of the note
    table, so no string falls back to 440 Hz; and on an initialised engine
    that holds the preset's configuration, at a context time for which the
    derived times are valid, [playNote] returns normally for every string
    and adds the voice with the table frequency. *)
Theorem presets_playable (p : Types.InstrumentState) (index : nat) (e : Engine)
    (c : AudioContext) (mg : AudioParam) :
  p ∈ INSTRUMENT_PRESETS ->
  ctx e = Some c -> masterGain e = Some mg -> config e = Types.config p ->
  times_ok (Types.config p) (currentTime c) = true ->
  length (Types.notes p) = NUM_STRINGS /\
  exists f : float,
    (note_of p index, f) ∈ noteTable /\
    playNote (note_of p index) e
    = (Ok tt,
       set_voices (voices e ++ [Scheduled.voice (Types.config p) f (currentTime c)])
         (Scheduled.resumed c e)).
Proof.
  intros Hp Hc Hm Hcfg Ht.
  pose proof presets_checked as Hall. rewrite forallb_forall in Hall.
  specialize (Hall p (proj1 (list_elem_of_In _ _) Hp)).
  apply andb_prop in Hall as [Hall Hmix]. apply andb_prop in Hall as [Hall Hval].
  apply andb_prop in Hall as [Hlen Hnotes].
  apply Nat.eqb_eq in Hlen. split; [exact Hlen |].
  assert (Hne : Types.notes p <> []) by (intros H; rewrite H in Hlen; discriminate).
  pose proof (PlayerFacts.note_of_lookup p index Hne) as Hlook.
  apply list_elem_of_lookup_2 in Hlook.
  rewrite forallb_forall in Hnotes.
  specialize (Hnotes _ (proj1 (list_elem_of_In _ _) Hlook)).
  destruct (noteMap !! note_of p index) as [f|] eqn:Hf; [| discriminate].
  assert (Hin : (note_of p index, f) ∈ noteTable)
    by (apply elem_of_list_to_map_2; exact Hf).
  exists f. split; [exact Hin |].
  pose proof (AudioEngineFacts.noteToFreq_table _ _ Hin) as Hfreq.
  assert (Hfloat : is_float f = true).
  { assert (Hfl : forallb (fun q => is_float q.2) noteTable = true)
      by (vm_compute; reflexivity).
    rewrite forallb_forall in Hfl.
    apply (Hfl (note_of p index, f)). apply list_elem_of_In, Hin. }
  rewrite (AudioEngineFacts.playNote_accepted _ _ _ _ Hc Hm).
  - unfold Scheduled.played. rewrite Hfreq, Hcfg. reflexivity.
  - rewrite Hfreq, Hcfg. cbn [ToNumber].
    apply accepted_split; [apply values_ok_freq; assumption | exact Ht].
Qed.

Lemma presets_playable_witness :
  exists f : float,
    (note_of koto 25, f) ∈ noteTable /\
    map (events ∘ osc_frequency)
      (voices (snd (playNote (note_of koto 25)
                      (set_config (Types.config koto) (Examples.engine_at 2)))))
    = [ [SetValueAtTime f 2] ].
Proof.
  destruct (presets_playable koto 25
              (set_config (Types.config koto) (Examples.engine_at 2))
              (Cases.context 2 Running) (fixed 0.6))
    as (_ & f & Hin & Hrun); try reflexivity.
  - apply list_elem_of_lookup. exists 3%nat. reflexivity.
  - exists f. split; [exact Hin |]. rewrite Hrun. reflexivity.
Defined.

(** X21.  Selecting a preset on an initialised engine never throws: the
    [delayMix] of every preset is a valid [float], so [updateConfig]
    replaces the configuration, schedules the preset's delay mix on the
    delay-mix gain at the current context time with the time constant 0.1,
    and returns normally. *)
Theorem preset_selected (p : Types.InstrumentState) (e : Engine)
    (c : AudioContext) (dg : AudioParam) :
  p ∈ INSTRUMENT_PRESETS ->
  ctx e = Some c -> delayGain e = Some dg ->
  Scheduled.is_time (currentTime c) = true ->
  exists e' : Engine,
    updateConfig (Types.config p) e = (Ok tt, e') /\
    config e' = Types.config p /\
    delayGain e' =
      Some (schedule dg
              (SetTargetAtTime (delayMix (Types.config p)) (currentTime c) 0.1)) /\
    voices e' = voices e /\ connections e' = connections e.
Proof.
  intros Hp Hc Hd Ht.
  pose proof presets_checked as Hall. rewrite forallb_forall in Hall.
  specialize (Hall p (proj1 (list_elem_of_In _ _) Hp)).
  apply andb_prop in Hall as [_ Hmix].
  unfold Scheduled.is_time in Ht. apply andb_prop in Ht as [Hdbl Hneg].
  apply negb_true_iff in Hneg.
  rewrite (ConfigFacts.updateConfig_run _ _ _ _ Hc Hd), Hmix, Hdbl, Hneg.
  eexists. split; [reflexivity |]. repeat split.
Qed.

Lemma preset_selected_witness :
  exists e' : Engine,
    updateConfig (Types.config pad) (Examples.engine_at 2) = (Ok tt, e') /\
    delayGain e' = Some {| value := 0.3; events := [SetTargetAtTime 0.6 2 0.1] |}.
Proof.
  destruct (preset_selected pad (Examples.engine_at 2) (Cases.context 2 Running)
              (fixed 0.3))
    as (e' & Hrun & _ & Hdg & _); try reflexivity.
  - apply list_elem_of_lookup. exists 4%nat. reflexivity.
  - exists e'. split; [exact Hrun | exact Hdg].
Defined.

End PresetFacts.

(** ** The wired trigger engine and the frame loop *)

Module WiredFacts.

Import JS App Triggers Frames Wired.
Local Open Scope float_scope.
Local Open Scope js_scope.

(** A player that plays returns from every call of [triggerString], and
    still plays. *)
Lemma triggerString_plays (c : float) (index : nat) (p : Player) :
  plays p ->
  exists p' : Player,
    App.triggerString c index p = (Ok tt, p') /\
    instrument p' = instrument p /\
    plays p'.
Proof.
  intros Hp. destruct (audioEngine p) as [e|] eqn:Ha.
  - destruct (AudioEngine.ctx e) as [c0|] eqn:Hc;
      [destruct (AudioEngine.masterGain e) as [mg|] eqn:Hm |].
    + rewrite (PlayerFacts.triggerString_ok c index p e c0 mg Ha Hc Hm
                 (Hp e c0 mg Ha Hc Hm index)).
      eexists. split; [reflexivity |]. cbn [instrument audioEngine].
      split; [reflexivity |].
      intros e' c' mg' He' Hc' Hm' i. injection He' as <-.
      destruct (PlayerFacts.played_fields (note_of (instrument p) index) c0 e)
        as (F1 & F2 & F3 & _).
      rewrite F1. rewrite F2, Hc in Hc'. injection Hc' as <-.
      apply (Hp e c0 mg Ha Hc Hm).
    + unfold App.triggerString. rewrite Calls.bind_read, Ha.
      rewrite AudioEngineFacts.playNote_not_ready by auto. cbv iota beta.
      rewrite Calls.bind_modify, Calls.bind_lift_ok.
      eexists. split; [reflexivity |]. cbn [instrument audioEngine].
      split; [reflexivity |].
      intros e' c' mg' He' Hc' Hm' i. injection He' as <-. congruence.
    + unfold App.triggerString. rewrite Calls.bind_read, Ha.
      rewrite AudioEngineFacts.playNote_not_ready by auto. cbv iota beta.
      rewrite Calls.bind_modify, Calls.bind_lift_ok.
      eexists. split; [reflexivity |]. cbn [instrument audioEngine].
      split; [reflexivity |].
      intros e' c' mg' He' Hc' Hm' i. injection He' as <-. congruence.
  - unfold App.triggerString. rewrite Calls.bind_read, Ha.
    exists p. split; [reflexivity |]. split; [reflexivity |]. exact Hp.
Qed.

Section Agreement.

Variable hypot : float -> float -> float.
Variable clock : nat -> float.

Lemma replay_app (k : nat) (new1 new2 : list (nat * float)) (p : Player) :
  replay clock k (new1 ++ new2) p
  = replay clock (k + length new1) new2 (replay clock k new1 p).
Proof.
  revert k p. induction new1 as [|call new1 IH]; intros k p.
  - cbn. rewrite Nat.add_0_r. reflexivity.
  - cbn [app replay length]. rewrite IH. f_equal. lia.
Qed.

Lemma agrees_ext {A} (m : M World A) (a a' : M Physics A) :
  (forall st, a st = a' st) -> agrees clock m a -> agrees clock m a'.
Proof.
  intros Hext H w Hp. destruct (H w Hp) as (w' & new & H1 & H2 & H3 & H4 & H5).
  exists w', new. rewrite <- Hext. auto.
Qed.

Lemma agrees_ret {A} (x : A) : agrees clock (ret x) (ret x).
Proof.
  intros w Hp. exists w, []. rewrite app_nil_r. cbn. auto.
Qed.

Lemma agrees_lift {A} (o : outcome A) : agrees clock (lift o) (lift o).
Proof.
  intros w Hp. exists w, []. rewrite app_nil_r. cbn. auto.
Qed.

Lemma agrees_modify (f : Physics -> Physics) :
  (forall st, triggerStringCalls (f st) = triggerStringCalls st) ->
  agrees clock (modify (on_physics f)) (modify f).
Proof.
  intros Hf w Hp. exists (on_physics f w), [].
  rewrite app_nil_r. cbn. auto.
Qed.

Lemma agrees_bind {A B} (m : M World A) (a : M Physics A)
    (k : A -> M World B) (k' : A -> M Physics B) :
  agrees clock m a -> (forall x, agrees clock (k x) (k' x)) ->
  agrees clock (bind m k) (bind a k').
Proof.
  intros Hm Hk w Hp.
  destruct (Hm w Hp) as (w1 & new1 & H1 & H2 & H3 & H4 & H5).
  unfold bind. rewrite H1.
  destruct (a (physics w)) as [[x|err] st1] eqn:Ha; cbn [fst snd] in *.
  - destruct (Hk x w1 H5) as (w2 & new2 & G1 & G2 & G3 & G4 & G5).
    rewrite H2 in G1, G2. exists w2, (new1 ++ new2).
    split; [exact G1 |]. split; [exact G2 |].
    split; [rewrite G3, H3, app_assoc; reflexivity |].
    split; [| exact G5].
    rewrite G4, H4, H3, length_app, replay_app. reflexivity.
  - exists w1, new1. auto.
Qed.

Lemma agrees_read {A} (k : World -> M World A) (k' : Physics -> M Physics A) :
  (forall w, agrees clock (k w) (k' (physics w))) ->
  agrees clock (bind read k) (bind read k').
Proof.
  intros H w Hp. rewrite !Calls.bind_read. apply (H w w Hp).
Qed.

Lemma agrees_forEach {A} (f : A -> nat -> M World unit)
    (g : A -> nat -> M Physics unit) (xs : list A) :
  (forall x i, agrees clock (f x i) (g x i)) ->
  forall i, agrees clock (forEach f xs i) (forEach g xs i).
Proof.
  intros H. induction xs as [|x xs IH]; intros i; cbn [forEach].
  - apply agrees_ret.
  - apply agrees_bind; [apply H | intros _; apply IH].
Qed.

Lemma triggerString_run (index : nat) (now : float) (w : World) :
  plays (player w) ->
  exists p' : Player,
    App.triggerString (clock (length (triggerStringCalls (physics w)))) index
      (player w) = (Ok tt, p') /\
    plays p' /\
    triggerString clock index now w
    = (Ok tt, {| physics := call_triggerString index now (physics w);
                 player := p' |}).
Proof.
  intros Hp.
  destruct (triggerString_plays
              (clock (length (triggerStringCalls (physics w)))) index
              (player w) Hp) as (p' & Hrun & _ & Hp').
  exists p'. split; [exact Hrun |]. split; [exact Hp' |].
  unfold triggerString. rewrite Calls.bind_read, Calls.bind_modify.
  unfold in_player, on_physics. cbn [player physics]. rewrite Hrun.
  reflexivity.
Qed.

Lemma stringStep_agrees (lastData : FingerData) (x y now : float) (s : nat) :
  agrees clock (stringStep clock lastData x y now s)
    (modify (fun st => App.stringStep lastData x y now st s)).
Proof.
  intros w Hp. unfold stringStep, App.stringStep, modify. cbn [fst snd].
  destruct (crossedLeftToRight (last_x lastData) x (stringX s)
            || crossedRightToLeft (last_x lastData) x (stringX s));
    [| exists w, []; rewrite app_nil_r; cbn; auto].
  destruct (gt y 0.1 && (y <? 0.9));
    [| exists w, []; rewrite app_nil_r; cbn; auto].
  rewrite Calls.bind_read.
  destruct (gt (now - debounce_at (physics w) s) debounceTime);
    [| exists w, []; rewrite app_nil_r; cbn; auto].
  destruct (triggerString_run s now w Hp) as (p' & Hbody & Hp' & Hrun).
  rewrite (Calls.bind_step _ _ _ _ _ Hrun).
  eexists. exists [(s, now)]. split; [reflexivity |].
  cbn [physics player on_physics replay fst].
  rewrite Hbody. auto.
Qed.

Lemma forEach_modify {A} (step : Physics -> A -> Physics) (xs : list A) :
  forall (i : nat) (st : Physics),
    forEach (fun x _ => modify (fun st => step st x)) xs i st
    = modify (fold_left step xs) st.
Proof.
  induction xs as [|x xs IH]; intros i st; [reflexivity |].
  cbn [forEach fold_left]. rewrite Calls.bind_modify. apply IH.
Qed.

Lemma pluck_agrees (lastData : FingerData) (x y now : float) :
  agrees clock (pluck clock lastData x y now)
    (modify (App.pluck lastData x y now)).
Proof.
  unfold pluck, App.pluck.
  destruct (gt (velocity lastData x now) velocityThreshold).
  - eapply agrees_ext; [| apply agrees_forEach; intros s i;
                          apply stringStep_agrees].
    intros st. apply forEach_modify.
  - eapply agrees_ext; [| apply (agrees_ret tt)]. reflexivity.
Qed.

Lemma fingerUpdate_agrees (landmarks : Hand) (handIndex : nat) (now : float)
    (finger : nat * nat) :
  agrees clock (fingerUpdate hypot clock landmarks handIndex now finger)
    (App.fingerUpdate hypot landmarks handIndex now finger).
Proof.
  destruct finger as [tip pip]. unfold fingerUpdate, App.fingerUpdate.
  apply agrees_bind; [apply agrees_lift |]. intros open.
  destruct open; cbn [negb].
  - apply agrees_bind; [apply agrees_lift |]. intros p.
    apply agrees_read. intros w.
    apply agrees_bind.
    + destruct (lastFingerData (physics w) !! fingerId handIndex tip);
        [apply pluck_agrees | apply agrees_ret].
    + intros _. apply agrees_modify. reflexivity.
  - apply agrees_bind; [apply agrees_lift |]. intros p.
    apply agrees_modify. reflexivity.
Qed.

Lemma handUpdate_agrees (now : float) (landmarks : Hand) (handIndex : nat) :
  agrees clock (handUpdate hypot clock now landmarks handIndex)
    (App.handUpdate hypot now landmarks handIndex).
Proof.
  unfold handUpdate, App.handUpdate. apply agrees_forEach.
  intros finger _. apply fingerUpdate_agrees.
Qed.

(** With a player that plays, the physics step with [triggerString] run in
    place completes as the step with recorded calls does and leaves the
    same refs; the player is the one the bodies of the new calls leave. *)
Lemma processPhysics_agrees (hands : list Hand) (now : float) (w : World) :
  plays (player w) ->
  let a := App.processPhysics hypot
             match audioEngine (player w) with Some _ => true | None => false end hands now in
  exists (w' : World) (new : list (nat * float)),
    processPhysics hypot clock hands now w = (fst (a (physics w)), w') /\
    physics w' = snd (a (physics w)) /\
    triggerStringCalls (physics w')
    = triggerStringCalls (physics w) ++ new /\
    player w'
    = replay clock (length (triggerStringCalls (physics w))) new (player w) /\
    plays (player w').
Proof.
  intros Hp. cbv zeta. unfold processPhysics, App.processPhysics.
  rewrite Calls.bind_read.
  destruct (audioEngine (player w)); cbn [negb].
  - exact (agrees_forEach _ _ hands (handUpdate_agrees now) 0 w Hp).
  - exists w, []. rewrite app_nil_r. cbn. auto.
Qed.


End Agreement.

Section Partial.

Variable hypot : float -> float -> float.

Lemma forEach_app {St A} (f : A -> nat -> M St unit) (xs ys : list A) :
  forall (i : nat) (s : St),
    forEach f (xs ++ ys) i s
    = bind (forEach f xs i) (fun _ => forEach f ys (i + length xs)) s.
Proof.
  induction xs as [|x xs IH]; intros i s.
  - cbn [app forEach length]. rewrite Nat.add_0_r. reflexivity.
  - cbn [app forEach length].
    replace (i + S (length xs))%nat with (S i + length xs)%nat by lia.
    unfold bind. destruct (f x i s) as [[[]|err] s1]; [| reflexivity].
    rewrite IH. reflexivity.
Qed.




End Partial.

Section Running.

Variable hypot : float -> float -> float.
Variable clock : nat -> float.

(** The three nested conditions of the loop body, with the debounce
    timestamp as it is stored. *)
Lemma fires_stored (lastData : FingerData) (x y now : float) (st : Physics)
    (s : nat) :
  fires lastData x y now st s
  = ((last_x lastData <? stringX s) && (stringX s <=? x)
     || (stringX s <? last_x lastData) && (x <=? stringX s))
    && ((0.1 <? y) && (y <? 0.9))
    && match stringDebounce st !! s with
       | Some d => 40 <? now - d
       | None => false
       end.
Proof.
  unfold fires, crossedLeftToRight, crossedRightToLeft, gt, ge, debounce_at,
    debounceTime.
  destruct (stringDebounce st !! s) as [d|]; cbn [default]; [reflexivity |].
  change (40 <? now - nan) with (gt (now - nan) 40).
  rewrite AppFacts.gt_sub_nan. reflexivity.
Qed.


(** *** The frame loop *)

Lemma in_world_run {A} (m : M World A) (l : Loop) (o : outcome A) (w : World) :
  m (world l) = (o, w) ->
  in_world m l
  = (o, {| world := w; drawn := drawn l; requested := requested l |}).
Proof. intros H. unfold in_world. rewrite H. reflexivity. Qed.

Lemma drawFrame_complete (hands : list Hand) (l : Loop) :
  Forall (fun h => 21 <= length h)%nat hands ->
  drawFrame hands l
  = (Ok tt, {| world := world l; drawn := S (drawn l);
               requested := requested l |}).
Proof.
  intros Hall. unfold drawFrame.
  assert (Hdraw : forall i, forEach (fun landmarks (_ : nat) =>
                                       lift (St := Loop) (drawHand landmarks))
                              hands i l = (Ok tt, l)).
  { induction Hall as [|h hands Hh _ IH]; intros i; [reflexivity |].
    cbn [forEach]. rewrite (AppFacts.drawHand_complete _ Hh), Calls.bind_lift_ok.
    apply IH. }
  rewrite (Calls.bind_step _ _ _ _ _ (Hdraw 0%nat)). reflexivity.
Qed.


Lemma run_stopped (frames : list Frame) (l : Loop) :
  requested l = false -> run hypot clock frames l = l.
Proof. intros H. destruct frames; cbn [run]; [| rewrite H]; reflexivity. Qed.

(** A frame whose physics step throws is not drawn and requests no further
    frame: the loop ends with it. *)
Lemma gameLoop_physics_throws (f : Frame) (hands : list Hand) (l : Loop)
    (err : error) (w' : World) :
  live f = true -> result f = Some hands ->
  processPhysics hypot clock hands
    match presentationTime f with
    | Some p => if truthy (VNumber p) then p else frame_now f
    | None => frame_now f
    end (world l) = (Throw err, w') ->
  gameLoop hypot clock f l
  = (Throw err, {| world := w'; drawn := drawn l; requested := requested l |}).
Proof.
  intros Hlive Hres Hrun. unfold gameLoop. rewrite Hlive, Hres.
  cbn [negb default].
  apply Calls.bind_throw. apply (in_world_run _ _ _ _ Hrun).
Qed.

Lemma run_throws (f : Frame) (frames : list Frame) (l : Loop) :
  (forall l0, world l0 = world l -> requested l0 = false ->
              exists err l', gameLoop hypot clock f l0 = (Throw err, l') /\
                             requested l' = false) ->
  run hypot clock (f :: frames) l = run hypot clock [f] l.
Proof.
  intros H. cbn [run]. destruct (requested l); [| reflexivity].
  destruct (H {| world := world l; drawn := drawn l; requested := false |}
              eq_refl eq_refl) as (err & l' & -> & Hreq).
  cbn [snd]. apply run_stopped, Hreq.
Qed.

Lemma gameLoop_complete (f : Frame) (l : Loop) :
  complete f = true ->
  plays (player (world l)) ->
  let w' :=
    match result f with
    | Some hands =>
        snd (processPhysics hypot clock hands
               match presentationTime f with
               | Some p => if truthy (VNumber p) then p else frame_now f
               | None => frame_now f
               end (world l))
    | None => world l
    end in
  gameLoop hypot clock f l
  = (Ok tt, {| world := w'; drawn := S (drawn l); requested := true |}) /\
  plays (player w').
Proof.
  unfold complete, gameLoop. intros H Hp. cbv zeta.
  apply andb_prop in H as [-> H]. cbn [negb].
  destruct (result f) as [hands|]; cbn [default].
  - assert (Hall : Forall (fun h => 21 <= length h)%nat hands).
    { apply Forall_forall. intros h Hin. rewrite forallb_forall in H.
      apply Nat.leb_le, H, list_elem_of_In, Hin. }
    set (now := match presentationTime f with
                | Some p => if truthy (VNumber p) then p else frame_now f
                | None => frame_now f
                end).
    destruct (processPhysics_agrees hypot clock hands now (world l) Hp)
      as (w' & new & Hrun & _ & _ & _ & Hp'). cbv zeta in Hrun.
    destruct (AppFacts.processPhysics_complete hypot
                match audioEngine (player (world l)) with
                | Some _ => true
                | None => false
                end hands now (physics (world l)) Hall) as [st' Hst].
    rewrite Hst in Hrun. cbn [fst] in Hrun.
    rewrite (Calls.bind_step _ _ _ _ _ (in_world_run _ _ _ _ Hrun)).
    rewrite (Calls.bind_step _ _ _ _ _ (drawFrame_complete hands _ Hall)).
    rewrite Hrun. cbn [snd]. split; [reflexivity | exact Hp'].
  - unfold bind at 1, ret.
    rewrite (Calls.bind_step _ _ _ _ _
               (drawFrame_complete [] l (Forall_nil_2 _))).
    split; [reflexivity | exact Hp].
Qed.



(** With complete frames and a player that plays, every frame is
    processed and drawn and requests the next. *)
Lemma run_complete (frames : list Frame) :
  Forall (fun f => complete f = true) frames ->
  forall l : Loop,
    requested l = true -> plays (player (world l)) ->
    run hypot clock frames l
    = {| world :=
           fold_left
             (fun w f =>
                match result f with
                | Some hands =>
                    snd (processPhysics hypot clock hands
                           match presentationTime f with
                           | Some p =>
                               if truthy (VNumber p) then p else frame_now f
                           | None => frame_now f
                           end w)
                | None => w
                end)
             frames (world l);
         drawn := drawn l + length frames;
         requested := true |} /\
    plays (player (world (run hypot clock frames l))).
Proof.
  intros Hall. induction Hall as [|f frames Hf Hall IH]; intros l Hreq Hp.
  - cbn [run fold_left length]. split; [| exact Hp].
    destruct l. cbn in *. subst. rewrite Nat.add_0_r. reflexivity.
  - cbn [run]. rewrite Hreq.
    destruct (gameLoop_complete f
                {| world := world l; drawn := drawn l; requested := false |}
                Hf Hp) as [Hrun Hp']. cbv zeta in Hrun, Hp'.
    cbn [world drawn] in Hrun, Hp'. rewrite Hrun. cbn [snd].
    match goal with
    | |- context [run hypot clock frames ?l1] =>
        destruct (IH l1 eq_refl Hp') as [IHrun IHp]
    end.
    split; [| exact IHp].
    rewrite IHrun. cbn [world drawn fold_left length]. f_equal. lia.
Qed.

(** X22.  The frame loop over live frames whose hands are complete, on a
    player whose calls of [triggerString] return: every frame is processed
    and drawn and the next frame is requested after each, so after [n]
    frames the draw count has grown by [n] and a callback is registered;
    the world at the end is that of the physics steps of the frames, one
    after the other, the step of a frame running at its presentation time
    when the metadata carry one that is neither 0 nor NaN, and at the
    callback time otherwise. *)
Theorem run_complete_frames (frames : list Frame) (l : Loop) :
  Forall (fun f => live f = true /\
                   forall hands, result f = Some hands ->
                                 Forall (fun h => 21 <= length h)%nat hands)
    frames ->
  requested l = true ->
  plays (player (world l)) ->
  run hypot clock frames l
  = {| world :=
         fold_left
           (fun w f =>
              match result f with
              | Some hands =>
                  snd (processPhysics hypot clock hands
                         match presentationTime f with
                         | Some p =>
                             if is_zero p || is_nan p then frame_now f else p
                         | None => frame_now f
                         end w)
              | None => w
              end)
           frames (world l);
       drawn := drawn l + length frames;
       requested := true |}.
Proof.
  intros Hall Hreq Hp.
  assert (Hc : Forall (fun f => complete f = true) frames).
  { eapply Forall_impl; [exact Hall |]. intros f [Hlive Hhands].
    unfold complete. rewrite Hlive. cbn [andb].
    destruct (result f) as [hands|]; [| reflexivity].
    apply forallb_forall. intros h Hin. apply Nat.leb_le.
    specialize (Hhands hands eq_refl). rewrite Forall_forall in Hhands.
    apply Hhands, list_elem_of_In, Hin. }
  rewrite (proj1 (run_complete frames Hc l Hreq Hp)). f_equal.
  generalize (world l). clear. induction frames as [|f frames IH]; intros w;
    [reflexivity |].
  cbn [fold_left]. rewrite IH. f_equal.
  destruct (result f); [| reflexivity].
  destruct (presentationTime f) as [p|]; [| reflexivity].
  unfold truthy. destruct (is_zero p || is_nan p); reflexivity.
Qed.

(** *** A call of [triggerString] that throws *)

Lemma stringStep_quiet (lastData : FingerData) (x y now : float) (s : nat)
    (w : World) :
  fires lastData x y now (physics w) s = false ->
  stringStep clock lastData x y now s w = (Ok tt, w).
Proof.
  unfold fires, stringStep. intros H.
  destruct (crossedLeftToRight (last_x lastData) x (stringX s)
            || crossedRightToLeft (last_x lastData) x (stringX s));
    [| reflexivity].
  destruct (gt y 0.1 && (y <? 0.9)); [| reflexivity].
  rewrite Calls.bind_read. cbn [andb] in H. rewrite H. reflexivity.
Qed.

Lemma filter_first {A} (f : A -> bool) (l : list A) (x : A) (more : list A) :
  List.filter f l = x :: more ->
  exists pre post : list A,
    l = pre ++ x :: post /\ Forall (fun y => f y = false) pre /\ f x = true.
Proof.
  induction l as [|a l IH]; cbn [List.filter]; [discriminate |].
  destruct (f a) eqn:Hfa.
  - intros H. injection H as -> _. exists [], l. auto.
  - intros H. destruct (IH H) as (pre & post & -> & Hpre & Hx).
    exists (a :: pre), post. auto.
Qed.

Lemma triggerString_inherited (s : nat) (now : float) (w : World)
    (e : AudioEngine.Engine) (c : AudioEngine.AudioContext)
    (mg : AudioEngine.AudioParam) :
  audioEngine (player w) = Some e ->
  AudioEngine.ctx e = Some c -> AudioEngine.masterGain e = Some mg ->
  note_of (instrument (player w)) s ∈ Object_prototype_keys ->
  triggerString clock s now w
  = (Throw TypeError,
     {| physics := call_triggerString s now (physics w);
        player := {| audioEngine := Some (Scheduled.resumed c e);
                     instrument := instrument (player w);
                     activeStrings := activeStrings (player w) |} |}).
Proof.
  intros Ha Hc Hm Hin. unfold triggerString.
  rewrite Calls.bind_read, Calls.bind_modify.
  unfold in_player, on_physics. cbn [player physics].
  unfold App.triggerString. rewrite Calls.bind_read, Ha.
  rewrite (AudioEngineFacts.playNote_inherited_throws _ _ _ _ Hin Hc Hm).
  cbv iota beta. rewrite Calls.bind_modify, Calls.bind_lift_throw.
  reflexivity.
Qed.

Lemma fingerUpdate_trigger_throws (landmarks : Hand) (handIndex : nat)
    (now : float) (tip pip : nat) (p : Landmark) (lastData : FingerData)
    (w : World) (e : AudioEngine.Engine) (c : AudioEngine.AudioContext)
    (mg : AudioEngine.AudioParam) (s0 : nat) (more : list nat) :
  isFingerOpen hypot landmarks tip pip 0 = Ok true ->
  landmarks !! tip = Some p ->
  lastFingerData (physics w) !! fingerId handIndex tip = Some lastData ->
  gt (velocity lastData (1.0 - lx p) now) velocityThreshold = true ->
  fired lastData (1.0 - lx p) (ly p) now (physics w) = s0 :: more ->
  audioEngine (player w) = Some e ->
  AudioEngine.ctx e = Some c -> AudioEngine.masterGain e = Some mg ->
  note_of (instrument (player w)) s0 ∈ Object_prototype_keys ->
  fingerUpdate hypot clock landmarks handIndex now (tip, pip) w
  = (Throw TypeError,
     {| physics := call_triggerString s0 now (physics w);
        player := {| audioEngine := Some (Scheduled.resumed c e);
                     instrument := instrument (player w);
                     activeStrings := activeStrings (player w) |} |}).
Proof.
  intros Hopen Hp Hlast Hv Hfired Ha Hc Hm Hin.
  unfold fingerUpdate. rewrite Hopen, Calls.bind_lift_ok. cbn [negb].
  unfold landmark. rewrite Hp, Calls.bind_lift_ok, Calls.bind_read, Hlast.
  apply Calls.bind_throw. unfold pluck. rewrite Hv.
  unfold fired in Hfired.
  destruct (filter_first _ _ _ _ Hfired) as (pre & post & Hseq & Hpre & Hs0).
  rewrite Hseq, forEach_app.
  assert (Hquiet : forall i, forEach (fun s (_ : nat) =>
                                stringStep clock lastData (1.0 - lx p) (ly p)
                                  now s) pre i w = (Ok tt, w)).
  { clear Hseq. induction Hpre as [|s pre Hs _ IH]; intros i; [reflexivity |].
    cbn [forEach]. rewrite (Calls.bind_step _ _ _ _ _
                              (stringStep_quiet _ _ _ _ _ _ Hs)). apply IH. }
  rewrite (Calls.bind_step _ _ _ _ _ (Hquiet 0%nat)). cbn [forEach].
  apply Calls.bind_throw.
  unfold fires in Hs0. apply andb_prop in Hs0 as [Hs0 Hd].
  apply andb_prop in Hs0 as [Hcross Hband].
  unfold stringStep. rewrite Hcross, Hband, Calls.bind_read, Hd.
  apply Calls.bind_throw. apply (triggerString_inherited _ _ _ _ _ _ Ha Hc Hm Hin).
Qed.

(** X23.  An exception of [playNote] ends the frame loop.  When the index
    finger of the first hand is open, has an entry, is fast enough and
    crosses strings, and the note of the first string it crosses is a name
    inherited from [Object.prototype], the TypeError of [playNote] leaves
    [triggerString], the loop over the strings, [processPhysics] and
    [gameLoop] uncaught: that one call is made, no debounce timestamp and
    no finger entry is written (not even the finger's own), no string is
    marked active, the other fingers and hands are not processed, the frame
    is not drawn, the next frame is not requested, and the frames that
    follow are not processed. *)
Theorem trigger_throw_ends_loop (f : Frame) (landmarks : Hand)
    (rest : list Hand) (l : Loop) (p : Landmark) (lastData : FingerData)
    (e : AudioEngine.Engine) (c : AudioEngine.AudioContext)
    (mg : AudioEngine.AudioParam) (s0 : nat) (more : list nat) :
  let now := match presentationTime f with
             | Some p => if truthy (VNumber p) then p else frame_now f
             | None => frame_now f
             end in
  let x := 1.0 - lx p in
  let y := ly p in
  live f = true -> result f = Some (landmarks :: rest) ->
  isFingerOpen hypot landmarks 8 6 0 = Ok true ->
  landmarks !! 8%nat = Some p ->
  lastFingerData (physics (world l)) !! 8%nat = Some lastData ->
  (0.00015 <? velocity lastData x now) = true ->
  List.filter
    (fun s =>
       ((last_x lastData <? stringX s) && (stringX s <=? x)
        || (stringX s <? last_x lastData) && (x <=? stringX s))
       && ((0.1 <? y) && (y <? 0.9))
       && match stringDebounce (physics (world l)) !! s with
          | Some d => 40 <? now - d
          | None => false
          end)
    (seq 0 NUM_STRINGS) = s0 :: more ->
  audioEngine (player (world l)) = Some e ->
  AudioEngine.ctx e = Some c -> AudioEngine.masterGain e = Some mg ->
  note_of (instrument (player (world l))) s0 ∈ Object_prototype_keys ->
  exists l' : Loop,
    gameLoop hypot clock f l = (Throw TypeError, l') /\
    drawn l' = drawn l /\ requested l' = requested l /\
    triggerStringCalls (physics (world l'))
    = triggerStringCalls (physics (world l)) ++ [(s0, now)] /\
    stringDebounce (physics (world l')) = stringDebounce (physics (world l)) /\
    lastFingerData (physics (world l')) = lastFingerData (physics (world l)) /\
    activeStrings (player (world l')) = activeStrings (player (world l)) /\
    (forall e' : AudioEngine.Engine,
       audioEngine (player (world l')) = Some e' ->
       AudioEngine.voices e' = AudioEngine.voices e) /\
    forall frames : list Frame,
      run hypot clock (f :: frames) l = run hypot clock [f] l.
Proof.
  intros now x y Hlive Hres Hopen Hp Hlast Hv Hfilter Ha Hc Hm Hin.
  assert (Hfired : fired lastData x y now (physics (world l)) = s0 :: more).
  { rewrite <- Hfilter. unfold fired. apply List.filter_ext. intros s.
    apply fires_stored. }
  assert (Hthrow : forall l0, world l0 = world l ->
            gameLoop hypot clock f l0
            = (Throw TypeError,
               {| world :=
                    {| physics := call_triggerString s0 now (physics (world l));
                       player :=
                         {| audioEngine := Some (Scheduled.resumed c e);
                            instrument := instrument (player (world l));
                            activeStrings := activeStrings (player (world l)) |} |};
                  drawn := drawn l0; requested := requested l0 |})).
  { intros l0 Hw. apply (gameLoop_physics_throws f _ l0 _ _ Hlive Hres).
    fold now. rewrite Hw. unfold processPhysics.
    rewrite Calls.bind_read, Ha. cbn [forEach]. apply Calls.bind_throw.
    unfold handUpdate, fingers. cbn [forEach]. apply Calls.bind_throw.
    apply (fingerUpdate_trigger_throws landmarks 0 now 8 6 p lastData
             (world l) e c mg s0 more Hopen Hp Hlast Hv Hfired Ha Hc Hm Hin). }
  eexists. split; [apply (Hthrow l eq_refl) |].
  cbn [drawn requested world physics player activeStrings audioEngine
       triggerStringCalls stringDebounce lastFingerData call_triggerString].
  do 6 (split; [reflexivity |]).
  split.
  - intros e' He'. injection He' as <-. apply AudioEngineFacts.voices_resumed.
  - intros frames. apply run_throws. intros l0 Hw Hreq.
    eexists _, _. split; [apply (Hthrow l0 Hw) |]. exact Hreq.
Qed.

End Running.

(** The example players play: every preset is accepted at the context
    time 2. *)
Lemma preset_plays (p : Types.InstrumentState) :
  p ∈ Presets.INSTRUMENT_PRESETS -> plays (Cases.player p).
Proof.
  intros Hp e c mg Ha Hc Hm index.
  unfold Cases.player in Ha. cbn [audioEngine] in Ha. injection Ha as <-.
  cbn [AudioEngine.config AudioEngine.set_config].
  change (Some (Cases.context 2 AudioEngine.Running) = Some c) in Hc.
  injection Hc as <-. cbn [AudioEngine.currentTime Cases.context].
  apply PresetFacts.preset_accepted; [exact Hp |].
  assert (Hall : forallb (fun q => Graph.times_ok (Types.config q) 2)
                   Presets.INSTRUMENT_PRESETS = true)
    by (vm_compute; reflexivity).
  rewrite forallb_forall in Hall. apply Hall, list_elem_of_In, Hp.
Qed.

Lemma harp_plays : plays (Cases.player Types.harp).
Proof.
  apply preset_plays. apply list_elem_of_lookup. exists 0%nat. reflexivity.
Qed.




Lemma run_complete_frames_witness :
  let frames :=
    [ Scenes.presented 1000 990 [Examples.hand 0.95 0.5];
      Scenes.presented 1020 0 [Examples.hand 0.8 0.5] ] in
  let l := run Examples.hypot Scenes.clock frames (Scenes.loop0 Types.harp) in
  drawn l = 2%nat /\ requested l = true /\
  lastFingerData
    (physics (world (run Examples.hypot Scenes.clock [Scenes.presented 1000 990
                                                        [Examples.hand 0.95 0.5]]
                       (Scenes.loop0 Types.harp)))) !! 8%nat
  = Some {| last_x := 1.0 - 0.95; time := 990 |} /\
  triggerStringCalls (physics (world l)) = [(0%nat, 1020); (1%nat, 1020)].
Proof.
  cbv zeta.
  rewrite (run_complete_frames Examples.hypot Scenes.clock
             [ Scenes.presented 1000 990 [Examples.hand 0.95 0.5];
               Scenes.presented 1020 0 [Examples.hand 0.8 0.5] ]
             (Scenes.loop0 Types.harp)).
  - rewrite (run_complete_frames Examples.hypot Scenes.clock
               [ Scenes.presented 1000 990 [Examples.hand 0.95 0.5] ]
               (Scenes.loop0 Types.harp)).
    + repeat split; vm_compute; reflexivity.
    + repeat constructor. intros hands H. injection H as <-.
      repeat constructor.
    + reflexivity.
    + exact harp_plays.
  - repeat constructor; intros hands H; injection H as <-; repeat constructor.
  - reflexivity.
  - exact harp_plays.
Defined.

Lemma trigger_throw_ends_loop_witness :
  let l := {| world := Scenes.world (Examples.seen 8 0.10 1000) Cases.odd_notes;
              drawn := 3; requested := true |} in
  let f := Examples.frame 1010 [Examples.hand 0.8 0.5] in
  exists l' : Loop,
    gameLoop Examples.hypot Scenes.clock f l = (Throw TypeError, l') /\
    drawn l' = 3%nat /\
    triggerStringCalls (physics (world l')) = [(1%nat, 1010)] /\
    stringDebounce (physics (world l')) = replicate 12 0 /\
    lastFingerData (physics (world l')) !! 8%nat
    = Some {| last_x := 0.10; time := 1000 |} /\
    run Examples.hypot Scenes.clock
      [f; Examples.frame 1020 [Examples.hand 0.7 0.5]] l
    = run Examples.hypot Scenes.clock [f] l.
Proof.
  cbv zeta.
  destruct (trigger_throw_ends_loop Examples.hypot Scenes.clock
              (Examples.frame 1010 [Examples.hand 0.8 0.5])
              (Examples.hand 0.8 0.5) []
              {| world := Scenes.world (Examples.seen 8 0.10 1000) Cases.odd_notes;
                 drawn := 3; requested := true |}
              {| lx := 0.8; ly := 0.5 |} {| last_x := 0.10; time := 1000 |}
              (AudioEngine.set_config (Types.config Cases.odd_notes)
                 (Examples.engine_at 2))
              (Cases.context 2 AudioEngine.Running) (Graph.fixed 0.6)
              1 [])
    as (l' & Hrun & Hdrawn & _ & Hcalls & Hdeb & Hlast & _ & _ & Hstop).
  - reflexivity.
  - reflexivity.
  - vm_compute. reflexivity.
  - reflexivity.
  - reflexivity.
  - vm_compute. reflexivity.
  - vm_compute. reflexivity.
  - reflexivity.
  - reflexivity.
  - reflexivity.
  - apply list_elem_of_lookup. exists 0%nat. reflexivity.
  - exists l'. split; [exact Hrun |]. split; [exact Hdrawn |].
    split; [exact Hcalls |]. split; [exact Hdeb |].
    split; [rewrite Hlast; reflexivity |]. apply Hstop.
Defined.

End WiredFacts.

(** ** The rendered envelope of a voice *)

Module RenderingFacts.

Import Reals Qreals Lra JS AudioEngine Rendering.
Local Open Scope R_scope.

Lemma real_0 : real 0%float = 0.
Proof.
  unfold real. replace (JS.exact 0%float) with 0%Q by reflexivity.
  unfold Q2R. simpl. lra.
Qed.

(** An exponential ramp starts at the value it leaves. *)
Lemma ramp_start (V0 V1 D T : R) :
  (if Rle_dec (V0 * V1) 0 then V0 else V0 * Rpower (V1 / V0) ((T - T) / D)) = V0.
Proof.
  destruct (Rle_dec (V0 * V1) 0) as [|Hpos]; [reflexivity |].
  replace ((T - T) / D) with 0 by (unfold Rdiv; ring).
  rewrite Rpower_O; [ring |].
  assert (H : 0 < V0 * V1) by lra.
  assert (HV0 : V0 <> 0) by (intros ->; lra).
  replace (V1 / V0) with (V0 * V1 * (/ V0 * / V0)) by (field; exact HV0).
  apply Rmult_lt_0_compat; [exact H |].
  rewrite <- Rinv_mult. apply Rinv_0_lt_compat.
  destruct (Rtotal_order V0 0) as [Hn | [Hz | Hp]]; [| contradiction |]; nra.
Qed.

(** An exponential ramp towards a lower positive value is below the value
    it leaves at every time after its start. *)
Lemma ramp_below (V0 V1 T0 T1 u : R) :
  0 < V1 < V0 -> T0 < u < T1 ->
  (if Rle_dec (V0 * V1) 0 then V0
   else V0 * Rpower (V1 / V0) ((u - T0) / (T1 - T0))) < V0.
Proof.
  intros [H1 H0] [Ht0 Ht1].
  destruct (Rle_dec (V0 * V1) 0) as [Hle | _]; [nra |].
  assert (Hq : 0 < V1 / V0 < 1).
  { split.
    - apply Rdiv_lt_0_compat; lra.
    - apply (Rmult_lt_reg_r V0); [lra |]. unfold Rdiv.
      rewrite Rmult_assoc, Rinv_l by lra. lra. }
  assert (Hy : 0 < (u - T0) / (T1 - T0)) by (apply Rdiv_lt_0_compat; lra).
  assert (Hp : Rpower (V1 / V0) ((u - T0) / (T1 - T0)) < 1).
  { unfold Rpower. rewrite <- exp_0. apply exp_increasing.
    assert (Hln : ln (V1 / V0) < 0).
    { rewrite <- ln_1. apply ln_increasing; lra. }
    nra. }
  nra.
Qed.

(** A bound by a root: [x ^ y <= q] when [x <= q ^ n] and [1 / n <= y],
    for [0 < x < 1] and [0 < q]. *)
Lemma Rpower_root_bound (x y q : R) (n : nat) :
  0 < x < 1 -> 0 < q -> (0 < n)%nat -> x < q ^ n -> / INR n <= y ->
  Rpower x y < q.
Proof.
  intros [Hx0 Hx1] Hq Hn Hxq Hy.
  assert (Hn' : 0 < INR n) by (apply lt_0_INR; exact Hn).
  assert (Hln : ln x < 0) by (rewrite <- ln_1; apply ln_increasing; lra).
  apply Rle_lt_trans with (Rpower x (/ INR n)).
  - unfold Rpower. destruct Hy as [Hy | <-]; [| lra].
    left. apply exp_increasing. nra.
  - destruct (Rlt_dec (Rpower x (/ INR n)) q) as [Hlt | Hge]; [exact Hlt |].
    exfalso. apply Rnot_lt_le in Hge.
    assert (Hpow : q ^ n <= Rpower x (/ INR n) ^ n).
    { apply pow_incr. split; [lra | exact Hge]. }
    rewrite <- (Rpower_pow n (Rpower x (/ INR n))) in Hpow
      by (unfold Rpower; apply exp_pos).
    rewrite Rpower_mult, Rinv_l, Rpower_1 in Hpow by lra. lra.
Qed.

(** The calls of the envelope are made in the order of their times. *)
Lemma timeline_envelope (cfg : SynthConfig) (t : float) :
  real t <= real (if (attack cfg <? 0.005)%float then t
                  else (t + attack cfg)%float) ->
  real (if (attack cfg <? 0.005)%float then t else (t + attack cfg)%float)
  <= real (t + attack cfg + decay cfg)%float ->
  real (t + attack cfg + decay cfg)%float
  <= real (t + attack cfg + decay cfg + release cfg)%float ->
  timeline (Scheduled.envelope cfg t) = Scheduled.envelope cfg t.
Proof.
  intros H1 H2 H3. unfold timeline, Scheduled.envelope.
  destruct (attack cfg <? 0.005)%float; cbn [fold_left insert eventTime];
    repeat (match goal with
            | |- context [Rlt_dec ?a ?b] =>
                destruct (Rlt_dec a b); [lra |]
            end; cbn [insert eventTime]);
    reflexivity.
Qed.

(** The value of the gain of a voice while its first exponential ramp is
    under way, when the attack is a jump. *)
Lemma envelope_jump (cfg : SynthConfig) (t : float) (T0 V0 u : R) :
  (attack cfg <? 0.005)%float = true ->
  real t <= u < real (t + attack cfg + decay cfg)%float ->
  value_from T0 V0 (Scheduled.envelope cfg t) u =
  Some
    (if Rle_dec (real (gain cfg) * real (gain cfg * sustain cfg + 0.001)%float) 0
     then real (gain cfg)
     else real (gain cfg) *
          Rpower (real (gain cfg * sustain cfg + 0.001)%float / real (gain cfg))
            ((u - real t) / (real (t + attack cfg + decay cfg)%float - real t))).
Proof.
  intros Hatt [Hlo Hhi]. unfold Scheduled.envelope. rewrite Hatt.
  cbn [value_from eventTime].
  destruct (Rlt_dec u (real t)) as [Hlt | _]; [lra |].
  destruct (Rlt_dec u (real (t + attack cfg + decay cfg)%float)) as [_ | Hge];
    [reflexivity | lra].
Qed.

(** The value while the linear ramp of the attack is under way. *)
Lemma envelope_ramp (cfg : SynthConfig) (t : float) (T0 V0 u : R) :
  (0.005 <=? attack cfg)%float = true ->
  real t <= u < real (t + attack cfg)%float ->
  value_from T0 V0 (Scheduled.envelope cfg t) u =
  Some (real (gain cfg) *
        ((u - real t) / (real (t + attack cfg)%float - real t))).
Proof.
  intros Hatt [Hlo Hhi]. unfold Scheduled.envelope.
  rewrite (FloatFacts.leb_ltb_false _ _ Hatt).
  cbn [value_from eventTime].
  destruct (Rlt_dec u (real t)) as [Hlt | _]; [lra |].
  destruct (Rlt_dec u (real (t + attack cfg)%float)) as [_ | Hge]; [| lra].
  rewrite real_0. f_equal. ring.
Qed.

(** The value at the end of the linear ramp. *)
Lemma envelope_peak (cfg : SynthConfig) (t : float) (T0 V0 : R) :
  (0.005 <=? attack cfg)%float = true ->
  real t < real (t + attack cfg)%float
  < real (t + attack cfg + decay cfg)%float ->
  value_from T0 V0 (Scheduled.envelope cfg t) (real (t + attack cfg)%float)
  = Some (real (gain cfg)).
Proof.
  intros Hatt [Hlo Hhi]. unfold Scheduled.envelope.
  rewrite (FloatFacts.leb_ltb_false _ _ Hatt).
  cbn [value_from eventTime].
  destruct (Rlt_dec (real (t + attack cfg)%float) (real t)) as [Hlt | _]; [lra |].
  destruct (Rlt_dec (real (t + attack cfg)%float) (real (t + attack cfg)%float))
    as [Hlt | _]; [lra |].
  destruct (Rlt_dec (real (t + attack cfg)%float)
              (real (t + attack cfg + decay cfg)%float)) as [_ | Hge]; [| lra].
  f_equal. apply ramp_start.
Qed.

(** The scheduled calls of a [playNote] that returns. *)
Lemma playNote_envelope (note : string) (e e' : Engine) (c : AudioContext)
    (mg : AudioParam) :
  ctx e = Some c -> masterGain e = Some mg ->
  playNote note e = (Ok tt, e') ->
  exists v : Voice,
    voices e' = voices e ++ [v] /\
    value (voice_gain v) = 1%float /\
    events (voice_gain v) = Scheduled.envelope (config e) (currentTime c).
Proof.
  intros Hc Hm Hrun.
  destruct (AudioEngineFacts.playNote_inv _ _ _ _ _ Hc Hm Hrun) as [-> _].
  unfold Scheduled.played, set_voices. cbn [voices].
  eexists. split; [reflexivity |]. split; reflexivity.
Qed.

(** C6.  On an engine whose graph exists, a call of [playNote] that returns
    normally leaves one new voice; [t] is the trigger time.

    When the attack of the configuration is below 0.005 the calls on the
    gain of the voice are: value 0 at [t], the configured gain set at [t]
    itself with no ramp towards it, then the two exponential ramps of decay
    and release.  When the decay ramp ends after [t] and the release ramp
    not before it, the value of the gain at [t] is the configured gain.  It
    does not stay there: the decay ramp starts at [t], so from [t] to the
    end of that ramp the value is
    [gain * (target / gain) ^ ((u - t) / (end - t))] with
    [target = gain * sustain + 0.001], and it is below the configured gain
    at every time strictly after [t] when [0 < target < gain].

    When the attack is 0.005 or more the second call is instead a linear
    ramp to the configured gain ending at [t + attack].  When that time is
    after [t] and before the end of the decay ramp, the value is 0 at [t],
    grows linearly with the time elapsed, and is the configured gain at
    [t + attack]. *)
Theorem playNote_attack (note : string) (e e' : Engine) (c : AudioContext)
    (mg : AudioParam) :
  ctx e = Some c -> masterGain e = Some mg ->
  playNote note e = (Ok tt, e') ->
  exists v : Voice,
    voices e' = voices e ++ [v] /\
    let cfg := config e in
    let t := currentTime c in
    let peak := real (gain cfg) in
    let target := real (gain cfg * sustain cfg + 0.001)%float in
    let attacked := real (t + attack cfg)%float in
    let decayed := real (t + attack cfg + decay cfg)%float in
    let released := real (t + attack cfg + decay cfg + release cfg)%float in
    let level := value_at t (voice_gain v) in
    ((attack cfg <? 0.005)%float = true ->
     events (voice_gain v) =
     [ SetValueAtTime 0 t;
       SetValueAtTime (gain cfg) t;
       ExponentialRampToValueAtTime (gain cfg * sustain cfg + 0.001)
         (t + attack cfg + decay cfg);
       ExponentialRampToValueAtTime 0.0001
         (t + attack cfg + decay cfg + release cfg) ]%float /\
     (real t < decayed /\ decayed <= released ->
      level (real t) = Some peak /\
      (forall u, real t <= u < decayed ->
         level u = Some (if Rle_dec (peak * target) 0 then peak
                         else peak * Rpower (target / peak)
                                       ((u - real t) / (decayed - real t)))) /\
      (0 < target < peak ->
       forall u, real t < u < decayed ->
         exists x, level u = Some x /\ x < peak))) /\
    ((0.005 <=? attack cfg)%float = true ->
     events (voice_gain v) =
     [ SetValueAtTime 0 t;
       LinearRampToValueAtTime (gain cfg) (t + attack cfg);
       ExponentialRampToValueAtTime (gain cfg * sustain cfg + 0.001)
         (t + attack cfg + decay cfg);
       ExponentialRampToValueAtTime 0.0001
         (t + attack cfg + decay cfg + release cfg) ]%float /\
     (real t < attacked /\ attacked < decayed /\ decayed <= released ->
      level (real t) = Some 0 /\
      (forall u, real t <= u < attacked ->
         level u = Some (peak * ((u - real t) / (attacked - real t)))) /\
      level attacked = Some peak)).
Proof.
  intros Hc Hm Hrun.
  destruct (playNote_envelope _ _ _ _ _ Hc Hm Hrun) as (v & Hv & Hval & Hev).
  exists v. split; [exact Hv |].
  cbv zeta. unfold value_at. rewrite Hev, Hval.
  split.
  - intros Hatt. split.
    { unfold Scheduled.envelope. rewrite Hatt. reflexivity. }
    intros [Hend Hrel].
    rewrite timeline_envelope by (rewrite ?Hatt; lra).
    assert (Hin : forall u,
              real (currentTime c) <= u
              < real (currentTime c + attack (config e) + decay (config e))%float ->
              value_from (real (currentTime c)) (real 1%float)
                (Scheduled.envelope (config e) (currentTime c)) u = _)
      by (intros u Hu; exact (envelope_jump _ _ _ _ u Hatt Hu)).
    split; [| split].
    + rewrite Hin by lra. f_equal. apply ramp_start.
    + exact Hin.
    + intros Hlow u Hu. rewrite Hin by lra. eexists. split; [reflexivity |].
      apply ramp_below; assumption.
  - intros Hatt. split.
    { unfold Scheduled.envelope. rewrite (FloatFacts.leb_ltb_false _ _ Hatt).
      reflexivity. }
    intros (Hatk & Hend & Hrel).
    rewrite timeline_envelope
      by (rewrite ?(FloatFacts.leb_ltb_false _ _ Hatt); lra).
    split; [| split].
    + rewrite (envelope_ramp _ _ _ _ _ Hatt) by lra.
      f_equal. unfold Rdiv. ring.
    + intros u Hu. exact (envelope_ramp _ _ _ _ u Hatt Hu).
    + apply (envelope_peak _ _ _ _ Hatt). lra.
Qed.

(** A rational bound on a concrete number. *)
Ltac real_bound :=
  unfold real;
  repeat match goal with
         | |- context [JS.exact ?f] =>
             let q := eval vm_compute in (JS.exact f) in
             change (JS.exact f) with q
         end;
  unfold Q2R; cbn [Qnum Qden]; lra.

Lemma arcade_played :
  playNote "C4" Examples.arcade_engine
  = (Ok tt, snd (playNote "C4" Examples.arcade_engine)).
Proof. vm_compute. reflexivity. Qed.

(** The numbers of the arcade preset, played at the context time 2. *)
Lemma arcade_numbers :
  real 2%float = 2 /\
  2101 / 1000 - 1 / 1000000 < real (2 + 0.001 + 0.1)%float
  < 2101 / 1000 + 1 / 1000000 /\
  real (2 + 0.001 + 0.1)%float < real (2 + 0.001 + 0.1 + 0.1)%float /\
  5 / 1000 - 1 / 1000000 < real 0.005%float < 5 / 1000 + 1 / 1000000 /\
  16 / 1000 - 1 / 1000000 < real (0.15 * 0.1 + 0.001)%float
  < 16 / 1000 + 1 / 1000000 /\
  15 / 100 - 1 / 1000000 < real 0.15%float < 15 / 100 + 1 / 1000000.
Proof. repeat split; real_bound. Qed.

Lemma playNote_attack_witness :
  exists v : Voice,
    voices (snd (playNote "C4" Examples.arcade_engine))
    = voices Examples.arcade_engine ++ [v] /\
    events (voice_gain v) =
    [ SetValueAtTime 0 2;
      SetValueAtTime 0.15 2;
      ExponentialRampToValueAtTime (0.15 * 0.1 + 0.001) (2 + 0.001 + 0.1);
      ExponentialRampToValueAtTime 0.0001 (2 + 0.001 + 0.1 + 0.1) ]%float /\
    value_at 2 (voice_gain v) (real 2%float) = Some (real 0.15%float) /\
    exists x,
      value_at 2 (voice_gain v) (real 2%float + real 0.005%float) = Some x /\
      x < real 0.15%float.
Proof.
  destruct arcade_numbers as (H2 & HT1 & HT2 & Heps & Htg & Hg).
  edestruct (playNote_attack "C4" Examples.arcade_engine
               (snd (playNote "C4" Examples.arcade_engine)))
    as (v & Hv & Hjump & _).
  - vm_compute. reflexivity.
  - vm_compute. reflexivity.
  - exact arcade_played.
  - cbv zeta in Hjump.
    destruct Hjump as (Hev & Hlevel); [vm_compute; reflexivity |].
    destruct Hlevel as (Hat & _ & Hbelow).
    { change (real 2%float < real (2 + 0.001 + 0.1)%float /\
              real (2 + 0.001 + 0.1)%float
              <= real (2 + 0.001 + 0.1 + 0.1)%float). lra. }
    exists v. split; [exact Hv |]. split; [exact Hev |].
    split; [exact Hat |].
    apply Hbelow.
    + change (0 < real (0.15 * 0.1 + 0.001)%float < real 0.15%float). lra.
    + change (real 2%float < real 2%float + real 0.005%float
              < real (2 + 0.001 + 0.1)%float). lra.
Defined.

(** The default configuration has an attack of exactly 0.005, a ramp: the
    gain of the voice is 0 at the trigger time and the configured 0.3 at
    the end of the attack. *)
Example default_attack_ramp :
  exists v : Voice,
    voices (snd (playNote "A4" (Examples.engine_at 2))) = [v] /\
    value_at 2 (voice_gain v) (real 2%float) = Some 0 /\
    value_at 2 (voice_gain v) (real (2 + 0.005)%float) = Some (real 0.3%float).
Proof.
  assert (Hrun : playNote "A4" (Examples.engine_at 2)
                 = (Ok tt, snd (playNote "A4" (Examples.engine_at 2))))
    by (vm_compute; reflexivity).
  destruct (playNote_envelope "A4" (Examples.engine_at 2) _ _ _
              eq_refl eq_refl Hrun) as (v & Hv & Hval & Hev).
  exists v. split; [exact Hv |].
  assert (Hat : (0.005 <=? attack Types.DEFAULT_CONFIG)%float = true)
    by (vm_compute; reflexivity).
  assert (B : real 2%float = 2 /\
              2004 / 1000 < real (2 + 0.005)%float < 2006 / 1000 /\
              2104 / 1000 < real (2 + 0.005 + 0.1)%float < 2106 / 1000 /\
              3604 / 1000 < real (2 + 0.005 + 0.1 + 1.5)%float)
    by (repeat split; real_bound).
  assert (Htimes : real 2%float < real (2 + 0.005)%float /\
                   real (2 + 0.005)%float < real (2 + 0.005 + 0.1)%float /\
                   real (2 + 0.005 + 0.1)%float
                   <= real (2 + 0.005 + 0.1 + 1.5)%float) by lra.
  clear B. destruct Htimes as (H1 & H2 & H3).
  unfold value_at. rewrite Hev, Hval.
  change (currentTime _) with 2%float.
  change (config (Examples.engine_at 2)) with Types.DEFAULT_CONFIG.
  rewrite timeline_envelope.
  - split.
    + rewrite (envelope_ramp Types.DEFAULT_CONFIG 2%float _ _ _ Hat).
      * f_equal. unfold Rdiv. ring.
      * change (real 2%float <= real 2%float < real (2 + 0.005)%float). lra.
    + apply (envelope_peak Types.DEFAULT_CONFIG 2%float _ _ Hat).
      split; [exact H1 | exact H2].
  - change (real 2%float <= real (2 + 0.005)%float). lra.
  - change (real (2 + 0.005)%float <= real (2 + 0.005 + 0.1)%float). lra.
  - change (real (2 + 0.005 + 0.1)%float
            <= real (2 + 0.005 + 0.1 + 1.5)%float). lra.
Qed.

(** C6, refuted as worded.  The arcade preset has an attack of 0.001, below
    the threshold.  [playNote] at the context time 2 returns, and the gain
    of the new voice is below the configured gain 0.15 at every time
    [2 + eps] with [0 < eps <= 0.005]: the jump to 0.15 at 2 is followed at
    once by the decay ramp, which starts at 2.  At [2 + 0.005] the gain is
    more than a tenth below 0.15. *)
Theorem instant_attack_decays :
  (attack Examples.arcade_config <? 0.005)%float = true /\
  gain Examples.arcade_config = 0.15%float /\
  fst (playNote "C4" Examples.arcade_engine) = Ok tt /\
  exists v : Voice,
    voices (snd (playNote "C4" Examples.arcade_engine)) = [v] /\
    (forall eps, 0 < eps <= real 0.005%float ->
       exists x,
         value_at 2 (voice_gain v) (real 2%float + eps) = Some x /\
         x < real 0.15%float) /\
    exists x,
      value_at 2 (voice_gain v) (real 2%float + real 0.005%float) = Some x /\
      x < 9 / 10 * real 0.15%float.
Proof.
  split; [vm_compute; reflexivity |]. split; [reflexivity |].
  split; [vm_compute; reflexivity |].
  destruct arcade_numbers as (H2 & HT1 & HT2 & Heps & Htg & Hg).
  destruct (playNote_envelope "C4" Examples.arcade_engine _ _ _
              eq_refl eq_refl arcade_played) as (v & Hv & Hval & Hev).
  exists v. split; [exact Hv |].
  assert (Hat : (attack Examples.arcade_config <? 0.005)%float = true)
    by (vm_compute; reflexivity).
  assert (Hin : forall u, real 2%float <= u < real (2 + 0.001 + 0.1)%float ->
            value_at 2 (voice_gain v) u
            = Some (if Rle_dec (real 0.15%float
                                * real (0.15 * 0.1 + 0.001)%float) 0
                    then real 0.15%float
                    else real 0.15%float *
                         Rpower (real (0.15 * 0.1 + 0.001)%float
                                 / real 0.15%float)
                           ((u - real 2%float)
                            / (real (2 + 0.001 + 0.1)%float - real 2%float)))).
  { intros u Hu. unfold value_at. rewrite Hev, Hval.
    change (currentTime _) with 2%float.
    change (config Examples.arcade_engine) with Examples.arcade_config.
    rewrite timeline_envelope.
    - exact (envelope_jump Examples.arcade_config 2%float _ _ u Hat Hu).
    - rewrite Hat. lra.
    - rewrite Hat.
      change (real 2%float <= real (2 + 0.001 + 0.1)%float). lra.
    - change (real (2 + 0.001 + 0.1)%float
              <= real (2 + 0.001 + 0.1 + 0.1)%float). lra. }
  split.
  - intros eps Heps'. rewrite Hin by lra. eexists. split; [reflexivity |].
    apply ramp_below; lra.
  - rewrite Hin by lra. eexists. split; [reflexivity |].
    destruct (Rle_dec (real 0.15%float * real (0.15 * 0.1 + 0.001)%float) 0)
      as [Hle | _]; [nra |].
    assert (Hp : Rpower (real (0.15 * 0.1 + 0.001)%float / real 0.15%float)
                   ((real 2%float + real 0.005%float - real 2%float)
                    / (real (2 + 0.001 + 0.1)%float - real 2%float))
                 < 9 / 10).
    { assert (Hx : 0 < real (0.15 * 0.1 + 0.001)%float / real 0.15%float
                   < 108 / 1000).
      { split; [apply Rdiv_lt_0_compat; lra |].
        apply (Rmult_lt_reg_r (real 0.15%float)); [lra |].
        unfold Rdiv. rewrite Rmult_assoc, Rinv_l by lra. lra. }
      apply (Rpower_root_bound _ _ _ 21); [lra | lra | lia | |].
      - apply Rlt_trans with (108 / 1000); [lra |]. lra.
      - replace (INR 21) with 21 by (simpl; lra).
        apply (Rmult_le_reg_r (real (2 + 0.001 + 0.1)%float - real 2%float));
          [lra |].
        unfold Rdiv. rewrite Rmult_assoc, Rinv_l by lra. lra. }
    nra.
Qed.

End RenderingFacts.
